(** * check_skiptrap: the skiptrap commit-log checker

    A shallow embedding of [software/skiptrap/check_skiptrap.py]: the
    disassembly scanner [parse_objdump_for_final_reg_pc] and the verification
    pipeline of [main] (skew-tolerant matching of memory writes, order check,
    exactly-once check on [g_data0], negative check on the misaligned store,
    exact register checks).

    Python integers are unbounded and are modelled by [Z]; dictionaries by
    stdpp's [gmap]; text by [string], one [ascii] per character (objdump
    listings are ASCII); the list [errors] is threaded explicitly through
    the stages in the order in which [main] appends to it; an uncaught
    exception is a result of its own.

    What [main] obtains from outside (the symbol table of [parse_nm], the
    exit code of the runner, the two event streams parsed from its log, the
    lines of the listing) are parameters of the embedding; the build step,
    the subprocess and the three line parsers are not modelled. *)

From Stdlib Require Import ZArith String Ascii DecimalString HexadecimalString.
From Stdlib Require HexadecimalPos.
From stdpp Require Import gmap strings list.

Local Open Scope Z_scope.

(** ** Python primitives used by the checker *)

Module Py.

(** [str.isspace] on the code points below 256: what [\s] and [strip]
    treat as white space. *)
Definition is_space (c : ascii) : bool :=
  let n := Z.of_N (N_of_ascii c) in
  ((9 <=? n) && (n <=? 13)) || ((28 <=? n) && (n <=? 32))
  || (n =? 133) || (n =? 160).

Fixpoint lstrip (s : list ascii) : list ascii :=
  match s with
  | c :: r => if is_space c then lstrip r else s
  | [] => []
  end.

(** [s.strip()] *)
Definition strip (s : list ascii) : list ascii :=
  rev (lstrip (rev (lstrip s))).

(** [s.split(sep)] for a one-character separator: never the empty list. *)
Fixpoint split (sep : ascii) (s : list ascii) : list (list ascii) :=
  match s with
  | [] => [[]]
  | c :: r =>
      if Ascii.eqb c sep then [] :: split sep r
      else match split sep r with
           | h :: t => (c :: h) :: t
           | [] => [[c]]
           end
  end.

(** [s.startswith(p)] *)
Fixpoint startswith (p s : list ascii) : bool :=
  match p, s with
  | [], _ => true
  | a :: p', b :: s' => Ascii.eqb a b && startswith p' s'
  | _ :: _, [] => false
  end.

(** Value of one hexadecimal digit, either case. *)
Definition hex_digit (c : ascii) : option Z :=
  let n := Z.of_N (N_of_ascii c) in
  if (48 <=? n) && (n <=? 57) then Some (n - 48)
  else if (97 <=? n) && (n <=? 102) then Some (n - 87)
  else if (65 <=? n) && (n <=? 70) then Some (n - 55)
  else None.

(** [int(s, 16)] for [s] a non-empty string of hexadecimal digits: the
    only arguments the scanner passes, its group 1 being [[0-9a-fA-F]+]. *)
Definition int16 (s : list ascii) : Z :=
  fold_left (λ acc c, 16 * acc + default 0 (hex_digit c)) s 0.

(** [str(n)] and [format(n, "x")] of an integer. *)
Definition str (n : Z) : string :=
  DecimalString.NilZero.string_of_int (Z.to_int n).

Definition hex (n : Z) : string :=
  HexadecimalString.NilZero.string_of_int (Z.to_hex_int n).

(** [x in xs] for strings. *)
Definition mem (x : string) (xs : list string) : bool :=
  existsb (String.eqb x) xs.

End Py.

(** ** The fragment of [re] the scanner uses

    A pattern is a sequence of items; every quantifier of the three patterns
    of the scanner applies to a single character class, and no group is
    nested.  [*] and [+] are greedy and give characters back one at a time,
    as the backtracking matcher of [re] does. *)

Module Re.

Inductive item : Type :=
| Bol                          (* ^ *)
| Eol                          (* $ *)
| Star (p : ascii → bool)      (* class* *)
| Plus (p : ascii → bool)      (* class+ *)
| Lit (s : list ascii)         (* literal text (re.escape) *)
| Open                         (* ( *)
| Close.                       (* ) *)

Definition pattern : Type := list item.

(** Character classes. *)
Definition space : ascii → bool := Py.is_space.          (* \s *)
Definition xdigit (c : ascii) : bool :=                  (* [0-9a-fA-F] *)
  match Py.hex_digit c with Some _ => true | None => false end.
Definition xdigit_or_blank (c : ascii) : bool :=         (* [0-9a-fA-F ] *)
  xdigit c || Ascii.eqb c " ".
Definition mnem_char (c : ascii) : bool :=               (* [a-z0-9\.] *)
  let n := Z.of_N (N_of_ascii c) in
  ((97 <=? n) && (n <=? 122)) || ((48 <=? n) && (n <=? 57)) || (n =? 46).
Definition not_gt (c : ascii) : bool :=                  (* [^>] *)
  negb (Ascii.eqb c ">").
Definition dot (c : ascii) : bool :=                     (* . *)
  negb (Ascii.eqb c "010").

(** Length of the longest prefix of [s] inside the class. *)
Fixpoint run_length (p : ascii → bool) (s : list ascii) : nat :=
  match s with
  | c :: r => if p c then S (run_length p r) else 0%nat
  | [] => 0%nat
  end.

(** Try [k n], then [k (n-1)], ..., down to [k lo]. *)
Fixpoint backtrack {R} (lo n : nat) (k : nat → option R) : option R :=
  match k n with
  | Some r => Some r
  | None =>
      match n with
      | O => None
      | S n' => if (n' <? lo)%nat then None else backtrack lo n' k
      end
  end.

Definition greedy {R} (lo : nat) (p : ascii → bool) (s : list ascii)
    (k : nat → option R) : option R :=
  let n := run_length p s in
  if (n <? lo)%nat then None else backtrack lo n k.

(** [run its pos rest opened groups]: match [its] against [rest], the text
    from offset [pos] on; [opened] are the offsets of the groups still open
    and [groups] the spans (start, end) of the closed ones, in order. *)
Fixpoint run (its : pattern) (pos : nat) (rest : list ascii)
    (opened : list nat) (groups : list (nat * nat))
    : option (list (nat * nat)) :=
  match its with
  | [] => Some groups
  | Bol :: its' =>
      if (pos =? 0)%nat then run its' pos rest opened groups else None
  | Eol :: its' =>
      match rest with
      | [] => run its' pos rest opened groups
      | [c] => if Ascii.eqb c "010" then run its' pos rest opened groups
               else None
      | _ => None
      end
  | Star p :: its' =>
      greedy 0 p rest
        (λ n, run its' (pos + n)%nat (drop n rest) opened groups)
  | Plus p :: its' =>
      greedy 1 p rest
        (λ n, run its' (pos + n)%nat (drop n rest) opened groups)
  | Lit s :: its' =>
      if Py.startswith s rest
      then run its' (pos + length s)%nat (drop (length s) rest) opened groups
      else None
  | Open :: its' => run its' pos rest (pos :: opened) groups
  | Close :: its' =>
      match opened with
      | b :: opened' => run its' pos rest opened' (groups ++ [(b, pos)])
      | [] => None
      end
  end.

(** [pat.match(line)]: the texts of the groups 1, 2, ... on success. *)
Definition rmatch (pat : pattern) (line : string)
    : option (list (list ascii)) :=
  let s := list_ascii_of_string line in
  match run pat 0 s [] [] with
  | Some gs => Some (map (λ '(b, e), take (e - b) (drop b s)) gs)
  | None => None
  end.

Definition matches (pat : pattern) (line : string) : bool :=
  match rmatch pat line with Some _ => true | None => false end.

End Re.

(** ** The disassembly scanner: [parse_objdump_for_final_reg_pc] *)

Definition tab : list ascii := ["009"%char].

(** [^\s*([0-9a-fA-F]+)\s+<{}>:] with [re.escape(label)] in the hole. *)
Definition label_re (label : string) : Re.pattern :=
  [Re.Bol; Re.Star Re.space; Re.Open; Re.Plus Re.xdigit; Re.Close;
   Re.Plus Re.space; Re.Lit (list_ascii_of_string "<");
   Re.Lit (list_ascii_of_string label); Re.Lit (list_ascii_of_string ">:")].

(** [^\s*[0-9a-fA-F]+\s+<[^>]+>:] *)
Definition next_label_re : Re.pattern :=
  [Re.Bol; Re.Star Re.space; Re.Plus Re.xdigit; Re.Plus Re.space;
   Re.Lit (list_ascii_of_string "<"); Re.Plus Re.not_gt;
   Re.Lit (list_ascii_of_string ">:")].

(** [^\s*([0-9a-fA-F]+):\s+[0-9a-fA-F ]+\s+\t([a-z0-9\.]+)\s+] followed by
    the third group, [.] starred, and [$]. *)
Definition insn_re : Re.pattern :=
  [Re.Bol; Re.Star Re.space; Re.Open; Re.Plus Re.xdigit; Re.Close;
   Re.Lit (list_ascii_of_string ":"); Re.Plus Re.space;
   Re.Plus Re.xdigit_or_blank; Re.Plus Re.space; Re.Lit tab;
   Re.Open; Re.Plus Re.mnem_char; Re.Close; Re.Plus Re.space;
   Re.Open; Re.Star Re.dot; Re.Close; Re.Eol].

Definition write_mnems : list string :=
  ["addi"; "add"; "sub"; "lui"; "ori"; "xori"; "andi";
   "slli"; "srli"; "srai"; "auipc"; "and"; "or"; "xor";
   "sll"; "srl"; "sra"; "slti"; "sltiu"; "slt"; "sltu";
   "jal"; "jalr"; "csrrw"; "csrrs"; "csrrc"; "csrrwi"; "csrrsi"; "csrrci";
   "li"]%string.

(** The tuple of [mnem not in (...)]. *)
Definition store_branch_mnems : list string :=
  ["sb"; "sh"; "sw"; "beq"; "bne"; "blt"; "bge"; "bltu"; "bgeu"]%string.

(** [abi_map.get(rd_num)] for [abi_map = {5:"t0",6:"t1",7:"t2",28:"t3"}]. *)
Definition abi_map (rd_num : Z) : option string :=
  if rd_num =? 5 then Some "t0"%string
  else if rd_num =? 6 then Some "t1"%string
  else if rd_num =? 7 then Some "t2"%string
  else if rd_num =? 28 then Some "t3"%string
  else None.

(** An instruction line as the scanner reads it off the three groups. *)
Record insn : Type := { i_pc : Z; i_mnem : string; i_ops : list string }.

(** [[o.strip() for o in ops_str.split(",") if o.strip()]] *)
Definition operands (ops_str : list ascii) : list string :=
  map string_of_list_ascii
    (List.filter (λ o, negb (Nat.eqb (length o) 0))
       (map Py.strip (Py.split "," ops_str))).

Definition parse_insn (line : string) : option insn :=
  match Re.rmatch insn_re line with
  | Some [g1; g2; g3] =>
      Some {| i_pc := Py.int16 g1;
              i_mnem := string_of_list_ascii g2;
              i_ops := operands g3 |}
  | _ => None
  end.

(** [ok_rd] *)
Definition ok_rd (rd_num : Z) (op0 : string) : bool :=
  String.eqb op0 ("x" ++ Py.str rd_num)
  || match abi_map rd_num with
     | Some a => String.eqb a op0
     | None => false
     end.

(** The three nested [if]s that guard [last_pc = pc]. *)
Definition candidate_write (rd_num : Z) (i : insn) : bool :=
  match i_ops i with
  | [] => false
  | op0 :: _ =>
      if ok_rd rd_num op0 && negb (Py.mem (i_mnem i) store_branch_mnems)
      then Py.mem (i_mnem i) write_mnems
           || Py.startswith (list_ascii_of_string "c.")
                (list_ascii_of_string (i_mnem i))
      else false
  end.

(** The pc a line assigns to [last_pc], if it assigns one. *)
Definition write_pc (rd_num : Z) (line : string) : option Z :=
  match parse_insn line with
  | Some i => if candidate_write rd_num i then Some (i_pc i) else None
  | None => None
  end.

(** The first loop: [start] is one past the first line matching the label. *)
Fixpoint find_start (label : string) (i : nat) (lines : list string)
    : option nat :=
  match lines with
  | [] => None
  | line :: rest =>
      if Re.matches (label_re label) line then Some (S i)
      else find_start label (S i) rest
  end.

(** The [while] loop, on the lines from index [i] on. *)
Fixpoint scan_block (rd_num : Z) (last_pc : option Z) (lines : list string)
    : option Z :=
  match lines with
  | [] => last_pc
  | line :: rest =>
      if Re.matches next_label_re line then last_pc
      else match write_pc rd_num line with
           | Some pc => scan_block rd_num (Some pc) rest
           | None => scan_block rd_num last_pc rest
           end
  end.

(** [objdump] is what the file holds ([f.readlines()]), or [None] when
    [os.path.exists(objdump_path)] is false. *)
Definition parse_objdump_for_final_reg_pc (objdump : option (list string))
    (label : string) (rd_num : Z) : option Z :=
  match objdump with
  | None => None
  | Some lines =>
      match find_start label 0 lines with
      | None => None
      | Some start => scan_block rd_num None (drop start lines)
      end
  end.

(** ** Events, expectations and errors *)

(** A [MEMW] entry of the log: [{"pc", "addr", "data", "mask"}]. *)
Record MemW : Type := { w_pc : Z; w_addr : Z; w_data : Z; w_mask : Z }.

(** A [REG] entry of the log: [{"pc", "rd", "val"}]. *)
Record RegW : Type := { r_pc : Z; r_rd : Z; r_val : Z }.

(** An entry of [EXP]; its ["pc"] is [None] when [syms.get] found nothing. *)
Record ExpEvent : Type :=
  { e_pc : option Z; e_addr : Z; e_data : Z; e_mask : Z }.

(** An entry of [REG_EXP]: [{"label", "rd", "val"}]. *)
Record RegCheck : Type := { x_label : string; x_rd : Z; x_val : Z }.

(** The messages appended to [errors], one constructor per format string. *)
Inductive error : Type :=
| SymbolNotFound (e : ExpEvent)
| MissingWrite (pc addr data mask : Z)
| OrderMismatch (i j : nat)
| SpuriousWrite (found : nat)
| UnexpectedTrapWrite
| LabelNotFound (label : string)
| MissingRegisterWrite (pc rd val : Z) (label : string).

(** The text of each message. *)
Definition render (err : error) : string :=
  match err with
  | SymbolNotFound e =>
      "Symbol PC not found for an expected event: {'pc': "
      ++ match e_pc e with Some p => Py.str p | None => "None" end
      ++ ", 'addr': " ++ Py.str (e_addr e)
      ++ ", 'data': " ++ Py.str (e_data e)
      ++ ", 'mask': " ++ Py.str (e_mask e) ++ "}"
  | MissingWrite pc addr data mask =>
      "Missing write pc=0x" ++ Py.hex pc ++ " addr=0x" ++ Py.hex addr
      ++ " data=0x" ++ Py.hex data ++ " mask=0x" ++ Py.hex mask
  | OrderMismatch i j =>
      "Order mismatch between event " ++ Py.str (Z.of_nat i)
      ++ " and " ++ Py.str (Z.of_nat j)
  | SpuriousWrite found =>
      "Unexpected extra write(s) to g_data0 (found "
      ++ Py.str (Z.of_nat found) ++ ")"
  | UnexpectedTrapWrite => "Unexpected MEMW at misaligned SW PC"
  | LabelNotFound label => "Objdump PC not found for label " ++ label
  | MissingRegisterWrite pc rd val label =>
      "Missing REG at exact pc=0x" ++ Py.hex pc ++ " x" ++ Py.str rd
      ++ " <= 0x" ++ Py.hex val ++ " (label " ++ label ++ ")"
  end%string.

(** Uncaught exceptions of [main]: a missing dictionary key. *)
Inductive exn : Type :=
| KeyError (key : string)
| KeyErrorInt (key : nat).

Inductive res (A : Type) : Type :=
| Ok (a : A)
| Raise (x : exn).
Arguments Ok {A} a.
Arguments Raise {A} x.

#[global] Instance res_ret : MRet res := λ A a, Ok a.
#[global] Instance res_bind : MBind res := λ A B f m,
  match m with
  | Ok a => f a
  | Raise x => Raise x
  end.

(** ** Stage 2: skew-tolerant matching (the loop over [enumerate(EXP)]) *)

(** The condition of the generator, for the expected pc [p] and offset. *)
Definition hit (p : Z) (e : ExpEvent) (off : Z) (w : MemW) : bool :=
  (w_pc w =? p + off) && (w_addr w =? e_addr e)
  && (w_mask w =? e_mask e) && (w_data w =? e_data e).

(** [next((i for i, w in enumerate(l) if f(w)), None)], counting from [i]. *)
Fixpoint next_index {A} (f : A → bool) (i : nat) (l : list A) : option nat :=
  match l with
  | [] => None
  | w :: l' => if f w then Some i else next_index f (S i) l'
  end.

Definition offsets : list Z := [0; 2; 4; 6; 8].

(** The loop [for off in (0, 2, 4, 6, 8)]: the [cand] at which it breaks,
    [None] when it runs to the end ([ok] is then still [None]). *)
Fixpoint try_offsets (got : list MemW) (p : Z) (e : ExpEvent)
    (offs : list Z) : option nat :=
  match offs with
  | [] => None
  | off :: offs' =>
      match next_index (hit p e off) 0 got with
      | Some cand => Some cand
      | None => try_offsets got p e offs'
      end
  end.

Fixpoint match_loop (got : list MemW) (idx : nat) (EXP : list ExpEvent)
    (errors : list error) (positions : gmap nat nat)
    : list error * gmap nat nat :=
  match EXP with
  | [] => (errors, positions)
  | e :: EXP' =>
      match e_pc e with
      | None =>
          match_loop got (S idx) EXP' (errors ++ [SymbolNotFound e]) positions
      | Some p =>
          match try_offsets got p e offsets with
          | Some cand =>
              match_loop got (S idx) EXP' errors (<[idx := cand]> positions)
          | None =>
              match_loop got (S idx) EXP'
                (errors ++ [MissingWrite p (e_addr e) (e_data e) (e_mask e)])
                positions
          end
      end
  end.

(** ** Stage 3: order check, [for i in range(len(EXP) - 1)] *)

Definition positions_at (positions : gmap nat nat) (i : nat) : res nat :=
  match positions !! i with
  | Some c => Ok c
  | None => Raise (KeyErrorInt i)
  end.

Fixpoint order_loop (positions : gmap nat nat) (range : list nat)
    (errors : list error) : res (list error) :=
  match range with
  | [] => Ok errors
  | i :: range' =>
      a ← positions_at positions i;
      b ← positions_at positions (i + 1)%nat;
      order_loop positions range'
        (if (b <=? a)%nat then errors ++ [OrderMismatch i (i + 1)%nat]
         else errors)
  end.

Definition order_check (EXP : list ExpEvent) (positions : gmap nat nat)
    (errors : list error) : res (list error) :=
  match errors with
  | [] => order_loop positions (seq 0 (length EXP - 1)) errors
  | _ => Ok errors
  end.

(** ** Stage 4: [g_data0] is written exactly once, with the expected value *)

Definition g0_check (g_data0 : Z) (got : list MemW) (errors : list error)
    : list error :=
  let writes_g0 := List.filter (λ w, w_addr w =? g_data0) got in
  if negb (length writes_g0 =? 1)%nat
     || negb (match writes_g0 with
              | w :: _ => (w_data w =? 0x12345678) && (w_mask w =? 0xF)
              | [] => false
              end)
  then errors ++ [SpuriousWrite (length writes_g0)]
  else errors.

(** ** Stage 5: no [MEMW] at the pc of the misaligned store *)

Definition misaligned_check (misaligned_sw : option Z) (got : list MemW)
    (errors : list error) : list error :=
  match misaligned_sw with
  | Some a =>
      if existsb (λ w, w_pc w =? a) got
      then errors ++ [UnexpectedTrapWrite]
      else errors
  | None => errors
  end.

(** Lines 189-222 of [main], for a given [EXP]. *)
Definition check_memw (EXP : list ExpEvent) (g_data0 : Z)
    (misaligned_sw : option Z) (got : list MemW) : res (list error) :=
  let '(errors, positions) := match_loop got 0 EXP [] ∅ in
  errors ← order_check EXP positions errors;
  let errors := g0_check g_data0 got errors in
  let errors := misaligned_check misaligned_sw got errors in
  mret errors.

(** ** Stage 6: exact register checks *)

Definition REG_EXP : list RegCheck :=
  [ {| x_label := "L_LI_T0"; x_rd := 5; x_val := 0x12345678 |};
    {| x_label := "L_LI_T1"; x_rd := 6; x_val := 0xABCDEF01 |};
    {| x_label := "L_LI_T2"; x_rd := 7; x_val := 0x11223344 |};
    {| x_label := "L_LI_T3"; x_rd := 28; x_val := 0x0 |};
    {| x_label := "L_LI_T0_1"; x_rd := 5; x_val := 0x1 |} ].

(** The first loop over [REG_EXP]: fills [final_pc_map]. *)
Fixpoint resolve_loop (objdump : option (list string)) (REG : list RegCheck)
    (errors : list error) (final_pc_map : gmap string Z)
    : list error * gmap string Z :=
  match REG with
  | [] => (errors, final_pc_map)
  | e :: REG' =>
      match parse_objdump_for_final_reg_pc objdump (x_label e) (x_rd e) with
      | None =>
          resolve_loop objdump REG' (errors ++ [LabelNotFound (x_label e)])
            final_pc_map
      | Some pc =>
          resolve_loop objdump REG' errors (<[x_label e := pc]> final_pc_map)
      end
  end.

(** The second loop over [REG_EXP]. *)
Fixpoint regcheck_loop (got_reg : list RegW) (final_pc_map : gmap string Z)
    (REG : list RegCheck) (errors : list error) : list error :=
  match REG with
  | [] => errors
  | e :: REG' =>
      match final_pc_map !! x_label e with
      | None => regcheck_loop got_reg final_pc_map REG' errors
      | Some pc_req =>
          if existsb (λ w, (r_pc w =? pc_req) && (r_rd w =? x_rd e)
                           && (r_val w =? x_val e)) got_reg
          then regcheck_loop got_reg final_pc_map REG' errors
          else regcheck_loop got_reg final_pc_map REG'
                 (errors ++ [MissingRegisterWrite pc_req (x_rd e) (x_val e)
                               (x_label e)])
      end
  end.

(** Lines 239-252 of [main], for a given [REG_EXP]. *)
Definition check_reg (objdump : option (list string)) (REG : list RegCheck)
    (got_reg : list RegW) (errors : list error) : list error :=
  let '(errors, final_pc_map) := resolve_loop objdump REG errors ∅ in
  regcheck_loop got_reg final_pc_map REG errors.

(** ** [main] *)

(** [syms[name]] *)
Definition sym (syms : gmap string Z) (name : string) : res Z :=
  match syms !! name with
  | Some a => Ok a
  | None => Raise (KeyError name)
  end.

(** [pcs[name]], for [name] one of the twelve keys of [pcs]: each holds
    [syms.get(name)]. *)
Definition pcs (syms : gmap string Z) (name : string) : option Z :=
  syms !! name.

Definition EXP_of (syms : gmap string Z) (tohost g_data0 g_data1 g_buf : Z)
    : list ExpEvent :=
  [ {| e_pc := pcs syms "L_SW_GDATA0"; e_addr := g_data0;
       e_data := 0x12345678; e_mask := 0xF |};
    {| e_pc := pcs syms "L_SW_GDATA1"; e_addr := g_data1;
       e_data := 0xABCDEF01; e_mask := 0xF |};
    {| e_pc := pcs syms "L_SW_GBUF"; e_addr := g_buf + 0;
       e_data := 0x11223344; e_mask := 0xF |};
    {| e_pc := pcs syms "L_SH_GBUF_P2"; e_addr := g_buf + 0;
       e_data := 0x33441122; e_mask := 0xC |};
    {| e_pc := pcs syms "L_SB_GBUF_P1"; e_addr := g_buf + 0;
       e_data := 0x22334411; e_mask := 0x2 |};
    {| e_pc := pcs syms "L_SW_TOHOST"; e_addr := tohost;
       e_data := 0x1; e_mask := 0xF |} ].

(** What a run of [main] depends on: whether the runner exists, the symbol
    table [parse_nm] returned, the runner's exit code, the two event streams
    parsed from its log, and the listing.  The result is the exit code with
    the errors printed under [FAIL:], or the uncaught exception. *)
Definition main (runner_exists : bool) (syms : gmap string Z) (rc : Z)
    (got : list MemW) (got_reg : list RegW) (objdump : option (list string))
    : res (Z * list error) :=
  if negb runner_exists then mret (2, [])
  else
    tohost ← sym syms "tohost";
    g_data0 ← sym syms "g_data0";
    g_data1 ← sym syms "g_data1";
    g_buf ← sym syms "g_buf";
    let EXP := EXP_of syms tohost g_data0 g_data1 g_buf in
    if negb (rc =? 0) then mret (rc, [])
    else
      errors ← check_memw EXP g_data0 (pcs syms "L_MISALIGNED_SW") got;
      match errors with
      | _ :: _ => mret (1, errors)
      | [] =>
          let errors := check_reg objdump REG_EXP got_reg errors in
          match errors with
          | _ :: _ => mret (1, errors)
          | [] => mret (0, [])
          end
      end.

(** ** The text front end: [parse_nm], [parse_memw], [parse_reg],
    [run_runner] *)

Module PyText.

(** [s.split()]: the maximal runs of characters that are not white space. *)
Fixpoint split_ws (s : list ascii) : list (list ascii) :=
  match s with
  | [] => []
  | c :: r =>
      if Py.is_space c then split_ws r
      else match r with
           | [] => [[c]]
           | c' :: _ =>
               if Py.is_space c' then [c] :: split_ws r
               else match split_ws r with
                    | t :: ts => (c :: t) :: ts
                    | [] => [[c]]
                    end
           end
  end.

(** The white space [int] skips at both ends of its argument: the ASCII
    one, and the space characters above 127. *)
Definition int_space (c : ascii) : bool :=
  let n := Z.of_N (N_of_ascii c) in
  ((9 <=? n) && (n <=? 13)) || (n =? 32) || (n =? 133) || (n =? 160).

Fixpoint lstrip_int (s : list ascii) : list ascii :=
  match s with
  | c :: r => if int_space c then lstrip_int r else s
  | [] => []
  end.

Definition strip_int (s : list ascii) : list ascii :=
  rev (lstrip_int (rev (lstrip_int s))).

(** Where the scan of the digits stands: nothing read yet, a digit read
    last, or an underscore read last. *)
Inductive dstate : Type := Start | Digit | Under.

(** Digits in base 16, single underscores allowed between two digits. *)
Fixpoint digits16 (st : dstate) (acc : Z) (s : list ascii) : option Z :=
  match s with
  | [] => match st with Digit => Some acc | _ => None end
  | c :: r =>
      if Ascii.eqb c "_" then
        match st with Digit => digits16 Under acc r | _ => None end
      else
        match Py.hex_digit c with
        | Some d => digits16 Digit (16 * acc + d) r
        | None => None
        end
  end.

(** [int(s, 16)]; [None] is its [ValueError]. An optional sign, an optional
    [0x] or [0X] that one underscore may follow, then the digits. *)
Definition int16_full (s : list ascii) : option Z :=
  let s := strip_int s in
  let '(neg, s) :=
    match s with
    | c :: r => if Ascii.eqb c "-" then (true, r)
                else if Ascii.eqb c "+" then (false, r)
                else (false, s)
    | [] => (false, s)
    end in
  let s :=
    match s with
    | z :: x :: r =>
        if Ascii.eqb z "0" && (Ascii.eqb x "x" || Ascii.eqb x "X")
        then match r with
             | u :: r' => if Ascii.eqb u "_" then r' else r
             | [] => r
             end
        else s
    | _ => s
    end in
  match digits16 Start 0 s with
  | Some v => Some (if neg then - v else v)
  | None => None
  end.

(** [hex(n)] *)
Definition hex_repr (n : Z) : string :=
  ((if (n <? 0)%Z then "-0x" else "0x") ++ Py.hex (Z.abs n))%string.

(** [int(s, 10)] for [s] a non-empty string of the digits 0 to 9: the only
    arguments [parse_reg] passes, its group 2 being [[0-9]+]. *)
Definition int10 (s : list ascii) : Z :=
  fold_left (λ acc c, 10 * acc + (Z.of_N (N_of_ascii c) - 48)) s 0.

(** [[0-9]] *)
Definition digit (c : ascii) : bool :=
  let n := Z.of_N (N_of_ascii c) in (48 <=? n) && (n <=? 57).

(** Digits in base 10, single underscores allowed between two digits. *)
Fixpoint digits10 (st : dstate) (acc : Z) (s : list ascii) : option Z :=
  match s with
  | [] => match st with Digit => Some acc | _ => None end
  | c :: r =>
      if Ascii.eqb c "_" then
        match st with Digit => digits10 Under acc r | _ => None end
      else if digit c then
        digits10 Digit (10 * acc + (Z.of_N (N_of_ascii c) - 48)) r
      else None
  end.

(** [sys.get_int_max_str_digits()], as Python sets it by default since
    version 3.11. *)
Definition max_str_digits : nat := 4300.

(** [int(s, 10)]; [None] is its [ValueError]: an optional sign, then the
    digits, of which there may be no more than [max_str_digits]. *)
Definition int10_full (s : list ascii) : option Z :=
  let s := strip_int s in
  let '(neg, s) :=
    match s with
    | c :: r => if Ascii.eqb c "-" then (true, r)
                else if Ascii.eqb c "+" then (false, r)
                else (false, s)
    | [] => (false, s)
    end in
  match digits10 Start 0 s with
  | Some v =>
      if (max_str_digits <? length (List.filter digit s))%nat then None
      else Some (if neg then - v else v)
  | None => None
  end.

End PyText.

(** One iteration of the loop of [parse_nm]: the entry the line adds to
    [syms], if it adds one. *)
Definition nm_entry (line : string) : option (string * Z) :=
  match PyText.split_ws (Py.strip (list_ascii_of_string line)) with
  | addr_hex :: typ :: name :: _ =>
      match PyText.int16_full addr_hex with
      | Some addr => Some (string_of_list_ascii name, addr)
      | None => None
      end
  | _ => None
  end.

Fixpoint parse_nm_loop (lines : list string) (syms : gmap string Z)
    : gmap string Z :=
  match lines with
  | [] => syms
  | line :: lines' =>
      parse_nm_loop lines'
        match nm_entry line with
        | Some (name, addr) => <[name := addr]> syms
        | None => syms
        end
  end.

(** [parse_nm], on the lines of the file. *)
Definition parse_nm (lines : list string) : gmap string Z :=
  parse_nm_loop lines ∅.

(** The pattern of [parse_memw]: the tag [MEMW] in square brackets, then
    [\s+pc=0x([0-9a-fA-F]+)\s+addr=0x([0-9a-fA-F]+)\s+data=0x([0-9a-fA-F]+)]
    and [\s+mask=0x([0-9a-fA-F]+)], anchored at the start only. *)
Definition memw_re : Re.pattern :=
  [Re.Bol; Re.Lit (list_ascii_of_string "[MEMW]");
   Re.Plus Re.space; Re.Lit (list_ascii_of_string "pc=0x");
   Re.Open; Re.Plus Re.xdigit; Re.Close;
   Re.Plus Re.space; Re.Lit (list_ascii_of_string "addr=0x");
   Re.Open; Re.Plus Re.xdigit; Re.Close;
   Re.Plus Re.space; Re.Lit (list_ascii_of_string "data=0x");
   Re.Open; Re.Plus Re.xdigit; Re.Close;
   Re.Plus Re.space; Re.Lit (list_ascii_of_string "mask=0x");
   Re.Open; Re.Plus Re.xdigit; Re.Close].

(** The pattern of [parse_reg]: the tag [REG] in square brackets, then
    [\s+pc=0x([0-9a-fA-F]+)\s+x([0-9]+)\s+<=\s+0x([0-9a-fA-F]+)]. *)
Definition reg_re : Re.pattern :=
  [Re.Bol; Re.Lit (list_ascii_of_string "[REG]");
   Re.Plus Re.space; Re.Lit (list_ascii_of_string "pc=0x");
   Re.Open; Re.Plus Re.xdigit; Re.Close;
   Re.Plus Re.space; Re.Lit (list_ascii_of_string "x");
   Re.Open; Re.Plus PyText.digit; Re.Close;
   Re.Plus Re.space; Re.Lit (list_ascii_of_string "<=");
   Re.Plus Re.space; Re.Lit (list_ascii_of_string "0x");
   Re.Open; Re.Plus Re.xdigit; Re.Close].

(** [pat.match(line.strip())] *)
Definition match_stripped (pat : Re.pattern) (line : string)
    : option (list (list ascii)) :=
  Re.rmatch pat
    (string_of_list_ascii (Py.strip (list_ascii_of_string line))).

(** The event a line of the log appends to [memw], if it appends one. *)
Definition memw_of_line (line : string) : option MemW :=
  match match_stripped memw_re line with
  | Some [g1; g2; g3; g4] =>
      Some {| w_pc := Py.int16 g1; w_addr := Py.int16 g2;
              w_data := Py.int16 g3; w_mask := Py.int16 g4 |}
  | _ => None
  end.

Fixpoint parse_memw_loop (lines : list string) (memw : list MemW)
    : list MemW :=
  match lines with
  | [] => memw
  | line :: lines' =>
      parse_memw_loop lines'
        match memw_of_line line with
        | Some w => memw ++ [w]
        | None => memw
        end
  end.

Definition parse_memw (lines : list string) : list MemW :=
  parse_memw_loop lines [].

(** The event a line of the log appends to [regs], if it appends one. *)
Definition reg_of_line (line : string) : option RegW :=
  match match_stripped reg_re line with
  | Some [g1; g2; g3] =>
      Some {| r_pc := Py.int16 g1; r_rd := PyText.int10 g2;
              r_val := Py.int16 g3 |}
  | _ => None
  end.

Fixpoint parse_reg_loop (lines : list string) (regs : list RegW)
    : list RegW :=
  match lines with
  | [] => regs
  | line :: lines' =>
      parse_reg_loop lines'
        match reg_of_line line with
        | Some w => regs ++ [w]
        | None => regs
        end
  end.

Definition parse_reg (lines : list string) : list RegW :=
  parse_reg_loop lines [].

(** One iteration of the loop of [parse_memw] with the [ValueError] of
    [int]: [None] when it is raised, [Some None] when the line yields no
    event. *)
Definition memw_of_line_checked (line : string) : option (option MemW) :=
  match match_stripped memw_re line with
  | Some [g1; g2; g3; g4] =>
      match PyText.int16_full g1, PyText.int16_full g2,
            PyText.int16_full g3, PyText.int16_full g4 with
      | Some pc, Some addr, Some data, Some mask =>
          Some (Some {| w_pc := pc; w_addr := addr; w_data := data;
                        w_mask := mask |})
      | _, _, _, _ => None
      end
  | _ => Some None
  end.

Fixpoint parse_memw_checked_loop (lines : list string) (memw : list MemW)
    : option (list MemW) :=
  match lines with
  | [] => Some memw
  | line :: lines' =>
      match memw_of_line_checked line with
      | Some (Some w) => parse_memw_checked_loop lines' (memw ++ [w])
      | Some None => parse_memw_checked_loop lines' memw
      | None => None
      end
  end.

(** [parse_memw] with the [ValueError] of [int]: [None] when it is
    raised. *)
Definition parse_memw_checked (lines : list string) : option (list MemW) :=
  parse_memw_checked_loop lines [].

(** One iteration of the loop of [parse_reg] with the [ValueError] of
    [int]. *)
Definition reg_of_line_checked (line : string) : option (option RegW) :=
  match match_stripped reg_re line with
  | Some [g1; g2; g3] =>
      match PyText.int16_full g1, PyText.int10_full g2,
            PyText.int16_full g3 with
      | Some pc, Some rd, Some val =>
          Some (Some {| r_pc := pc; r_rd := rd; r_val := val |})
      | _, _, _ => None
      end
  | _ => Some None
  end.

Fixpoint parse_reg_checked_loop (lines : list string) (regs : list RegW)
    : option (list RegW) :=
  match lines with
  | [] => Some regs
  | line :: lines' =>
      match reg_of_line_checked line with
      | Some (Some w) => parse_reg_checked_loop lines' (regs ++ [w])
      | Some None => parse_reg_checked_loop lines' regs
      | None => None
      end
  end.

(** [parse_reg] with the [ValueError] of [int]: [None] when it is raised. *)
Definition parse_reg_checked (lines : list string) : option (list RegW) :=
  parse_reg_checked_loop lines [].

(** The command line [run_runner] builds. *)
Definition runner_cmd (runner elf : string) (tohost max_cycles : Z)
    (log_flags log_file : string) : list string :=
  [runner; elf; "--tohost"; PyText.hex_repr tohost; "--max-cycles";
   Py.str max_cycles; "--log"; log_flags; "--log-file"; log_file]%string.

(** [main] on the text it reads: the lines of the symbol file, the exit
    code of the runner, the lines of its log and the listing. *)
Definition main_text (runner_exists : bool) (nm_lines : list string)
    (rc : Z) (log_lines : list string) (objdump : option (list string))
    : res (Z * list error) :=
  main runner_exists (parse_nm nm_lines) rc (parse_memw log_lines)
    (parse_reg log_lines) objdump.

(** ** Vocabulary of the specification *)

(** The observed event [w] is the expected event [e], [off] units after the
    expected pc [p]. *)
Definition matches_at (p : Z) (e : ExpEvent) (off : Z) (w : MemW) : Prop :=
  w_pc w = p + off ∧ w_addr w = e_addr e
  ∧ w_data w = e_data e ∧ w_mask w = e_mask e.

(** [k] is the first index of [got] that matches at the lowest offset of the
    tolerance set at which anything matches. *)
Definition selects (got : list MemW) (p : Z) (e : ExpEvent) (k : nat) : Prop :=
  ∃ off w,
    off ∈ [0; 2; 4; 6; 8] ∧ got !! k = Some w ∧ matches_at p e off w
    ∧ (∀ j w', (j < k)%nat → got !! j = Some w' → ¬ matches_at p e off w')
    ∧ (∀ off' w', off' ∈ [0; 2; 4; 6; 8] → off' < off → w' ∈ got →
         ¬ matches_at p e off' w').

(** The position stage 2 records for an expected event, and the error it
    appends for it: both depend on the event and the trace only. *)
Definition matched (got : list MemW) (e : ExpEvent) : option nat :=
  match e_pc e with
  | Some p => try_offsets got p e offsets
  | None => None
  end.

Definition match_error (got : list MemW) (e : ExpEvent) : list error :=
  match e_pc e with
  | None => [SymbolNotFound e]
  | Some p =>
      match try_offsets got p e offsets with
      | Some _ => []
      | None => [MissingWrite p (e_addr e) (e_data e) (e_mask e)]
      end
  end.

Definition is_order_mismatch (err : error) : bool :=
  match err with OrderMismatch _ _ => true | _ => false end.

(** The errors each stage contributes, as functions of the inputs of the
    run: [main] appends them to [errors] in this order. *)
Definition match_errors (got : list MemW) (EXP : list ExpEvent)
    : list error :=
  EXP ≫= match_error got.

Definition order_error (got : list MemW) (EXP : list ExpEvent) (i : nat)
    : list error :=
  match EXP !! i ≫= matched got, EXP !! S i ≫= matched got with
  | Some a, Some b =>
      if (b <=? a)%nat then [OrderMismatch i (S i)] else []
  | _, _ => []
  end.

Definition order_errors (got : list MemW) (EXP : list ExpEvent)
    : list error :=
  match match_errors got EXP with
  | [] => seq 0 (length EXP - 1) ≫= order_error got EXP
  | _ :: _ => []
  end.

Definition g0_errors (g_data0 : Z) (got : list MemW) : list error :=
  g0_check g_data0 got [].

Definition misaligned_errors (misaligned_sw : option Z) (got : list MemW)
    : list error :=
  misaligned_check misaligned_sw got [].

(** Everything stages 1 to 5 report, once the four data symbols resolved. *)
Definition stage1_5_errors (syms : gmap string Z)
    (tohost g_data0 g_data1 g_buf : Z) (got : list MemW) : list error :=
  let EXP := EXP_of syms tohost g_data0 g_data1 g_buf in
  match_errors got EXP ++ order_errors got EXP
  ++ g0_errors g_data0 got
  ++ misaligned_errors (pcs syms "L_MISALIGNED_SW") got.

Definition is_symbol_not_found (err : error) : bool :=
  match err with SymbolNotFound _ => true | _ => false end.

Definition is_spurious_write (err : error) : bool :=
  match err with SpuriousWrite _ => true | _ => false end.

Definition is_unexpected_trap_write (err : error) : bool :=
  match err with UnexpectedTrapWrite => true | _ => false end.

(** The errors of stage 6. *)
Definition is_stage6 (err : error) : bool :=
  match err with
  | LabelNotFound _ | MissingRegisterWrite _ _ _ _ => true
  | _ => false
  end.

(** The trace writes [g_data0] exactly once, and with the expected data and
    mask. *)
Definition written_once (g_data0 : Z) (got : list MemW) : Prop :=
  ∃ i w, got !! i = Some w ∧ w_addr w = g_data0
         ∧ w_data w = 0x12345678 ∧ w_mask w = 0xF
         ∧ ∀ j w', got !! j = Some w' → w_addr w' = g_data0 → j = i.

Definition unresolved (e : ExpEvent) : bool :=
  match e_pc e with None => true | Some _ => false end.

(** The symbols [main] reads with [syms[...]], and the labels whose
    [syms.get(...)] is never read again or only behind a guard. *)
Definition data_symbols : list string :=
  ["tohost"; "g_data0"; "g_data1"; "g_buf"]%string.

Definition li_labels : list string :=
  ["L_LI_T0_1"; "L_LI_T0"; "L_LI_T1"; "L_LI_T2"; "L_LI_T3"]%string.

(** What the two loops of stage 6 append for one entry of [REG_EXP]. *)
Definition resolve_error (objdump : option (list string)) (e : RegCheck)
    : list error :=
  match parse_objdump_for_final_reg_pc objdump (x_label e) (x_rd e) with
  | None => [LabelNotFound (x_label e)]
  | Some _ => []
  end.

Definition reg_error (got_reg : list RegW) (final_pc_map : gmap string Z)
    (e : RegCheck) : list error :=
  match final_pc_map !! x_label e with
  | None => []
  | Some pc_req =>
      if existsb (λ w, (r_pc w =? pc_req) && (r_rd w =? x_rd e)
                       && (r_val w =? x_val e)) got_reg
      then []
      else [MissingRegisterWrite pc_req (x_rd e) (x_val e) (x_label e)]
  end.

(** [s] is the index of the first line of the listing that introduces
    [label]. *)
Definition first_label (label : string) (lines : list string) (s : nat)
    : Prop :=
  (∃ line, lines !! s = Some line
           ∧ Re.matches (label_re label) line = true)
  ∧ ∀ j line, (j < s)%nat → lines !! j = Some line →
              Re.matches (label_re label) line = false.

(** No line of [lines] up to index [i] starts a labelled block. *)
Definition before_header (lines : list string) (i : nat) : Prop :=
  ∀ m line, (m ≤ i)%nat → lines !! m = Some line →
            Re.matches next_label_re line = false.

(** Line [i] lies in the block of [label]: after the line that introduces
    the label, with no line starting a labelled block in between or at
    [i]. *)
Definition in_block (label : string) (lines : list string) (i : nat)
    : Prop :=
  ∃ s, first_label label lines s ∧ (s < i)%nat
       ∧ ∀ m line, (s < m ≤ i)%nat → lines !! m = Some line →
                   Re.matches next_label_re line = false.

(** The candidate write and the last write of a block, in the words of
    the specification of the scanner, apart from the conditions of the
    code. *)
Module Spec.

(** The fixed alias table: the four ABI names of the test corpus. *)
Definition alias_table : list (Z * string) :=
  [(5, "t0"); (6, "t1"); (7, "t2"); (28, "t3")]%string.

(** The operand denotes the register: by its plain numeric name, [x] and
    the index in decimal, or by its alias. *)
Definition denotes (registerIndex : Z) (operand : string) : Prop :=
  operand
  = ("x" ++ DecimalString.NilZero.string_of_int (Z.to_int registerIndex))%string
  ∨ (registerIndex, operand) ∈ alias_table.

(** The store and conditional-branch mnemonics. *)
Definition store_or_branch : list string :=
  ["sb"; "sh"; "sw"; "beq"; "bne"; "blt"; "bge"; "bltu"; "bgeu"]%string.

(** The allow-list of register-producing operations: arithmetic, logical,
    shift, compare, load-immediate expansions, jump-and-link forms and the
    control/status-register forms. *)
Definition allow_list : list string :=
  ["add"; "addi"; "sub"; "lui"; "auipc"; "li";
   "and"; "andi"; "or"; "ori"; "xor"; "xori";
   "sll"; "slli"; "srl"; "srli"; "sra"; "srai";
   "slt"; "slti"; "sltu"; "sltiu";
   "jal"; "jalr";
   "csrrw"; "csrrs"; "csrrc"; "csrrwi"; "csrrsi"; "csrrci"]%string.

(** A compressed-encoding variant of an allowed operation: its mnemonic
    with the prefix [c.]. *)
Definition compressed_allowed (mnemonic : string) : Prop :=
  ∃ op, op ∈ allow_list ∧ mnemonic = ("c." ++ op)%string.

(** An instruction is a candidate write to the register. *)
Definition candidate (registerIndex : Z) (i : insn) : Prop :=
  ∃ op0 ops,
    i_ops i = op0 :: ops ∧ denotes registerIndex op0
    ∧ (i_mnem i ∉ store_or_branch)
    ∧ (i_mnem i ∈ allow_list ∨ compressed_allowed (i_mnem i)).

(** The line is an instruction line, and a candidate write at [pc]. *)
Definition candidate_line (registerIndex : Z) (line : string) (pc : Z)
    : Prop :=
  ∃ i, parse_insn line = Some i ∧ candidate registerIndex i ∧ i_pc i = pc.

(** [pc] is that of the candidate of the block of [label] with the largest
    line position. *)
Definition last_write (lines : list string) (label : string)
    (registerIndex : Z) (pc : Z) : Prop :=
  ∃ n line,
    in_block label lines n ∧ lines !! n = Some line
    ∧ candidate_line registerIndex line pc
    ∧ ∀ m line' pc', (n < m)%nat → in_block label lines m →
                     lines !! m = Some line' →
                     ¬ candidate_line registerIndex line' pc'.

(** The block of [label] holds no candidate. *)
Definition no_write (lines : list string) (label : string)
    (registerIndex : Z) : Prop :=
  ∀ n line pc, in_block label lines n → lines !! n = Some line →
               ¬ candidate_line registerIndex line pc.

(** Every instruction of the block of [label] whose first operand denotes
    the register and whose mnemonic starts with [c.] is the compressed
    variant of an allowed operation. *)
Definition compressed_are_allowed (lines : list string) (label : string)
    (registerIndex : Z) : Prop :=
  ∀ n line i op0 ops,
    in_block label lines n → lines !! n = Some line →
    parse_insn line = Some i → i_ops i = op0 :: ops →
    denotes registerIndex op0 →
    Py.startswith (list_ascii_of_string "c.")
      (list_ascii_of_string (i_mnem i)) = true →
    compressed_allowed (i_mnem i).

End Spec.

(** A non-empty run of white space; a non-empty string of hexadecimal
    digits; a non-empty string of decimal digits. *)
Definition blank (ws : list ascii) : Prop :=
  ws ≠ [] ∧ forallb Py.is_space ws = true.

Definition numeral16 (h : list ascii) : Prop :=
  h ≠ [] ∧ forallb Re.xdigit h = true.

Definition numeral10 (d : list ascii) : Prop :=
  d ≠ [] ∧ forallb PyText.digit d = true.

(** The text of a memory-write line of the log, as the comment of
    [parse_memw] shows it, with any white space between the fields. *)
Definition memw_text (ws1 hpc ws2 haddr ws3 hdata ws4 hmask : list ascii)
    : list ascii :=
  list_ascii_of_string "[MEMW]" ++ ws1
  ++ list_ascii_of_string "pc=0x" ++ hpc ++ ws2
  ++ list_ascii_of_string "addr=0x" ++ haddr ++ ws3
  ++ list_ascii_of_string "data=0x" ++ hdata ++ ws4
  ++ list_ascii_of_string "mask=0x" ++ hmask.

(** The text of a register-write line of the log, as the comment of
    [parse_reg] shows it. *)
Definition reg_text (ws1 hpc ws2 drd ws3 ws4 hval : list ascii)
    : list ascii :=
  list_ascii_of_string "[REG]" ++ ws1
  ++ list_ascii_of_string "pc=0x" ++ hpc ++ ws2
  ++ list_ascii_of_string "x" ++ drd ++ ws3
  ++ list_ascii_of_string "<=" ++ ws4
  ++ list_ascii_of_string "0x" ++ hval.

(** The text of a header line of the listing: white space, an address,
    white space, the label between [<] and [>:], and the rest of the
    line. *)
Definition header_text (ws h ws' label rest : list ascii) : list ascii :=
  ws ++ h ++ ws' ++ list_ascii_of_string "<" ++ label
  ++ list_ascii_of_string ">:" ++ rest.

(** The text of an instruction line of the listing: white space, the
    address, a colon, white space, the encoding and its padding ([raw]), a
    space and a tab, the mnemonic, white space, the operands, and the end
    of the line. *)
Definition insn_text (ws0 h ws1 raw mnem ws2 ops nl : list ascii)
    : list ascii :=
  ws0 ++ h ++ list_ascii_of_string ":" ++ ws1 ++ raw
  ++ list_ascii_of_string " " ++ tab ++ mnem ++ ws2 ++ ops ++ nl.

(** ** Sample inputs *)

Module Sample.

Definition mw (pc addr data mask : Z) : MemW :=
  {| w_pc := pc; w_addr := addr; w_data := data; w_mask := mask |}.

Definition ev (pc : option Z) (addr data mask : Z) : ExpEvent :=
  {| e_pc := pc; e_addr := addr; e_data := data; e_mask := mask |}.

(** One store expected at [0x50]; the log has it at [0x54] first and at
    [0x52] next. *)
Definition skew_exp : list ExpEvent :=
  [ev (Some 0x50) 0x2000 0x12345678 0xF].
Definition skew_got : list MemW :=
  [mw 0x54 0x2000 0x12345678 0xF; mw 0x52 0x2000 0x12345678 0xF;
   mw 0x52 0x2000 0x12345678 0xF].

(** Four stores expected in program order; the log has the third before
    the second. *)
Definition order_exp : list ExpEvent :=
  [ev (Some 0x50) 0x2000 0x12345678 0xF; ev (Some 0x54) 0x2004 0xABCDEF01 0xF;
   ev (Some 0x58) 0x2008 0x11223344 0xF; ev (Some 0x70) 0x1000 0x1 0xF].
Definition order_got : list MemW :=
  [mw 0x50 0x2000 0x12345678 0xF; mw 0x58 0x2008 0x11223344 0xF;
   mw 0x54 0x2004 0xABCDEF01 0xF; mw 0x70 0x1000 0x1 0xF].

(** The same store expected twice, at pcs two units apart; the log has it
    once. *)
Definition twice_exp : list ExpEvent :=
  [ev (Some 0x50) 0x2000 0x12345678 0xF; ev (Some 0x4e) 0x2000 0x12345678 0xF].
Definition twice_got : list MemW :=
  [mw 0x40 0x3000 0x0 0xF; mw 0x52 0x2000 0x12345678 0xF].

Definition TAB : string := String "009" EmptyString.
Definition NL : string := String "010" EmptyString.

(** A label line and an instruction line as objdump prints them. *)
Definition hdr (a l : string) : string :=
  (a ++ " <" ++ l ++ ">:" ++ NL)%string.
Definition ins (a raw m ops : string) : string :=
  ("  " ++ a ++ ":" ++ TAB ++ raw ++ "          " ++ TAB ++ m ++ TAB ++ ops
   ++ NL)%string.

Definition listing : list string :=
  [ hdr "00000030" "L_LI_T0";
    ins "30" "123452b7" "lui" "t0,0x12345";
    ins "34" "67828293" "addi" "t0,t0,1656";
    hdr "00000038" "L_LI_T1";
    ins "38" "abcdf337" "lui" "t1,0xabcdf";
    ins "3c" "f0130313" "addi" "t1,t1,-255";
    hdr "00000040" "L_LI_T2";
    ins "40" "112233b7" "lui" "t2,0x11223";
    ins "44" "34438393" "addi" "t2,t2,836";
    hdr "00000048" "L_LI_T3";
    ins "48" "00000e13" "li" "t3,0";
    hdr "0000004c" "L_LI_T0_1";
    ins "4c" "00100293" "li" "t0,1" ]%string.

Definition rw (pc rd val : Z) : RegW :=
  {| r_pc := pc; r_rd := rd; r_val := val |}.

(** The register writes of a good run, but for [t1], whose final write is
    logged two units late. *)
Definition late_got_reg : list RegW :=
  [rw 0x30 5 0x12345000; rw 0x34 5 0x12345678; rw 0x38 6 0xABCDF000;
   rw 0x3e 6 0xABCDEF01; rw 0x40 7 0x11223000; rw 0x44 7 0x11223344;
   rw 0x48 28 0x0; rw 0x4c 5 0x1].

(** A symbol table with every symbol the checker looks up. *)
Definition syms : gmap string Z :=
  list_to_map
    [("tohost", 0x1000); ("g_data0", 0x2000); ("g_data1", 0x2004);
     ("g_buf", 0x2008); ("L_SW_GDATA0", 0x50); ("L_SW_GDATA1", 0x54);
     ("L_SW_GBUF", 0x58); ("L_SH_GBUF_P2", 0x5c); ("L_SB_GBUF_P1", 0x60);
     ("L_MISALIGNED_SW", 0x64); ("L_SW_TOHOST", 0x70);
     ("L_LI_T0", 0x30); ("L_LI_T1", 0x38); ("L_LI_T2", 0x40);
     ("L_LI_T3", 0x48); ("L_LI_T0_1", 0x4c)]%string.

(** The memory writes of a good run; the second one is logged two units
    after its label. *)
Definition good_got : list MemW :=
  [mw 0x50 0x2000 0x12345678 0xF; mw 0x56 0x2004 0xABCDEF01 0xF;
   mw 0x58 0x2008 0x11223344 0xF; mw 0x5c 0x2008 0x33441122 0xC;
   mw 0x60 0x2008 0x22334411 0x2; mw 0x70 0x1000 0x1 0xF].

Definition good_got_reg : list RegW :=
  [rw 0x30 5 0x12345000; rw 0x34 5 0x12345678; rw 0x38 6 0xABCDF000;
   rw 0x3c 6 0xABCDEF01; rw 0x40 7 0x11223000; rw 0x44 7 0x11223344;
   rw 0x48 28 0x0; rw 0x4c 5 0x1].

(** The good run, with [g_data0] written a second time, same data and
    mask, by the misaligned store. *)
Definition twice_g0_got : list MemW :=
  [mw 0x50 0x2000 0x12345678 0xF; mw 0x56 0x2004 0xABCDEF01 0xF;
   mw 0x58 0x2008 0x11223344 0xF; mw 0x5c 0x2008 0x33441122 0xC;
   mw 0x60 0x2008 0x22334411 0x2; mw 0x64 0x2000 0x12345678 0xF;
   mw 0x70 0x1000 0x1 0xF].

(** The good run, with the last store logged at the pc of the misaligned
    store. *)
Definition trap_got : list MemW :=
  [mw 0x50 0x2000 0x12345678 0xF; mw 0x56 0x2004 0xABCDEF01 0xF;
   mw 0x58 0x2008 0x11223344 0xF; mw 0x5c 0x2008 0x33441122 0xC;
   mw 0x64 0x2008 0x22334411 0x2; mw 0x70 0x1000 0x1 0xF].

(** Two writes of [g_data0] at the pc of the misaligned store, and nothing
    else. *)
Definition bad_got : list MemW :=
  [mw 0x64 0x2000 0x12345678 0xF; mw 0x64 0x2000 0x12345678 0xF].

(** The symbol table without two of the store labels. *)
Definition partial_syms : gmap string Z :=
  delete "L_SW_GBUF"%string (delete "L_SW_TOHOST"%string syms).

(** The block of [L_LI_T0] followed by a compressed store of [t0], as
    objdump prints it without aliases. *)
Definition store_listing : list string :=
  [ hdr "00000030" "L_LI_T0";
    ins "30" "123452b7" "lui" "t0,0x12345";
    ins "34" "67828293" "addi" "t0,t0,1656";
    ins "38" "c616" "c.swsp" "t0,12(sp)";
    hdr "0000003a" "L_LI_T1";
    ins "3a" "abcdf337" "lui" "t1,0xabcdf" ]%string.

(** The log of a good run, with the line of the trap the misaligned store
    takes, and a symbol file for the program. *)
Definition log : list string :=
  [ "[REG] pc=0x30 x5 <= 0x12345000";
    "[REG] pc=0x34 x5 <= 0x12345678";
    "[REG] pc=0x38 x6 <= 0xabcdf000";
    "[REG] pc=0x3c x6 <= 0xabcdef01";
    "[REG] pc=0x40 x7 <= 0x11223000";
    "[REG] pc=0x44 x7 <= 0x11223344";
    "[REG] pc=0x48 x28 <= 0x0";
    "[MEMW] pc=0x50 addr=0x2000 data=0x12345678 mask=0xf";
    "[MEMW] pc=0x56 addr=0x2004 data=0xabcdef01 mask=0xf";
    "[MEMW] pc=0x58 addr=0x2008 data=0x11223344 mask=0xf";
    "[MEMW] pc=0x5c addr=0x2008 data=0x33441122 mask=0xc";
    "[MEMW] pc=0x60 addr=0x2008 data=0x22334411 mask=0x2";
    "[TRAP] pc=0x64 cause=0x6 tval=0x2002";
    "[REG] pc=0x4c x5 <= 0x1";
    "[MEMW] pc=0x70 addr=0x1000 data=0x1 mask=0xf" ]%string.

Definition nm_lines : list string :=
  [ "00000030 t L_LI_T0"; "00000038 t L_LI_T1"; "00000040 t L_LI_T2";
    "00000048 t L_LI_T3"; "0000004c t L_LI_T0_1";
    "00000050 t L_SW_GDATA0"; "00000054 t L_SW_GDATA1";
    "00000058 t L_SW_GBUF"; "0000005c t L_SH_GBUF_P2";
    "00000060 t L_SB_GBUF_P1"; "00000064 t L_MISALIGNED_SW";
    "00000070 t L_SW_TOHOST"; "         U undefined_function";
    "00001000 D tohost"; "00002000 D g_data0"; "00002004 D g_data1";
    "00002008 D g_buf" ]%string.

End Sample.

(** ** The embedding at work *)

Example parse_insn_lui :
  parse_insn (Sample.ins "30" "123452b7" "lui" "t0,0x12345")
  = Some {| i_pc := 0x30; i_mnem := "lui"; i_ops := ["t0"; "0x12345"] |}.
Proof. vm_compute. reflexivity. Qed.

(** [insn_re] wants white space and then a tab after the raw bytes. *)
Example parse_insn_no_blank :
  parse_insn ("  38:" ++ Sample.TAB ++ "c616" ++ Sample.TAB ++ "c.swsp"
              ++ Sample.TAB ++ "t0,12(sp)" ++ Sample.NL)
  = None.
Proof. vm_compute. reflexivity. Qed.

Example label_line :
  Re.rmatch (label_re "L_LI_T0") (Sample.hdr "00000030" "L_LI_T0")
  = Some [list_ascii_of_string "00000030"]
  ∧ Re.matches (label_re "L_LI_T") (Sample.hdr "00000030" "L_LI_T0") = false
  ∧ Re.matches next_label_re (Sample.hdr "00000030" "L_LI_T0") = true
  ∧ Re.matches next_label_re (Sample.ins "30" "123452b7" "lui" "t0,0x12345")
    = false.
Proof. repeat split; vm_compute; reflexivity. Qed.

Example operands_stripped :
  operands (list_ascii_of_string " t0 , 12(sp),,") = ["t0"; "12(sp)"]%string.
Proof. vm_compute. reflexivity. Qed.

Example render_missing_write :
  render (MissingWrite 0x50 0x2000 0x12345678 0xF)
  = "Missing write pc=0x50 addr=0x2000 data=0x12345678 mask=0xf"%string.
Proof. vm_compute. reflexivity. Qed.

Example render_symbol_not_found :
  render (SymbolNotFound (Sample.ev None 0x2000 0x12345678 0xF))
  = ("Symbol PC not found for an expected event: "
     ++ "{'pc': None, 'addr': 8192, 'data': 305419896, 'mask': 15}")%string.
Proof. vm_compute. reflexivity. Qed.

Example render_order_mismatch :
  render (OrderMismatch 1 2) = "Order mismatch between event 1 and 2"%string.
Proof. vm_compute. reflexivity. Qed.

Example good_run_passes :
  main true Sample.syms 0 Sample.good_got Sample.good_got_reg
    (Some Sample.listing) = Ok (0, []).
Proof. vm_compute. reflexivity. Qed.

Example runner_missing :
  main false Sample.syms 0 Sample.good_got Sample.good_got_reg
    (Some Sample.listing) = Ok (2, []).
Proof. vm_compute. reflexivity. Qed.

Example runner_failed :
  main true Sample.syms 3 Sample.good_got Sample.good_got_reg
    (Some Sample.listing) = Ok (3, []).
Proof. vm_compute. reflexivity. Qed.

(** ** Stage 2: lemmas *)

Lemma hit_spec p e off w : hit p e off w = true ↔ matches_at p e off w.
Proof.
  unfold hit, matches_at.
  rewrite !andb_true_iff, !Z.eqb_eq. tauto.
Qed.

Lemma hit_false p e off w : hit p e off w = false ↔ ¬ matches_at p e off w.
Proof. rewrite <- hit_spec. destruct (hit p e off w); naive_solver. Qed.

Lemma next_index_Some {A} (f : A → bool) l i k :
  next_index f i l = Some k ↔
  ∃ j w, k = (i + j)%nat ∧ l !! j = Some w ∧ f w = true
         ∧ ∀ j' w', (j' < j)%nat → l !! j' = Some w' → f w' = false.
Proof.
  revert i. induction l as [|a l IH]; intros i; simpl.
  - split; [discriminate|]. intros (j & w & _ & H & _). destruct j; discriminate.
  - destruct (f a) eqn:Ha.
    + split.
      * intros [= <-]. exists 0%nat, a. repeat split; auto with lia.
      * intros (j & w & -> & Hj & Hw & Hmin). destruct j as [|j].
        { f_equal; lia. }
        specialize (Hmin 0%nat a ltac:(lia) eq_refl). congruence.
    + rewrite IH. split.
      * intros (j & w & -> & Hj & Hw & Hmin). exists (S j), w.
        repeat split; auto with lia.
        intros [|j'] w'; simpl; [intros _ [= <-]; done|].
        intros ? ?. apply (Hmin j'); [lia|done].
      * intros (j & w & -> & Hj & Hw & Hmin). destruct j as [|j].
        { simpl in Hj. congruence. }
        exists j, w. repeat split; auto with lia.
        intros j' w' ? ?. apply (Hmin (S j')); [lia|done].
Qed.

Lemma next_index_None {A} (f : A → bool) l i :
  next_index f i l = None ↔ ∀ w, w ∈ l → f w = false.
Proof.
  revert i. induction l as [|a l IH]; intros i; simpl.
  - split; [|done]. intros _ w Hw. by apply elem_of_nil in Hw.
  - destruct (f a) eqn:Ha.
    + split; [discriminate|]. intros H.
      specialize (H a (list_elem_of_here _ _)). congruence.
    + rewrite IH. split.
      * intros H w Hw. apply elem_of_cons in Hw as [->|Hw]; auto.
      * intros H w Hw. apply H. by apply list_elem_of_further.
Qed.

Lemma try_offsets_None got p e offs :
  try_offsets got p e offs = None ↔
  ∀ off w, off ∈ offs → w ∈ got → ¬ matches_at p e off w.
Proof.
  induction offs as [|o offs IH]; simpl.
  - split; [|done]. intros _ off w Hoff. by apply elem_of_nil in Hoff.
  - destruct (next_index (hit p e o) 0 got) as [c|] eqn:Hn.
    + split; [discriminate|]. intros H.
      apply next_index_Some in Hn as (j & w & _ & Hj & Hw & _).
      exfalso. apply (H o w); [apply list_elem_of_here| |by apply hit_spec].
      eapply list_elem_of_lookup_2; eauto.
    + rewrite IH. rewrite next_index_None in Hn. split.
      * intros H off w Hoff Hw. apply elem_of_cons in Hoff as [->|Hoff].
        -- apply hit_false; auto.
        -- eauto.
      * intros H off w Hoff Hw. apply H; [by apply list_elem_of_further|done].
Qed.

Lemma try_offsets_Some got p e offs k :
  try_offsets got p e offs = Some k ↔
  ∃ offs1 off offs2,
    offs = offs1 ++ off :: offs2
    ∧ next_index (hit p e off) 0 got = Some k
    ∧ ∀ off', off' ∈ offs1 → next_index (hit p e off') 0 got = None.
Proof.
  induction offs as [|o offs IH]; simpl.
  - split; [discriminate|]. intros (l1 & off & l2 & H & _).
    by destruct l1.
  - destruct (next_index (hit p e o) 0 got) as [c|] eqn:Hn.
    + split.
      * intros [= <-]. exists [], o, offs. repeat split; auto.
        intros off' H. by apply elem_of_nil in H.
      * intros (l1 & off & l2 & H & Hk & Hmin). destruct l1 as [|o' l1].
        { simpl in H. injection H as <- <-. congruence. }
        simpl in H. injection H as <- ->.
        specialize (Hmin o (list_elem_of_here _ _)). congruence.
    + rewrite IH. split.
      * intros (l1 & off & l2 & -> & Hk & Hmin). exists (o :: l1), off, l2.
        repeat split; auto.
        intros off' H. apply elem_of_cons in H as [->|H]; auto.
      * intros (l1 & off & l2 & H & Hk & Hmin). destruct l1 as [|o' l1].
        { simpl in H. injection H as <- <-. congruence. }
        simpl in H. injection H as <- ->. exists l1, off, l2.
        repeat split; auto.
        intros off' H. apply Hmin. by apply list_elem_of_further.
Qed.

Lemma offsets_split l1 off l2 :
  offsets = l1 ++ off :: l2 →
  off ∈ offsets ∧ ∀ off', off' ∈ offsets → off' < off → off' ∈ l1.
Proof.
  unfold offsets. intros H.
  do 6 (try (destruct l1 as [|? l1]; simplify_eq/=));
    (split; [set_solver|]); intros off' Hin Hlt;
    rewrite !elem_of_cons in Hin; rewrite ?elem_of_cons;
    destruct_or?; subst; try lia; auto 10.
Qed.

Lemma offsets_elem off :
  off ∈ offsets →
  ∃ l1 l2, offsets = l1 ++ off :: l2
           ∧ ∀ off', off' ∈ l1 → off' ∈ offsets ∧ off' < off.
Proof.
  unfold offsets. rewrite !elem_of_cons, elem_of_nil.
  intros [->|[->|[->|[->|[->|[]]]]]].
  - exists [], [2; 4; 6; 8]. split; [done|]. set_solver.
  - exists [0], [4; 6; 8]. split; [done|].
    intros o; rewrite !elem_of_cons, elem_of_nil; intros; destruct_or?;
      subst; (split; [set_solver|lia]) || done.
  - exists [0; 2], [6; 8]. split; [done|].
    intros o; rewrite !elem_of_cons, elem_of_nil; intros; destruct_or?;
      subst; (split; [set_solver|lia]) || done.
  - exists [0; 2; 4], [8]. split; [done|].
    intros o; rewrite !elem_of_cons, elem_of_nil; intros; destruct_or?;
      subst; (split; [set_solver|lia]) || done.
  - exists [0; 2; 4; 6], []. split; [done|].
    intros o; rewrite !elem_of_cons, elem_of_nil; intros; destruct_or?;
      subst; (split; [set_solver|lia]) || done.
Qed.

Lemma matched_selects got e p k :
  e_pc e = Some p → (matched got e = Some k ↔ selects got p e k).
Proof.
  intros Hp. unfold matched, selects. rewrite Hp, try_offsets_Some.
  change [0; 2; 4; 6; 8] with offsets. split.
  - intros (l1 & off & l2 & Hsplit & Hk & Hmin).
    apply offsets_split in Hsplit as [Hoff Hlow].
    apply next_index_Some in Hk as (j & w & -> & Hj & Hw & Hfirst).
    exists off, w. simpl. repeat split; auto; try by apply hit_spec in Hw as (?&?&?&?).
    + intros j' w' Hlt Hj'. apply hit_false. eauto.
    + intros off' w' Hoff' Hlt Hw'. apply hit_false.
      specialize (Hmin off' (Hlow off' Hoff' Hlt)).
      rewrite next_index_None in Hmin. auto.
  - intros (off & w & Hoff & Hk & Hw & Hfirst & Hlow).
    apply offsets_elem in Hoff as (l1 & l2 & Hsplit & Hl1).
    exists l1, off, l2. repeat split; auto.
    + apply next_index_Some. exists k, w. repeat split; auto.
      * by apply hit_spec.
      * intros j' w' Hlt Hj'. apply hit_false. eauto.
    + intros off' Hoff'. apply next_index_None. intros w' Hw'.
      apply hit_false. destruct (Hl1 off' Hoff'). eauto.
Qed.

Lemma matched_None got e p :
  e_pc e = Some p →
  (matched got e = None ↔
   ∀ off w, off ∈ offsets → w ∈ got → ¬ matches_at p e off w).
Proof. intros Hp. unfold matched. rewrite Hp. apply try_offsets_None. Qed.

Lemma matched_is_Some got e p :
  e_pc e = Some p →
  (is_Some (matched got e) ↔
   ∃ off w, off ∈ offsets ∧ w ∈ got ∧ matches_at p e off w).
Proof.
  intros Hp. rewrite <- not_eq_None_Some, (matched_None _ _ _ Hp). split.
  - intros H. destruct (matched got e) as [k|] eqn:Hk.
    + apply (matched_selects _ _ _ _ Hp) in Hk
        as (off & w & Hoff & Hw & Hm & _).
      exists off, w. repeat split; auto; try apply Hm.
      eapply list_elem_of_lookup_2; eauto.
    + exfalso. apply H. by apply matched_None.
  - intros (off & w & Hoff & Hw & Hm) Hno. by apply (Hno off w).
Qed.

Lemma match_loop_errors got EXP idx errors positions :
  (match_loop got idx EXP errors positions).1
  = errors ++ (EXP ≫= match_error got).
Proof.
  revert idx errors positions.
  induction EXP as [|e EXP IH]; intros idx errors positions;
    cbn [match_loop mbind list_bind].
  - by rewrite app_nil_r.
  - unfold match_error at 1.
    destruct (e_pc e) as [p|]; [destruct (try_offsets got p e offsets)|];
      rewrite IH; simpl; by rewrite <- ?app_assoc.
Qed.

Lemma match_loop_positions got EXP idx errors positions i :
  (match_loop got idx EXP errors positions).2 !! i
  = match (if decide (idx ≤ i)%nat
           then EXP !! (i - idx)%nat ≫= matched got else None) with
    | Some k => Some k
    | None => positions !! i
    end.
Proof.
  revert idx errors positions.
  induction EXP as [|e EXP IH]; intros idx errors positions;
    cbn [match_loop].
  - by case_decide.
  - assert (Hrec : ∀ errors' positions',
      positions' !! i = (if decide (i = idx)
                         then match matched got e with
                              | Some k => Some k
                              | None => positions !! i
                              end
                         else positions !! i) →
      (match_loop got (S idx) EXP errors' positions').2 !! i
      = match (if decide (idx ≤ i)%nat
               then (e :: EXP) !! (i - idx)%nat ≫= matched got
               else None) with
        | Some k => Some k
        | None => positions !! i
        end).
    { intros errors' positions' Hpos. rewrite IH, Hpos.
      repeat case_decide; try lia; try done.
      - subst. rewrite Nat.sub_diag. simpl.
        by destruct (matched got e).
      - replace (i - idx)%nat with (S (i - S idx)) by lia. done. }
    unfold matched in Hrec |- *.
    destruct (e_pc e) as [p|]; [destruct (try_offsets got p e offsets)|];
      apply Hrec; case_decide; subst;
      rewrite ?lookup_insert_eq, ?lookup_insert_ne by done; done.
Qed.

Lemma match_loop_positions_0 got EXP i :
  (match_loop got 0 EXP [] ∅).2 !! i = EXP !! i ≫= matched got.
Proof.
  rewrite match_loop_positions, lookup_empty, Nat.sub_0_r.
  case_decide; [|lia]. by destruct (EXP !! i ≫= matched got).
Qed.

Lemma MissingWrite_match_error got e p a d m :
  MissingWrite p a d m ∈ match_error got e
  ↔ e = {| e_pc := Some p; e_addr := a; e_data := d; e_mask := m |}
    ∧ matched got e = None.
Proof.
  unfold match_error, matched. destruct e as [[q|] a' d' m']; simpl.
  - case_match; rewrite ?elem_of_nil, ?list_elem_of_singleton;
      split; try done; try (intros [= -> -> -> ->]; done);
      intros [[= -> -> -> ->] ?]; done.
  - rewrite list_elem_of_singleton. split; [done|]. by intros [? _].
Qed.

Lemma missing_write_iff got EXP idx e p :
  EXP !! idx = Some e → e_pc e = Some p →
  matched got e = None
  ↔ MissingWrite p (e_addr e) (e_data e) (e_mask e) ∈ EXP ≫= match_error got.
Proof.
  intros Hidx Hp. rewrite list_elem_of_bind. split.
  - intros Hnone. exists e. split.
    + apply MissingWrite_match_error. split; [|done].
      destruct e; simpl in *; congruence.
    + eapply list_elem_of_lookup_2; eauto.
  - intros (e' & Herr & _).
    apply MissingWrite_match_error in Herr as [-> Hnone].
    destruct e; simpl in *; congruence.
Qed.

(** ** Stage 2: the claims *)

(** C1. For an expected memory write with a resolved pc, the matcher
    records a position if and only if some observed event has the expected
    addr, data and mask and its pc is the expected pc plus one of 0, 2, 4, 6,
    8; the position recorded is the first index matching at the lowest such
    offset; when the only events with that addr, data and mask sit at pc+1
    nothing is recorded; and nothing is recorded exactly when the error list
    holds the MissingWrite error carrying the expected pc, addr, data and
    mask. *)
Theorem skew_tolerant_matching (EXP : list ExpEvent) (got : list MemW)
    (idx : nat) (e : ExpEvent) (p : Z) :
  EXP !! idx = Some e →
  e_pc e = Some p →
  let errors := (match_loop got 0 EXP [] ∅).1 in
  let positions := (match_loop got 0 EXP [] ∅).2 in
  (is_Some (positions !! idx) ↔
     ∃ off w, off ∈ [0; 2; 4; 6; 8] ∧ w ∈ got ∧ matches_at p e off w)
  ∧ (∀ k, positions !! idx = Some k ↔ selects got p e k)
  ∧ ((∀ w, w ∈ got → w_addr w = e_addr e → w_data w = e_data e →
           w_mask w = e_mask e → w_pc w = p + 1) →
     positions !! idx = None)
  ∧ (positions !! idx = None ↔
     MissingWrite p (e_addr e) (e_data e) (e_mask e) ∈ errors).
Proof.
  intros Hidx Hp errors positions. subst errors positions.
  rewrite match_loop_errors, match_loop_positions_0, Hidx. simpl.
  split; [|split; [|split]].
  - by apply matched_is_Some.
  - intros k. by apply matched_selects.
  - intros Hplus1. apply (matched_None _ _ _ Hp). intros off w Hoff Hw Hm.
    destruct Hm as (Hpc & Ha & Hd & Hmask).
    specialize (Hplus1 w Hw Ha Hd Hmask). unfold offsets in Hoff.
    rewrite !elem_of_cons, elem_of_nil in Hoff. lia.
  - by apply (missing_write_iff _ _ idx).
Qed.

Lemma skew_tolerant_matching_witness :
  Sample.skew_exp !! 0%nat = Some (Sample.ev (Some 0x50) 0x2000 0x12345678 0xF)
  ∧ e_pc (Sample.ev (Some 0x50) 0x2000 0x12345678 0xF) = Some 0x50
  ∧ (match_loop Sample.skew_got 0 Sample.skew_exp [] ∅).2 !! 0%nat = Some 1%nat
  ∧ selects Sample.skew_got 0x50 (Sample.ev (Some 0x50) 0x2000 0x12345678 0xF) 1.
Proof.
  split; [reflexivity|]. split; [reflexivity|]. split; [reflexivity|].
  apply (skew_tolerant_matching Sample.skew_exp Sample.skew_got 0
           (Sample.ev (Some 0x50) 0x2000 0x12345678 0xF) 0x50);
    reflexivity.
Defined.

(** ** Stages 3 to 5: how [check_memw] accumulates errors *)

Lemma match_error_nil got e : match_error got e = [] ↔ is_Some (matched got e).
Proof.
  unfold match_error, matched.
  destruct (e_pc e) as [p|]; [destruct (try_offsets got p e offsets)|];
    split; try done; intros [? ?]; done.
Qed.

Lemma bind_nil {A B} (f : A → list B) (l : list A) :
  l ≫= f = [] ↔ ∀ x, x ∈ l → f x = [].
Proof.
  induction l as [|a l IH]; simpl.
  - split; [|done]. intros _ x Hx. by apply elem_of_nil in Hx.
  - rewrite app_nil, IH. split.
    + intros [Ha Hl] x Hx. apply elem_of_cons in Hx as [->|Hx]; auto.
    + intros H. split; [apply H; left|intros x Hx; apply H; by right].
Qed.

Lemma match_errors_nil got EXP :
  match_errors got EXP = [] ↔
  ∀ i, (i < length EXP)%nat → is_Some (EXP !! i ≫= matched got).
Proof.
  unfold match_errors. rewrite bind_nil. split.
  - intros H i Hi. apply lookup_lt_is_Some in Hi as [e He]. rewrite He.
    simpl. apply match_error_nil, H. by eapply list_elem_of_lookup_2.
  - intros H e He. apply list_elem_of_lookup_1 in He as [i Hi].
    specialize (H i (lookup_lt_Some _ _ _ Hi)). rewrite Hi in H.
    by apply match_error_nil.
Qed.

Lemma order_loop_eq got EXP range errors :
  (∀ i, i ∈ range → (S i < length EXP)%nat) →
  match_errors got EXP = [] →
  order_loop (match_loop got 0 EXP [] ∅).2 range errors
  = Ok (errors ++ (range ≫= order_error got EXP)).
Proof.
  intros Hrange Hnil. rewrite match_errors_nil in Hnil.
  revert errors. induction range as [|i range IH]; intros errors; simpl.
  - by rewrite app_nil_r.
  - unfold positions_at, order_error at 1.
    rewrite Nat.add_1_r, !match_loop_positions_0.
    destruct (Hnil i) as [a ->]; [specialize (Hrange i); set_solver by lia|].
    destruct (Hnil (S i)) as [b ->]; [apply Hrange; set_solver|].
    simpl. rewrite IH by (intros; apply Hrange; set_solver).
    destruct (b <=? a)%nat; simpl; by rewrite <- ?app_assoc.
Qed.

Lemma order_check_eq got EXP :
  order_check EXP (match_loop got 0 EXP [] ∅).2 (match_errors got EXP)
  = Ok (match_errors got EXP ++ order_errors got EXP).
Proof.
  unfold order_check, order_errors.
  destruct (match_errors got EXP) as [|err errs] eqn:Hm.
  - rewrite order_loop_eq; [done| |done].
    intros i Hi. apply elem_of_seq in Hi. lia.
  - by rewrite app_nil_r.
Qed.

Lemma g0_check_app g_data0 got errors :
  g0_check g_data0 got errors = errors ++ g0_errors g_data0 got.
Proof.
  unfold g0_errors, g0_check. case_match; [done|by rewrite app_nil_r].
Qed.

Lemma misaligned_check_app mis got errors :
  misaligned_check mis got errors = errors ++ misaligned_errors mis got.
Proof.
  unfold misaligned_errors, misaligned_check.
  repeat case_match; by rewrite ?app_nil_r.
Qed.

Lemma check_memw_eq EXP g_data0 mis got :
  check_memw EXP g_data0 mis got
  = Ok (match_errors got EXP ++ order_errors got EXP
        ++ g0_errors g_data0 got ++ misaligned_errors mis got).
Proof.
  unfold check_memw.
  pose proof (match_loop_errors got EXP 0 [] ∅) as Herr.
  pose proof (order_check_eq got EXP) as Hord.
  destruct (match_loop got 0 EXP [] ∅) as [errors positions].
  simpl in Herr, Hord. subst errors. fold (match_errors got EXP).
  rewrite Hord. simpl.
  by rewrite misaligned_check_app, g0_check_app, <- !app_assoc.
Qed.

(** Only stage 3 appends an OrderMismatch. *)
Lemma filter_mismatch_match_errors got EXP :
  List.filter is_order_mismatch (match_errors got EXP) = [].
Proof.
  unfold match_errors. induction EXP as [|e EXP IH]; [done|].
  rewrite bind_cons, List.filter_app, IH, app_nil_r.
  unfold match_error. by repeat case_match.
Qed.

Lemma filter_mismatch_bind got EXP range :
  List.filter is_order_mismatch (range ≫= order_error got EXP)
  = range ≫= order_error got EXP.
Proof.
  induction range as [|i range IH]; [done|].
  rewrite bind_cons, List.filter_app, IH. f_equal.
  unfold order_error. by repeat case_match.
Qed.

Lemma filter_mismatch_order_errors got EXP :
  List.filter is_order_mismatch (order_errors got EXP) = order_errors got EXP.
Proof.
  unfold order_errors. case_match; [apply filter_mismatch_bind|done].
Qed.

Lemma filter_mismatch_g0_errors g_data0 got :
  List.filter is_order_mismatch (g0_errors g_data0 got) = [].
Proof. unfold g0_errors, g0_check. by case_match. Qed.

Lemma filter_mismatch_misaligned_errors mis got :
  List.filter is_order_mismatch (misaligned_errors mis got) = [].
Proof. unfold misaligned_errors, misaligned_check. by repeat case_match. Qed.

Lemma filter_mismatch_memw got EXP g_data0 mis :
  List.filter is_order_mismatch
    (match_errors got EXP ++ order_errors got EXP
     ++ g0_errors g_data0 got ++ misaligned_errors mis got)
  = order_errors got EXP.
Proof.
  rewrite !List.filter_app, filter_mismatch_match_errors,
    filter_mismatch_order_errors, filter_mismatch_g0_errors,
    filter_mismatch_misaligned_errors.
  by rewrite app_nil_r.
Qed.

Lemma elem_of_filter_mismatch i j errors :
  OrderMismatch i j ∈ errors
  ↔ OrderMismatch i j ∈ List.filter is_order_mismatch errors.
Proof. rewrite !list_elem_of_In, List.filter_In. simpl. tauto. Qed.

Lemma elem_of_order_error got EXP i0 i j :
  OrderMismatch i j ∈ order_error got EXP i0
  ↔ i = i0 ∧ j = S i0
    ∧ ∃ a b, EXP !! i0 ≫= matched got = Some a
             ∧ EXP !! S i0 ≫= matched got = Some b ∧ (b ≤ a)%nat.
Proof.
  unfold order_error.
  destruct (EXP !! i0 ≫= matched got) as [a|];
    [destruct (EXP !! S i0 ≫= matched got) as [b|]|].
  - destruct (Nat.leb_spec b a).
    + rewrite list_elem_of_singleton. split.
      * intros [= -> ->]. eauto 10.
      * by intros (-> & -> & _).
    + rewrite elem_of_nil. split; [done|].
      intros (_ & _ & a' & b' & [= <-] & [= <-] & ?). lia.
  - rewrite elem_of_nil. split; [done|]. by intros (_ & _ & ? & ? & _ & ? & _).
  - rewrite elem_of_nil. split; [done|]. by intros (_ & _ & ? & ? & ? & _).
Qed.

Lemma elem_of_order_errors got EXP i j :
  match_errors got EXP = [] →
  OrderMismatch i j ∈ order_errors got EXP
  ↔ j = S i ∧ (S i < length EXP)%nat
    ∧ ∃ a b, EXP !! i ≫= matched got = Some a
             ∧ EXP !! S i ≫= matched got = Some b ∧ (b ≤ a)%nat.
Proof.
  intros Hnil. unfold order_errors. rewrite Hnil, list_elem_of_bind. split.
  - intros (i0 & Herr & Hi0). apply elem_of_order_error in Herr
      as (-> & -> & Hpos). apply elem_of_seq in Hi0. split; [done|].
    split; [lia|done].
  - intros (-> & Hlen & Hpos). exists i. split.
    + apply elem_of_order_error. auto.
    + apply elem_of_seq. lia.
Qed.

(** ** Stage 3: the claim *)

(** C2. The order check contributes nothing when the matching stage left
    an error; when it left none, an OrderMismatch naming (i, i+1) is reported
    exactly for the adjacent pairs of expected events whose recorded
    positions are not strictly increasing; so when only the pair (1, 2) is
    out of order, the event of E2 lying before that of E1, the report
    holds exactly one OrderMismatch, naming (1, 2). *)
Theorem order_check_adjacent_pairs (EXP : list ExpEvent) (g_data0 : Z)
    (mis : option Z) (got : list MemW) :
  let stage2 := (match_loop got 0 EXP [] ∅).1 in
  let positions := (match_loop got 0 EXP [] ∅).2 in
  ∃ errors,
    check_memw EXP g_data0 mis got = Ok errors
    ∧ (stage2 ≠ [] → ∀ i j, OrderMismatch i j ∉ errors)
    ∧ (stage2 = [] →
       (∀ i j, OrderMismatch i j ∈ errors ↔
               j = S i ∧ (S i < length EXP)%nat
               ∧ ∃ a b, positions !! i = Some a ∧ positions !! S i = Some b
                        ∧ (b ≤ a)%nat)
       ∧ ((∃ a b, positions !! 1%nat = Some a ∧ positions !! 2%nat = Some b
                  ∧ (b < a)%nat) →
          (∀ i a b, i ≠ 1%nat → positions !! i = Some a →
                    positions !! S i = Some b → (a < b)%nat) →
          List.filter is_order_mismatch errors = [OrderMismatch 1 2])).
Proof.
  intros stage2 positions. eexists. split; [apply check_memw_eq|].
  assert (Hstage2 : stage2 = match_errors got EXP).
  { unfold stage2. by rewrite match_loop_errors. }
  assert (Hpos : ∀ i, positions !! i = EXP !! i ≫= matched got).
  { intros i. apply match_loop_positions_0. }
  clearbody stage2 positions. subst stage2. split.
  - intros Hne i j Hin. apply elem_of_filter_mismatch in Hin.
    rewrite filter_mismatch_memw in Hin. unfold order_errors in Hin.
    destruct (match_errors got EXP); [done|]. by apply elem_of_nil in Hin.
  - intros Hnil. split.
    + intros i j. rewrite elem_of_filter_mismatch, filter_mismatch_memw,
        (elem_of_order_errors _ _ _ _ Hnil), !Hpos. done.
    + intros (a & b & Ha & Hb & Hlt) Hothers.
      rewrite filter_mismatch_memw. unfold order_errors. rewrite Hnil.
      assert (Hlen : (2 < length EXP)%nat).
      { rewrite Hpos in Hb. destruct (EXP !! 2%nat) eqn:H2; [|done].
        by eapply lookup_lt_Some. }
      destruct (length EXP - 1)%nat as [|[|n]] eqn:Hn; try lia.
      cbn [seq]. rewrite !bind_cons.
      assert (H0 : order_error got EXP 0 = []).
      { unfold order_error. rewrite <- !Hpos.
        destruct (positions !! 0%nat) as [a0|] eqn:Ha0; [|done].
        rewrite Ha. specialize (Hothers 0%nat a0 a ltac:(lia) Ha0 Ha).
        destruct (Nat.leb_spec a a0); [lia|done]. }
      assert (H1 : order_error got EXP 1 = [OrderMismatch 1 2]).
      { unfold order_error. rewrite <- !Hpos, Ha, Hb.
        destruct (Nat.leb_spec b a); [done|lia]. }
      assert (Hrest : seq 2 n ≫= order_error got EXP = []).
      { apply bind_nil. intros i Hi. apply elem_of_seq in Hi.
        unfold order_error. rewrite <- !Hpos.
        destruct (positions !! i) as [ai|] eqn:Hai; [|done].
        destruct (positions !! S i) as [bi|] eqn:Hbi; [|done].
        specialize (Hothers i ai bi ltac:(lia) Hai Hbi).
        destruct (Nat.leb_spec bi ai); [lia|done]. }
      by rewrite H0, H1, Hrest.
Qed.

Lemma order_check_adjacent_pairs_witness :
  ∃ errors,
    check_memw Sample.order_exp 0x2000 None Sample.order_got = Ok errors
    ∧ List.filter is_order_mismatch errors = [OrderMismatch 1 2].
Proof.
  destruct (order_check_adjacent_pairs Sample.order_exp 0x2000 None
              Sample.order_got) as (errors & Hrun & _ & Hord).
  exists errors. split; [exact Hrun|].
  apply Hord; [reflexivity| |].
  - exists 2%nat, 1%nat. repeat split. lia.
  - intros i a b Hi. rewrite !match_loop_positions_0.
    destruct i as [|[|[|[|i]]]]; intros Ha Hb; vm_compute in Ha, Hb;
      simplify_eq; lia.
Defined.

(** ** Stage 2 does not consume events *)

Lemma exists_descent (f : nat → nat) (i j : nat) :
  (i < j)%nat → (f j ≤ f i)%nat →
  ∃ m, (i ≤ m < j)%nat ∧ (f (S m) ≤ f m)%nat.
Proof.
  induction j as [|j IH]; [lia|]. intros Hij Hle.
  destruct (decide (i = j)) as [->|Hne].
  - exists j. split; [lia|done].
  - destruct (le_lt_dec (f j) (f i)) as [Hji|Hji].
    + destruct IH as (m & Hm & Hdesc); [lia|done|].
      exists m. split; [lia|done].
    + exists j. split; lia.
Qed.

(** C10. The position recorded for an expected event depends on the event
    and the trace only, not on what was expected (and matched) before it;
    two expected events that select the same observed event both get its
    index and the matching stage reports nothing for either; when the
    matching stage reports no error at all, two expected events with the
    same position always lead the order check to report an adjacent pair
    between them. *)
Theorem matcher_does_not_consume (EXP : list ExpEvent) (g_data0 : Z)
    (mis : option Z) (got : list MemW) :
  let stage2 := (match_loop got 0 EXP [] ∅).1 in
  let positions := (match_loop got 0 EXP [] ∅).2 in
  (∀ EXP' i i' e,
     EXP !! i = Some e → EXP' !! i' = Some e →
     positions !! i = (match_loop got 0 EXP' [] ∅).2 !! i')
  ∧ (∀ i j e e' p p' k,
       EXP !! i = Some e → EXP !! j = Some e' →
       e_pc e = Some p → e_pc e' = Some p' →
       selects got p e k → selects got p' e' k →
       positions !! i = Some k ∧ positions !! j = Some k
       ∧ (MissingWrite p (e_addr e) (e_data e) (e_mask e) ∉ stage2)
       ∧ (MissingWrite p' (e_addr e') (e_data e') (e_mask e') ∉ stage2))
  ∧ (stage2 = [] →
     ∀ i j k,
       (i < j)%nat → positions !! i = Some k → positions !! j = Some k →
       ∃ errors m,
         check_memw EXP g_data0 mis got = Ok errors
         ∧ (i ≤ m < j)%nat ∧ OrderMismatch m (S m) ∈ errors).
Proof.
  intros stage2 positions.
  assert (Hpos : ∀ i, positions !! i = EXP !! i ≫= matched got).
  { intros i. apply match_loop_positions_0. }
  split; [|split].
  - intros EXP' i i' e Hi Hi'.
    by rewrite Hpos, match_loop_positions_0, Hi, Hi'.
  - intros i j e e' p p' k Hi Hj Hp Hp' Hsel Hsel'.
    apply (matched_selects _ _ _ _ Hp) in Hsel.
    apply (matched_selects _ _ _ _ Hp') in Hsel'.
    unfold stage2. rewrite !Hpos, Hi, Hj, match_loop_errors. simpl.
    repeat split; auto.
    + rewrite <- (missing_write_iff _ _ _ _ _ Hi Hp). congruence.
    + rewrite <- (missing_write_iff _ _ _ _ _ Hj Hp'). congruence.
  - intros Hnil i j k Hij Hi Hj.
    assert (Hstage2 : match_errors got EXP = []).
    { rewrite <- Hnil. unfold stage2. by rewrite match_loop_errors. }
    assert (Hlen : (j < length EXP)%nat).
    { rewrite Hpos in Hj. destruct (EXP !! j) eqn:He; [|done].
      by eapply lookup_lt_Some. }
    pose (f := λ m, default 0%nat (positions !! m)).
    destruct (exists_descent f i j Hij) as (m & Hm & Hdesc).
    { unfold f. by rewrite Hi, Hj. }
    eexists _, m. split; [apply check_memw_eq|]. split; [done|].
    rewrite !elem_of_app. right. left.
    apply (elem_of_order_errors _ _ _ _ Hstage2). split; [done|].
    split; [lia|].
    pose proof (proj1 (match_errors_nil got EXP) Hstage2) as Hall.
    destruct (Hall m ltac:(lia)) as [a Ha].
    destruct (Hall (S m) ltac:(lia)) as [b Hb].
    exists a, b. repeat split; auto.
    unfold f in Hdesc. by rewrite !Hpos, Ha, Hb in Hdesc.
Qed.

Lemma matcher_does_not_consume_witness :
  (match_loop Sample.twice_got 0 Sample.twice_exp [] ∅).2 !! 0%nat = Some 1%nat
  ∧ (match_loop Sample.twice_got 0 Sample.twice_exp [] ∅).2 !! 1%nat
    = Some 1%nat
  ∧ ∃ errors m,
      check_memw Sample.twice_exp 0x2000 None Sample.twice_got = Ok errors
      ∧ (0 ≤ m < 1)%nat ∧ OrderMismatch m (S m) ∈ errors.
Proof.
  split; [reflexivity|]. split; [reflexivity|].
  apply (matcher_does_not_consume Sample.twice_exp 0x2000 None
           Sample.twice_got) with (k := 1%nat);
    [reflexivity|lia|reflexivity|reflexivity].
Defined.

(** ** Stage 6: lemmas *)

Lemma resolve_loop_errors objdump REG errors m :
  (resolve_loop objdump REG errors m).1
  = errors ++ (REG ≫= resolve_error objdump).
Proof.
  revert errors m. induction REG as [|e REG IH]; intros errors m.
  - simpl. by rewrite app_nil_r.
  - rewrite bind_cons. cbn [resolve_loop]. unfold resolve_error at 1.
    case_match; rewrite IH; simpl; by rewrite <- ?app_assoc.
Qed.

Lemma resolve_loop_other objdump REG errors m l :
  l ∉ x_label <$> REG →
  (resolve_loop objdump REG errors m).2 !! l = m !! l.
Proof.
  revert errors m. induction REG as [|e REG IH]; intros errors m Hl; [done|].
  rewrite fmap_cons, not_elem_of_cons in Hl. destruct Hl as [Hne Hl].
  cbn [resolve_loop]. case_match; rewrite IH by done; [|done].
  by rewrite lookup_insert_ne.
Qed.

Lemma resolve_loop_map objdump REG errors m e :
  NoDup (x_label <$> REG) → e ∈ REG → m !! x_label e = None →
  (resolve_loop objdump REG errors m).2 !! x_label e
  = parse_objdump_for_final_reg_pc objdump (x_label e) (x_rd e).
Proof.
  revert errors m. induction REG as [|e0 REG IH]; intros errors m Hnd He Hm.
  - by apply elem_of_nil in He.
  - rewrite fmap_cons in Hnd. apply NoDup_cons in Hnd as [Hfresh Hnd].
    cbn [resolve_loop]. apply elem_of_cons in He as [->|He].
    + case_match; rewrite resolve_loop_other by done.
      * by rewrite lookup_insert_eq.
      * done.
    + assert (x_label e0 ≠ x_label e) as Hne.
      { intros Heq. apply Hfresh. rewrite Heq.
        by apply list_elem_of_fmap_2. }
      case_match; apply IH; auto. by rewrite lookup_insert_ne.
Qed.

Lemma regcheck_loop_errors got_reg m REG errors :
  regcheck_loop got_reg m REG errors = errors ++ (REG ≫= reg_error got_reg m).
Proof.
  revert errors. induction REG as [|e REG IH]; intros errors.
  - simpl. by rewrite app_nil_r.
  - rewrite bind_cons. cbn [regcheck_loop]. unfold reg_error at 1.
    repeat case_match; rewrite IH; simpl; by rewrite <- ?app_assoc.
Qed.

Lemma resolve_loop_map_indep objdump REG errors errors' m :
  (resolve_loop objdump REG errors m).2
  = (resolve_loop objdump REG errors' m).2.
Proof.
  revert errors errors' m.
  induction REG as [|e REG IH]; intros errors errors' m; [done|].
  cbn [resolve_loop]. case_match; apply IH.
Qed.

Lemma check_reg_eq objdump REG got_reg errors :
  check_reg objdump REG got_reg errors
  = errors ++ (REG ≫= resolve_error objdump)
    ++ (REG ≫= reg_error got_reg (resolve_loop objdump REG [] ∅).2).
Proof.
  unfold check_reg.
  pose proof (resolve_loop_errors objdump REG errors ∅) as Herr.
  pose proof (resolve_loop_map_indep objdump REG errors [] ∅) as Hmap.
  destruct (resolve_loop objdump REG errors ∅) as [errors1 m].
  simpl in Herr, Hmap. subst.
  by rewrite regcheck_loop_errors, <- app_assoc.
Qed.

Lemma existsb_reg got_reg pc rd val :
  existsb (λ w, (r_pc w =? pc) && (r_rd w =? rd) && (r_val w =? val)) got_reg
  = true
  ↔ ∃ w, w ∈ got_reg ∧ r_pc w = pc ∧ r_rd w = rd ∧ r_val w = val.
Proof.
  rewrite existsb_exists. split; intros (w & Hw & Heq); exists w.
  - rewrite !andb_true_iff, !Z.eqb_eq in Heq.
    rewrite list_elem_of_In. tauto.
  - rewrite list_elem_of_In in Hw. rewrite !andb_true_iff, !Z.eqb_eq. tauto.
Qed.

(** ** Stage 6: the claim *)

(** C9. For each expected register check (labels being distinct, as in
    REG_EXP), when the scanner finds no pc the report holds LabelNotFound
    for its label and no MissingRegisterWrite for it; when the scanner
    finds a pc, the report holds no LabelNotFound for the label, and holds
    MissingRegisterWrite, at that very pc, exactly when no observed register
    write has that pc, that rd and that val. *)
Theorem exact_register_checks (objdump : option (list string))
    (REG : list RegCheck) (got_reg : list RegW) (e : RegCheck) :
  NoDup (x_label <$> REG) →
  e ∈ REG →
  let errors := check_reg objdump REG got_reg [] in
  match parse_objdump_for_final_reg_pc objdump (x_label e) (x_rd e) with
  | None =>
      LabelNotFound (x_label e) ∈ errors
      ∧ ∀ pc rd val, MissingRegisterWrite pc rd val (x_label e) ∉ errors
  | Some pc =>
      (LabelNotFound (x_label e) ∉ errors)
      ∧ (MissingRegisterWrite pc (x_rd e) (x_val e) (x_label e) ∈ errors
         ↔ ¬ ∃ w, w ∈ got_reg ∧ r_pc w = pc ∧ r_rd w = x_rd e
                  ∧ r_val w = x_val e)
      ∧ ∀ pc' rd val, MissingRegisterWrite pc' rd val (x_label e) ∈ errors →
                      pc' = pc ∧ rd = x_rd e ∧ val = x_val e
  end.
Proof.
  intros Hnd He errors. subst errors. rewrite check_reg_eq. simpl.
  set (m := (resolve_loop objdump REG [] ∅).2).
  assert (Hm : ∀ e', e' ∈ REG →
            m !! x_label e'
            = parse_objdump_for_final_reg_pc objdump (x_label e') (x_rd e')).
  { intros e' He'. by apply resolve_loop_map. }
  assert (Hsame : ∀ e', e' ∈ REG → x_label e' = x_label e → e' = e).
  { intros e' He' Hl.
    apply list_elem_of_lookup_1 in He as [i Hi].
    apply list_elem_of_lookup_1 in He' as [i' Hi'].
    assert (i' = i) as ->; [|congruence].
    apply (NoDup_lookup _ i' i (x_label e) Hnd).
    - rewrite list_lookup_fmap, Hi'. simpl. by rewrite Hl.
    - by rewrite list_lookup_fmap, Hi. }
  assert (Hlabel : ∀ l, LabelNotFound l ∈
              (REG ≫= resolve_error objdump) ++ (REG ≫= reg_error got_reg m)
            ↔ ∃ e', e' ∈ REG ∧ x_label e' = l
                    ∧ parse_objdump_for_final_reg_pc objdump (x_label e')
                        (x_rd e') = None).
  { intros l. rewrite elem_of_app, !list_elem_of_bind. split.
    - intros [(e' & Herr & He')|(e' & Herr & He')].
      + unfold resolve_error in Herr. case_match.
        * by apply elem_of_nil in Herr.
        * apply list_elem_of_singleton in Herr as [= ->]. eauto.
      + unfold reg_error in Herr. repeat case_match;
          rewrite ?elem_of_nil, ?list_elem_of_singleton in Herr; done.
    - intros (e' & He' & <- & Hnone). left. exists e'. split; [|done].
      unfold resolve_error. rewrite Hnone. by apply list_elem_of_singleton. }
  assert (Hmiss : ∀ pc rd val l, MissingRegisterWrite pc rd val l ∈
              (REG ≫= resolve_error objdump) ++ (REG ≫= reg_error got_reg m)
            ↔ ∃ e', e' ∈ REG ∧ x_label e' = l ∧ x_rd e' = rd ∧ x_val e' = val
                    ∧ parse_objdump_for_final_reg_pc objdump (x_label e')
                        (x_rd e') = Some pc
                    ∧ ¬ ∃ w, w ∈ got_reg ∧ r_pc w = pc ∧ r_rd w = rd
                             ∧ r_val w = val).
  { intros pc rd val l. rewrite elem_of_app, !list_elem_of_bind. split.
    - intros [(e' & Herr & He')|(e' & Herr & He')].
      + unfold resolve_error in Herr. case_match;
          rewrite ?elem_of_nil, ?list_elem_of_singleton in Herr; done.
      + unfold reg_error in Herr. rewrite (Hm e' He') in Herr.
        destruct (parse_objdump_for_final_reg_pc _ _ _) as [pc'|] eqn:Hpc;
          [|by apply elem_of_nil in Herr].
        destruct (existsb _ got_reg) eqn:Hex;
          [by apply elem_of_nil in Herr|].
        apply list_elem_of_singleton in Herr as [= -> -> -> ->].
        exists e'. repeat split; auto.
        rewrite <- existsb_reg. by rewrite Hex.
    - intros (e' & He' & <- & <- & <- & Hpc & Hno). right.
      exists e'. split; [|done]. unfold reg_error.
      rewrite (Hm e' He'), Hpc.
      destruct (existsb _ got_reg) eqn:Hex.
      + apply existsb_reg in Hex. done.
      + by apply list_elem_of_singleton. }
  destruct (parse_objdump_for_final_reg_pc objdump (x_label e) (x_rd e))
    as [pc|] eqn:Hpc.
  - split; [|split].
    + rewrite Hlabel. intros (e' & He' & Hl & Hnone).
      rewrite (Hsame e' He' Hl) in Hnone. congruence.
    + rewrite Hmiss. split.
      * intros (e' & He' & Hl & _ & _ & _ & Hno). done.
      * intros Hno. exists e. repeat split; auto.
    + intros pc' rd val Hin. apply Hmiss in Hin
        as (e' & He' & Hl & <- & <- & Hpc' & _).
      rewrite (Hsame e' He' Hl) in Hpc' |- *. split; [congruence|done].
  - split.
    + rewrite Hlabel. eauto.
    + intros pc rd val Hin. apply Hmiss in Hin
        as (e' & He' & Hl & _ & _ & Hpc' & _).
      rewrite (Hsame e' He' Hl) in Hpc'. congruence.
Qed.

Lemma exact_register_checks_witness :
  NoDup (x_label <$> REG_EXP)
  ∧ {| x_label := "L_LI_T1"; x_rd := 6; x_val := 0xABCDEF01 |} ∈ REG_EXP
  ∧ parse_objdump_for_final_reg_pc (Some Sample.listing) "L_LI_T1" 6
    = Some 0x3c
  ∧ MissingRegisterWrite 0x3c 6 0xABCDEF01 "L_LI_T1"
    ∈ check_reg (Some Sample.listing) REG_EXP Sample.late_got_reg [].
Proof.
  assert (Hnd : NoDup (x_label <$> REG_EXP)) by compute_done.
  assert (He : {| x_label := "L_LI_T1"; x_rd := 6; x_val := 0xABCDEF01 |}
               ∈ REG_EXP) by (unfold REG_EXP; set_solver).
  assert (Hpc : parse_objdump_for_final_reg_pc (Some Sample.listing)
                  "L_LI_T1" 6 = Some 0x3c) by (vm_compute; reflexivity).
  split; [exact Hnd|]. split; [exact He|]. split; [exact Hpc|].
  pose proof (exact_register_checks (Some Sample.listing) REG_EXP
                Sample.late_got_reg _ Hnd He) as Hspec.
  cbn [x_label x_rd x_val] in Hspec. rewrite Hpc in Hspec.
  destruct Hspec as (_ & Hiff & _). apply Hiff.
  intros (w & Hw & Hwpc & Hrd & Hval). unfold Sample.late_got_reg in Hw.
  rewrite !elem_of_cons, elem_of_nil in Hw.
  destruct_or?; subst; try done; simpl in *; lia.
Defined.

(** ** [main]: which errors are reported *)

Lemma main_eq syms got got_reg objdump tohost g_data0 g_data1 g_buf :
  syms !! "tohost"%string = Some tohost →
  syms !! "g_data0"%string = Some g_data0 →
  syms !! "g_data1"%string = Some g_data1 →
  syms !! "g_buf"%string = Some g_buf →
  main true syms 0 got got_reg objdump
  = match stage1_5_errors syms tohost g_data0 g_data1 g_buf got with
    | [] =>
        match check_reg objdump REG_EXP got_reg [] with
        | [] => Ok (0, [])
        | err :: errs => Ok (1, err :: errs)
        end
    | err :: errs => Ok (1, err :: errs)
    end.
Proof.
  intros Ht H0 H1 Hb. unfold main, sym. rewrite Ht, H0, H1, Hb.
  cbn -[check_memw check_reg EXP_of]. rewrite check_memw_eq.
  cbn -[match_errors order_errors g0_errors misaligned_errors check_reg
        EXP_of].
  fold (stage1_5_errors syms tohost g_data0 g_data1 g_buf got).
  destruct (stage1_5_errors _ _ _ _ _ _); [|done].
  by destruct (check_reg objdump REG_EXP got_reg []).
Qed.

Lemma stage6_kind objdump REG got_reg err :
  err ∈ check_reg objdump REG got_reg [] → is_stage6 err = true.
Proof.
  rewrite check_reg_eq. simpl. rewrite elem_of_app, !list_elem_of_bind.
  intros [(e & Herr & _)|(e & Herr & _)].
  - unfold resolve_error in Herr. case_match;
      rewrite ?elem_of_nil, ?list_elem_of_singleton in Herr; by subst.
  - unfold reg_error in Herr. repeat case_match;
      rewrite ?elem_of_nil, ?list_elem_of_singleton in Herr; by subst.
Qed.

Lemma filter_nil_iff {A} (f : A → bool) (l : list A) :
  List.filter f l = [] ↔ ∀ x, x ∈ l → f x = false.
Proof.
  induction l as [|a l IH]; simpl.
  - split; [|done]. intros _ x Hx. by apply elem_of_nil in Hx.
  - destruct (f a) eqn:Ha.
    + split; [done|]. intros H.
      specialize (H a (list_elem_of_here _ _)). congruence.
    + rewrite IH. split.
      * intros H x Hx. apply elem_of_cons in Hx as [->|Hx]; auto.
      * intros H x Hx. apply H. by right.
Qed.

(** For a kind of error stage 6 never reports, [main] reports exactly what
    stages 1 to 5 found of that kind. *)
Lemma main_filter (f : error → bool) syms got got_reg objdump
    tohost g_data0 g_data1 g_buf :
  (∀ err, is_stage6 err = true → f err = false) →
  syms !! "tohost"%string = Some tohost →
  syms !! "g_data0"%string = Some g_data0 →
  syms !! "g_data1"%string = Some g_data1 →
  syms !! "g_buf"%string = Some g_buf →
  ∃ code errors,
    main true syms 0 got got_reg objdump = Ok (code, errors)
    ∧ List.filter f errors
      = List.filter f (stage1_5_errors syms tohost g_data0 g_data1 g_buf got).
Proof.
  intros Hf Ht H0 H1 Hb. rewrite (main_eq _ _ _ _ _ _ _ _ Ht H0 H1 Hb).
  destruct (stage1_5_errors _ _ _ _ _ _) as [|err errs]; [|by eauto].
  destruct (check_reg objdump REG_EXP got_reg []) as [|err errs] eqn:H6;
    eexists _, _; (split; [done|]); [done|].
  simpl (List.filter f []). apply filter_nil_iff. intros x Hx.
  apply Hf. apply (stage6_kind objdump REG_EXP got_reg). by rewrite H6.
Qed.

(** ** Stage 4: lemmas *)

Lemma filter_one {A} (f : A → bool) (l : list A) (w : A) :
  List.filter f l = [w]
  ↔ ∃ i, l !! i = Some w ∧ f w = true
         ∧ ∀ j w', l !! j = Some w' → f w' = true → j = i.
Proof.
  induction l as [|a l IH]; simpl.
  - split; [done|]. by intros (i & Hi & _).
  - destruct (f a) eqn:Ha.
    + split.
      * intros [= -> Hnil]. exists 0%nat. repeat split; auto.
        intros [|j] w' Hj Hw'; [done|]. simpl in Hj.
        rewrite filter_nil_iff in Hnil.
        rewrite (Hnil w') in Hw'; [done|]. by eapply list_elem_of_lookup_2.
      * intros (i & Hi & Hw & Huniq).
        pose proof (Huniq 0%nat a eq_refl Ha) as <-. simpl in Hi.
        injection Hi as ->. f_equal. apply filter_nil_iff. intros x Hx.
        apply list_elem_of_lookup_1 in Hx as [j Hj].
        destruct (f x) eqn:Hfx; [|done].
        by specialize (Huniq (S j) x Hj Hfx).
    + rewrite IH. split.
      * intros (i & Hi & Hw & Huniq). exists (S i). repeat split; auto.
        intros [|j] w' Hj Hw'; simpl in Hj.
        -- congruence.
        -- f_equal. eauto.
      * intros (i & Hi & Hw & Huniq). destruct i as [|i].
        { simpl in Hi. congruence. }
        exists i. repeat split; auto.
        intros j w' Hj Hw'. specialize (Huniq (S j) w' Hj Hw'). lia.
Qed.

Lemma written_once_filter g_data0 got :
  written_once g_data0 got
  ↔ ∃ w, List.filter (λ w, w_addr w =? g_data0) got = [w]
         ∧ w_data w = 0x12345678 ∧ w_mask w = 0xF.
Proof.
  unfold written_once. split.
  - intros (i & w & Hi & Ha & Hd & Hm & Huniq). exists w.
    split; [|done]. apply filter_one. exists i. split; [done|].
    split; [by apply Z.eqb_eq|].
    intros j w' Hj Hw'. apply (Huniq j w' Hj). by apply Z.eqb_eq.
  - intros (w & Hf & Hd & Hm). apply filter_one in Hf as (i & Hi & Hw & Huniq).
    exists i, w. apply Z.eqb_eq in Hw. repeat split; auto.
    intros j w' Hj Hw'. apply (Huniq j w' Hj). by apply Z.eqb_eq.
Qed.

Lemma g0_errors_cases g_data0 got :
  (written_once g_data0 got ∧ g0_errors g_data0 got = [])
  ∨ (¬ written_once g_data0 got
     ∧ g0_errors g_data0 got
       = [SpuriousWrite
            (length (List.filter (λ w, w_addr w =? g_data0) got))]).
Proof.
  rewrite written_once_filter. unfold g0_errors, g0_check.
  destruct (List.filter (λ w, w_addr w =? g_data0) got) as [|w [|w2 ws]];
    simpl.
  - right. split; [|done]. by intros (w & ? & _).
  - destruct (w_data w =? 305419896) eqn:Hd; simpl.
    + destruct (w_mask w =? 15) eqn:Hm; simpl.
      * left. split; [|done]. exists w. apply Z.eqb_eq in Hd, Hm. done.
      * right. split; [|done]. intros (w' & [= <-] & _ & Hm').
        apply Z.eqb_neq in Hm. done.
    + right. split; [|done]. intros (w' & [= <-] & Hd' & _).
      apply Z.eqb_neq in Hd. done.
  - right. split; [|done]. by intros (w' & ? & _).
Qed.

(** ** The kinds of error of each stage *)

Lemma match_errors_kind got EXP err :
  err ∈ match_errors got EXP →
  (∃ e, err = SymbolNotFound e) ∨ (∃ p a d m, err = MissingWrite p a d m).
Proof.
  unfold match_errors. rewrite list_elem_of_bind. intros (e & Herr & _).
  unfold match_error in Herr. repeat case_match;
    rewrite ?elem_of_nil, ?list_elem_of_singleton in Herr; subst; eauto 10.
  done.
Qed.

Lemma order_errors_kind got EXP err :
  err ∈ order_errors got EXP → ∃ i, err = OrderMismatch i (S i).
Proof.
  unfold order_errors. case_match; [|by rewrite elem_of_nil].
  rewrite list_elem_of_bind. intros (i & Herr & _).
  unfold order_error in Herr. repeat case_match;
    rewrite ?elem_of_nil, ?list_elem_of_singleton in Herr; subst; eauto.
  all: done.
Qed.

Lemma g0_errors_kind g_data0 got err :
  err ∈ g0_errors g_data0 got → ∃ n, err = SpuriousWrite n.
Proof.
  destruct (g0_errors_cases g_data0 got) as [[_ ->]|[_ ->]].
  - by rewrite elem_of_nil.
  - rewrite list_elem_of_singleton. eauto.
Qed.

Lemma misaligned_errors_kind mis got err :
  err ∈ misaligned_errors mis got → err = UnexpectedTrapWrite.
Proof.
  unfold misaligned_errors, misaligned_check. repeat case_match; simpl;
    rewrite ?elem_of_nil, ?list_elem_of_singleton; done.
Qed.

Lemma filter_all {A} (f : A → bool) (l : list A) :
  (∀ x, x ∈ l → f x = true) → List.filter f l = l.
Proof.
  induction l as [|a l IH]; [done|]. intros H. simpl.
  rewrite (H a) by left. f_equal. apply IH. intros x Hx. apply H. by right.
Qed.

Ltac kinds :=
  let x := fresh "x" in
  let Hx := fresh "Hx" in
  (apply filter_nil_iff || apply filter_all); intros x Hx;
  first
    [ apply match_errors_kind in Hx as [[? ->]|(? & ? & ? & ? & ->)]
    | apply order_errors_kind in Hx as [? ->]
    | apply g0_errors_kind in Hx as [? ->]
    | apply misaligned_errors_kind in Hx as -> ];
  reflexivity.

Lemma filter_spurious_stage1_5 syms tohost g_data0 g_data1 g_buf got :
  List.filter is_spurious_write
    (stage1_5_errors syms tohost g_data0 g_data1 g_buf got)
  = g0_errors g_data0 got.
Proof.
  unfold stage1_5_errors. cbv zeta. rewrite !List.filter_app.
  replace (List.filter is_spurious_write (match_errors _ _)) with (@nil error)
    by (symmetry; kinds).
  replace (List.filter is_spurious_write (order_errors _ _)) with (@nil error)
    by (symmetry; kinds).
  replace (List.filter is_spurious_write (misaligned_errors _ _))
    with (@nil error) by (symmetry; kinds).
  rewrite app_nil_r. simpl. kinds.
Qed.

Lemma filter_trap_stage1_5 syms tohost g_data0 g_data1 g_buf got :
  List.filter is_unexpected_trap_write
    (stage1_5_errors syms tohost g_data0 g_data1 g_buf got)
  = misaligned_errors (pcs syms "L_MISALIGNED_SW") got.
Proof.
  unfold stage1_5_errors. cbv zeta. rewrite !List.filter_app.
  replace (List.filter is_unexpected_trap_write (match_errors _ _))
    with (@nil error) by (symmetry; kinds).
  replace (List.filter is_unexpected_trap_write (order_errors _ _))
    with (@nil error) by (symmetry; kinds).
  replace (List.filter is_unexpected_trap_write (g0_errors _ _))
    with (@nil error) by (symmetry; kinds).
  simpl. kinds.
Qed.

Lemma stage6_not_spurious err :
  is_stage6 err = true → is_spurious_write err = false.
Proof. by destruct err. Qed.

Lemma stage6_not_trap err :
  is_stage6 err = true → is_unexpected_trap_write err = false.
Proof. by destruct err. Qed.

(** ** Stage 4: the claim *)

(** C7. In a run that reaches the checks, the report holds no SpuriousWrite
    when the trace writes g_data0 exactly once and that write carries the
    expected data and mask, and holds exactly one SpuriousWrite otherwise;
    in particular two writes to g_data0, even with identical data and mask,
    give exactly one SpuriousWrite. *)
Theorem g0_written_exactly_once (syms : gmap string Z) (got : list MemW)
    (got_reg : list RegW) (objdump : option (list string))
    (tohost g_data0 g_data1 g_buf : Z) :
  syms !! "tohost"%string = Some tohost →
  syms !! "g_data0"%string = Some g_data0 →
  syms !! "g_data1"%string = Some g_data1 →
  syms !! "g_buf"%string = Some g_buf →
  ∃ code errors,
    main true syms 0 got got_reg objdump = Ok (code, errors)
    ∧ (written_once g_data0 got →
       List.filter is_spurious_write errors = [])
    ∧ (¬ written_once g_data0 got →
       List.filter is_spurious_write errors
       = [SpuriousWrite
            (length (List.filter (λ w, w_addr w =? g_data0) got))])
    ∧ (∀ i j w w',
         i ≠ j → got !! i = Some w → got !! j = Some w' →
         w_addr w = g_data0 → w_addr w' = g_data0 →
         w_data w' = w_data w → w_mask w' = w_mask w →
         ∃ n, List.filter is_spurious_write errors = [SpuriousWrite n]).
Proof.
  intros Ht H0 H1 Hb.
  destruct (main_filter is_spurious_write syms got got_reg objdump
              _ _ _ _ stage6_not_spurious Ht H0 H1 Hb)
    as (code & errors & Hmain & Hfilter).
  exists code, errors. split; [done|].
  rewrite Hfilter, filter_spurious_stage1_5.
  destruct (g0_errors_cases g_data0 got) as [[Honce ->]|[Hnot ->]].
  - split; [done|]. split; [done|].
    intros i j w w' Hij Hi Hj Ha Ha' _ _. exfalso.
    destruct Honce as (k & w0 & _ & _ & _ & _ & Huniq).
    rewrite (Huniq i w Hi Ha), (Huniq j w' Hj Ha') in Hij. done.
  - split; [done|]. split; [done|]. eauto.
Qed.

Lemma g0_written_exactly_once_witness :
  Sample.syms !! "tohost"%string = Some 0x1000
  ∧ Sample.syms !! "g_data0"%string = Some 0x2000
  ∧ Sample.syms !! "g_data1"%string = Some 0x2004
  ∧ Sample.syms !! "g_buf"%string = Some 0x2008
  ∧ ∃ code errors,
      main true Sample.syms 0 Sample.twice_g0_got Sample.good_got_reg
        (Some Sample.listing) = Ok (code, errors)
      ∧ ∃ n, List.filter is_spurious_write errors = [SpuriousWrite n].
Proof.
  split; [reflexivity|]. split; [reflexivity|]. split; [reflexivity|].
  split; [reflexivity|].
  destruct (g0_written_exactly_once Sample.syms Sample.twice_g0_got
              Sample.good_got_reg (Some Sample.listing)
              0x1000 0x2000 0x2004 0x2008
              eq_refl eq_refl eq_refl eq_refl)
    as (code & errors & Hmain & _ & _ & Htwice).
  exists code, errors. split; [exact Hmain|].
  apply (Htwice 0%nat 5%nat (Sample.mw 0x50 0x2000 0x12345678 0xF)
           (Sample.mw 0x64 0x2000 0x12345678 0xF));
    [lia|reflexivity..].
Defined.

(** ** Stage 5: the claim *)

Lemma misaligned_errors_Some a got :
  UnexpectedTrapWrite ∈ misaligned_errors (Some a) got
  ↔ ∃ w, w ∈ got ∧ w_pc w = a.
Proof.
  unfold misaligned_errors, misaligned_check.
  destruct (existsb (λ w, w_pc w =? a) got) eqn:Hex; simpl.
  - rewrite list_elem_of_singleton. split; [intros _|done].
    apply existsb_exists in Hex as (w & Hw & Hpc).
    exists w. rewrite list_elem_of_In. by apply Z.eqb_eq in Hpc.
  - rewrite elem_of_nil. split; [done|]. intros (w & Hw & Hpc).
    assert (existsb (λ w, w_pc w =? a) got = true); [|congruence].
    apply existsb_exists. exists w. rewrite <- list_elem_of_In.
    by apply Z.eqb_eq in Hpc.
Qed.

(** C8. In a run that reaches the checks, with the label of the
    misaligned store resolved to [a], the report holds UnexpectedTrapWrite
    exactly when some observed memory write has pc [a]; whether that
    write's addr, data and mask are those of an expected event plays no
    part. *)
Theorem no_write_at_misaligned_pc (syms : gmap string Z) (got : list MemW)
    (got_reg : list RegW) (objdump : option (list string))
    (tohost g_data0 g_data1 g_buf a : Z) :
  syms !! "tohost"%string = Some tohost →
  syms !! "g_data0"%string = Some g_data0 →
  syms !! "g_data1"%string = Some g_data1 →
  syms !! "g_buf"%string = Some g_buf →
  syms !! "L_MISALIGNED_SW"%string = Some a →
  ∃ code errors,
    main true syms 0 got got_reg objdump = Ok (code, errors)
    ∧ (UnexpectedTrapWrite ∈ errors ↔ ∃ w, w ∈ got ∧ w_pc w = a)
    ∧ (∀ w e,
         w ∈ got → w_pc w = a →
         e ∈ EXP_of syms tohost g_data0 g_data1 g_buf →
         w_addr w = e_addr e → w_data w = e_data e → w_mask w = e_mask e →
         code = 1 ∧ UnexpectedTrapWrite ∈ errors).
Proof.
  intros Ht H0 H1 Hb Ha.
  destruct (main_filter is_unexpected_trap_write syms got got_reg objdump
              _ _ _ _ stage6_not_trap Ht H0 H1 Hb)
    as (code & errors & Hmain & Hfilter).
  exists code, errors. split; [done|].
  assert (Hiff : UnexpectedTrapWrite ∈ errors ↔ ∃ w, w ∈ got ∧ w_pc w = a).
  { rewrite <- misaligned_errors_Some, <- Ha.
    change (syms !! "L_MISALIGNED_SW"%string)
      with (pcs syms "L_MISALIGNED_SW").
    rewrite <- (filter_trap_stage1_5 syms tohost g_data0 g_data1 g_buf got),
      <- Hfilter.
    rewrite !list_elem_of_In, List.filter_In. simpl. tauto. }
  split; [done|].
  intros w e Hw Hpc _ _ _ _.
  assert (Hin : UnexpectedTrapWrite ∈ errors) by (apply Hiff; eauto).
  split; [|done].
  rewrite (main_eq _ _ _ _ _ _ _ _ Ht H0 H1 Hb) in Hmain.
  destruct (stage1_5_errors _ _ _ _ _ _) as [|err errs];
    [|by injection Hmain as <- _].
  destruct (check_reg objdump REG_EXP got_reg []) as [|err errs];
    [|by injection Hmain as <- _].
  injection Hmain as _ <-. by apply elem_of_nil in Hin.
Qed.

Lemma no_write_at_misaligned_pc_witness :
  Sample.syms !! "tohost"%string = Some 0x1000
  ∧ Sample.syms !! "g_data0"%string = Some 0x2000
  ∧ Sample.syms !! "g_data1"%string = Some 0x2004
  ∧ Sample.syms !! "g_buf"%string = Some 0x2008
  ∧ Sample.syms !! "L_MISALIGNED_SW"%string = Some 0x64
  ∧ ∃ code errors,
      main true Sample.syms 0 Sample.trap_got Sample.good_got_reg
        (Some Sample.listing) = Ok (code, errors)
      ∧ code = 1 ∧ UnexpectedTrapWrite ∈ errors.
Proof.
  do 5 (split; [reflexivity|]).
  destruct (no_write_at_misaligned_pc Sample.syms Sample.trap_got
              Sample.good_got_reg (Some Sample.listing)
              0x1000 0x2000 0x2004 0x2008 0x64
              eq_refl eq_refl eq_refl eq_refl eq_refl)
    as (code & errors & Hmain & _ & Heven).
  exists code, errors. split; [exact Hmain|].
  apply (Heven (Sample.mw 0x64 0x2008 0x22334411 0x2)
           (Sample.ev (Some 0x60) (0x2008 + 0) 0x22334411 0x2));
    try reflexivity.
  - apply list_elem_of_In. simpl. auto 10.
  - apply list_elem_of_In. vm_compute. auto 10.
Defined.

(** ** The gates between the stages *)

(** C4, as the claim states it, fails: stage 2 reports six missing writes
    and stages 4 and 5 report all the same. *)
Lemma stages_4_5_not_gated :
  main true Sample.syms 0 Sample.bad_got Sample.good_got_reg
    (Some Sample.listing)
  = Ok (1, [MissingWrite 0x50 0x2000 0x12345678 0xF;
            MissingWrite 0x54 0x2004 0xABCDEF01 0xF;
            MissingWrite 0x58 0x2008 0x11223344 0xF;
            MissingWrite 0x5c 0x2008 0x33441122 0xC;
            MissingWrite 0x60 0x2008 0x22334411 0x2;
            MissingWrite 0x70 0x1000 0x1 0xF;
            SpuriousWrite 2; UnexpectedTrapWrite]).
Proof. vm_compute. reflexivity. Qed.

(** C4, amended. Only the order check is gated on the absence of earlier
    errors: the report of stages 1 to 5 is what stage 2 found, then what the
    order check found (nothing when stage 2 found something), then what
    stages 4 and 5 find on the trace alone, whatever came before; stage 6
    runs only when that report is empty, and then its errors are the
    report. *)
Theorem pipeline_gating (syms : gmap string Z) (got : list MemW)
    (got_reg : list RegW) (objdump : option (list string))
    (tohost g_data0 g_data1 g_buf : Z) :
  syms !! "tohost"%string = Some tohost →
  syms !! "g_data0"%string = Some g_data0 →
  syms !! "g_data1"%string = Some g_data1 →
  syms !! "g_buf"%string = Some g_buf →
  let EXP := EXP_of syms tohost g_data0 g_data1 g_buf in
  let stage2 := (match_loop got 0 EXP [] ∅).1 in
  let stage4 := g0_check g_data0 got [] in
  let stage5 := misaligned_check (syms !! "L_MISALIGNED_SW"%string) got [] in
  let stage6 := check_reg objdump REG_EXP got_reg [] in
  ∃ stage3,
    (stage2 ≠ [] → stage3 = [])
    ∧ (∀ err, err ∈ stage3 → is_order_mismatch err = true)
    ∧ main true syms 0 got got_reg objdump
      = match stage2 ++ stage3 ++ stage4 ++ stage5 with
        | err :: errs => Ok (1, err :: errs)
        | [] =>
            match stage6 with
            | err :: errs => Ok (1, err :: errs)
            | [] => Ok (0, [])
            end
        end.
Proof.
  intros Ht H0 H1 Hb EXP stage2 stage4 stage5 stage6.
  exists (order_errors got EXP). split; [|split].
  - unfold stage2. rewrite match_loop_errors.
    change (match_errors got EXP ≠ [] → order_errors got EXP = []).
    unfold order_errors. by destruct (match_errors got EXP).
  - intros err Herr. by apply order_errors_kind in Herr as [i ->].
  - rewrite (main_eq _ _ _ _ _ _ _ _ Ht H0 H1 Hb).
    unfold stage2. by rewrite match_loop_errors.
Qed.

Lemma pipeline_gating_witness :
  Sample.syms !! "tohost"%string = Some 0x1000
  ∧ Sample.syms !! "g_data0"%string = Some 0x2000
  ∧ Sample.syms !! "g_data1"%string = Some 0x2004
  ∧ Sample.syms !! "g_buf"%string = Some 0x2008
  ∧ ∃ stage3,
      stage3 = []
      ∧ main true Sample.syms 0 Sample.bad_got Sample.good_got_reg
          (Some Sample.listing)
        = match (match_loop Sample.bad_got 0
                   (EXP_of Sample.syms 0x1000 0x2000 0x2004 0x2008) [] ∅).1
                ++ stage3 ++ g0_check 0x2000 Sample.bad_got []
                ++ misaligned_check (Sample.syms !! "L_MISALIGNED_SW"%string)
                     Sample.bad_got []
          with
          | err :: errs => Ok (1, err :: errs)
          | [] =>
              match check_reg (Some Sample.listing) REG_EXP
                      Sample.good_got_reg []
              with
              | err :: errs => Ok (1, err :: errs)
              | [] => Ok (0, [])
              end
          end.
Proof.
  do 4 (split; [reflexivity|]).
  destruct (pipeline_gating Sample.syms Sample.bad_got Sample.good_got_reg
              (Some Sample.listing) 0x1000 0x2000 0x2004 0x2008
              eq_refl eq_refl eq_refl eq_refl)
    as (stage3 & Hgate & _ & Hmain).
  exists stage3. split; [|exact Hmain].
  apply Hgate. vm_compute. discriminate.
Defined.

(** ** Unresolved symbols *)

Lemma filter_snf_match_errors got EXP :
  List.filter is_symbol_not_found (match_errors got EXP)
  = SymbolNotFound <$> List.filter unresolved EXP.
Proof.
  unfold match_errors. induction EXP as [|e EXP IH]; [done|].
  rewrite bind_cons, List.filter_app, IH. simpl.
  unfold match_error, unresolved.
  destruct (e_pc e) as [p|]; [|done].
  by destruct (try_offsets got p e offsets).
Qed.

Lemma filter_snf_stage1_5 syms tohost g_data0 g_data1 g_buf got :
  List.filter is_symbol_not_found
    (stage1_5_errors syms tohost g_data0 g_data1 g_buf got)
  = SymbolNotFound
    <$> List.filter unresolved (EXP_of syms tohost g_data0 g_data1 g_buf).
Proof.
  unfold stage1_5_errors. cbv zeta.
  rewrite !List.filter_app, filter_snf_match_errors.
  replace (List.filter is_symbol_not_found (order_errors _ _))
    with (@nil error) by (symmetry; kinds).
  replace (List.filter is_symbol_not_found (g0_errors _ _))
    with (@nil error) by (symmetry; kinds).
  replace (List.filter is_symbol_not_found (misaligned_errors _ _))
    with (@nil error) by (symmetry; kinds).
  by rewrite !app_nil_r.
Qed.

Lemma stage6_not_snf err :
  is_stage6 err = true → is_symbol_not_found err = false.
Proof. by destruct err. Qed.

(** Whatever stages 1 to 5 find is reported, with exit code 1. *)
Lemma main_reports_stage1_5 syms got got_reg objdump
    tohost g_data0 g_data1 g_buf code errors err :
  syms !! "tohost"%string = Some tohost →
  syms !! "g_data0"%string = Some g_data0 →
  syms !! "g_data1"%string = Some g_data1 →
  syms !! "g_buf"%string = Some g_buf →
  main true syms 0 got got_reg objdump = Ok (code, errors) →
  err ∈ stage1_5_errors syms tohost g_data0 g_data1 g_buf got →
  code = 1 ∧ err ∈ errors.
Proof.
  intros Ht H0 H1 Hb Hmain Herr.
  rewrite (main_eq _ _ _ _ _ _ _ _ Ht H0 H1 Hb) in Hmain.
  destruct (stage1_5_errors _ _ _ _ _ _) as [|err0 errs];
    [by apply elem_of_nil in Herr|].
  by injection Hmain as <- <-.
Qed.

Lemma main_missing_data_symbol syms got got_reg objdump name :
  name ∈ data_symbols → syms !! name = None →
  ∃ key, key ∈ data_symbols ∧ syms !! key = None
         ∧ ∀ rc, main true syms rc got got_reg objdump = Raise (KeyError key).
Proof.
  intros Hname Hnone. unfold data_symbols in *.
  destruct (syms !! "tohost"%string) as [t|] eqn:Ht.
  2: { exists "tohost"%string. split; [rewrite !elem_of_cons; auto 10|]. split; [done|].
       intros rc. unfold main, sym. by rewrite Ht. }
  destruct (syms !! "g_data0"%string) as [g0|] eqn:H0.
  2: { exists "g_data0"%string. split; [rewrite !elem_of_cons; auto 10|]. split; [done|].
       intros rc. unfold main, sym. by rewrite Ht, H0. }
  destruct (syms !! "g_data1"%string) as [g1|] eqn:H1.
  2: { exists "g_data1"%string. split; [rewrite !elem_of_cons; auto 10|]. split; [done|].
       intros rc. unfold main, sym. by rewrite Ht, H0, H1. }
  destruct (syms !! "g_buf"%string) as [gb|] eqn:Hb.
  2: { exists "g_buf"%string. split; [rewrite !elem_of_cons; auto 10|]. split; [done|].
       intros rc. unfold main, sym. by rewrite Ht, H0, H1, Hb. }
  rewrite !elem_of_cons, elem_of_nil in Hname.
  destruct_or?; subst; congruence || done.
Qed.

Lemma main_delete_li_label syms rc got got_reg objdump l :
  l ∈ li_labels →
  main true (delete l syms) rc got got_reg objdump
  = main true syms rc got got_reg objdump.
Proof.
  intros Hl. unfold li_labels in Hl.
  rewrite !elem_of_cons, elem_of_nil in Hl.
  assert (Hlook : ∀ name,
            name ∈ ["tohost"; "g_data0"; "g_data1"; "g_buf"; "L_SW_GDATA0";
                    "L_SW_GDATA1"; "L_SW_GBUF"; "L_SH_GBUF_P2";
                    "L_SB_GBUF_P1"; "L_SW_TOHOST"; "L_MISALIGNED_SW"]%string →
            delete l syms !! name = syms !! name).
  { intros name Hname. apply lookup_delete_ne.
    rewrite !elem_of_cons, elem_of_nil in Hname.
    destruct_or?; subst; done. }
  unfold main, sym, EXP_of, pcs.
  rewrite !Hlook by (rewrite !elem_of_cons; auto 20).
  reflexivity.
Qed.

(** C3, as the claim states it, fails: without [tohost] the run stops on
    the uncaught KeyError and records nothing; and without the labels
    [L_MISALIGNED_SW] and [L_LI_T0] the run passes, recording no error for
    either. *)
Lemma unresolved_symbol_not_recorded :
  main true (delete "tohost"%string Sample.syms) 0 Sample.good_got
    Sample.good_got_reg (Some Sample.listing)
  = Raise (KeyError "tohost")
  ∧ main true
      (delete "L_LI_T0"%string (delete "L_MISALIGNED_SW"%string Sample.syms))
      0 Sample.trap_got Sample.good_got_reg (Some Sample.listing)
    = Ok (0, []).
Proof. split; vm_compute; reflexivity. Qed.

(** C3, amended. The four data symbols are required: when one of them is
    missing the run stops on the KeyError of the first missing one.  When
    they resolve, every expected event whose store label is unresolved is
    reported as SymbolNotFound, in order and once per event, and the
    remaining events are still matched (a later event without a match is
    still reported missing).  An unresolved [L_MISALIGNED_SW] only switches
    the negative check off, and the [L_LI_*] entries of the symbol table are
    never read. *)
Theorem unresolved_symbols (syms : gmap string Z) (got : list MemW)
    (got_reg : list RegW) (objdump : option (list string)) :
  (∀ name, name ∈ data_symbols → syms !! name = None →
     ∃ key, key ∈ data_symbols ∧ syms !! key = None
            ∧ ∀ rc, main true syms rc got got_reg objdump
                    = Raise (KeyError key))
  ∧ (∀ tohost g_data0 g_data1 g_buf,
       syms !! "tohost"%string = Some tohost →
       syms !! "g_data0"%string = Some g_data0 →
       syms !! "g_data1"%string = Some g_data1 →
       syms !! "g_buf"%string = Some g_buf →
       let EXP := EXP_of syms tohost g_data0 g_data1 g_buf in
       ∃ code errors,
         main true syms 0 got got_reg objdump = Ok (code, errors)
         ∧ List.filter is_symbol_not_found errors
           = SymbolNotFound <$> List.filter unresolved EXP
         ∧ (∀ e, e ∈ EXP → e_pc e = None →
                 code = 1 ∧ SymbolNotFound e ∈ errors)
         ∧ (∀ e p, e ∈ EXP → e_pc e = Some p →
                   (∀ off w, off ∈ [0; 2; 4; 6; 8] → w ∈ got →
                             ¬ matches_at p e off w) →
                   code = 1
                   ∧ MissingWrite p (e_addr e) (e_data e) (e_mask e) ∈ errors)
         ∧ (syms !! "L_MISALIGNED_SW"%string = None →
            UnexpectedTrapWrite ∉ errors))
  ∧ (∀ l rc, l ∈ li_labels →
             main true (delete l syms) rc got got_reg objdump
             = main true syms rc got got_reg objdump).
Proof.
  split; [|split].
  - intros name. apply main_missing_data_symbol.
  - intros tohost g_data0 g_data1 g_buf Ht H0 H1 Hb EXP.
    destruct (main_filter is_symbol_not_found syms got got_reg objdump
                _ _ _ _ stage6_not_snf Ht H0 H1 Hb)
      as (code & errors & Hmain & Hsnf).
    destruct (main_filter is_unexpected_trap_write syms got got_reg objdump
                _ _ _ _ stage6_not_trap Ht H0 H1 Hb)
      as (code' & errors' & Hmain' & Htrap).
    rewrite Hmain in Hmain'. injection Hmain' as <- <-.
    exists code, errors. split; [done|].
    rewrite filter_snf_stage1_5 in Hsnf. split; [done|].
    assert (Hstage2 : ∀ err, err ∈ match_errors got EXP →
                             code = 1 ∧ err ∈ errors).
    { intros err Herr.
      apply (main_reports_stage1_5 _ _ _ _ _ _ _ _ _ _ _ Ht H0 H1 Hb Hmain).
      unfold stage1_5_errors. cbv zeta. apply elem_of_app. by left. }
    split; [|split].
    + intros e He Hnone. apply Hstage2. unfold match_errors.
      apply list_elem_of_bind. exists e. split; [|done].
      unfold match_error. rewrite Hnone. by apply list_elem_of_singleton.
    + intros e p He Hp Hno. apply Hstage2. unfold match_errors.
      apply list_elem_of_bind. exists e. split; [|done].
      apply MissingWrite_match_error. split.
      * destruct e; simpl in *; congruence.
      * by apply (matched_None _ _ _ Hp).
    + intros Hnone Hin.
      apply list_elem_of_In in Hin.
      assert (Hf : In UnexpectedTrapWrite
                     (List.filter is_unexpected_trap_write errors))
        by (apply List.filter_In; auto).
      rewrite Htrap, filter_trap_stage1_5 in Hf. unfold pcs in Hf.
      rewrite Hnone in Hf. done.
  - intros l rc Hl. by apply main_delete_li_label.
Qed.

Lemma unresolved_symbols_witness :
  ∃ code errors,
    main true Sample.partial_syms 0 Sample.good_got Sample.good_got_reg
      (Some Sample.listing) = Ok (code, errors)
    ∧ List.filter is_symbol_not_found errors
      = [SymbolNotFound (Sample.ev None (0x2008 + 0) 0x11223344 0xF);
         SymbolNotFound (Sample.ev None 0x1000 0x1 0xF)].
Proof.
  destruct (unresolved_symbols Sample.partial_syms Sample.good_got
              Sample.good_got_reg (Some Sample.listing)) as (_ & Hcollect & _).
  destruct (Hcollect 0x1000 0x2000 0x2004 0x2008
              eq_refl eq_refl eq_refl eq_refl)
    as (code & errors & Hmain & Hsnf & _).
  exists code, errors. split; [exact Hmain|]. exact Hsnf.
Defined.

(** ** The disassembly scanner: lemmas *)

Lemma find_start_next_index label i lines :
  find_start label i lines
  = S <$> next_index (Re.matches (label_re label)) i lines.
Proof.
  revert i. induction lines as [|line lines IH]; intros i; simpl; [done|].
  by destruct (Re.matches (label_re label) line).
Qed.

Lemma find_start_Some label lines n :
  find_start label 0 lines = Some n
  ↔ ∃ s, n = S s ∧ first_label label lines s.
Proof.
  rewrite find_start_next_index. unfold first_label. split.
  - intros H. destruct (next_index _ 0 lines) as [k|] eqn:Hk; [|done].
    injection H as <-. apply next_index_Some in Hk
      as (j & w & -> & Hj & Hw & Hfirst).
    exists j. split; [done|]. split; [eauto|]. eauto.
  - intros (s & -> & (line & Hs & Hm) & Hfirst).
    assert (next_index (Re.matches (label_re label)) 0 lines = Some s)
      as ->; [|done].
    apply next_index_Some. exists s, line. repeat split; eauto.
Qed.

Lemma find_start_None label lines :
  find_start label 0 lines = None
  ↔ ∀ line, line ∈ lines → Re.matches (label_re label) line = false.
Proof.
  rewrite find_start_next_index.
  rewrite <- (next_index_None (Re.matches (label_re label)) lines 0).
  destruct (next_index (Re.matches (label_re label)) 0 lines); simpl;
    split; intros; congruence.
Qed.

Lemma first_label_unique label lines s s' :
  first_label label lines s → first_label label lines s' → s = s'.
Proof.
  intros [(l & Hl & Hm) Hfirst] [(l' & Hl' & Hm') Hfirst'].
  destruct (lt_eq_lt_dec s s') as [[Hlt| ->]|Hlt]; [|done|].
  - specialize (Hfirst' s l Hlt Hl). congruence.
  - specialize (Hfirst s' l' Hlt Hl'). congruence.
Qed.

Lemma before_header_0 a lines :
  before_header (a :: lines) 0 ↔ Re.matches next_label_re a = false.
Proof.
  unfold before_header. split.
  - intros H. by apply (H 0%nat a).
  - intros Ha m line Hm Hl. assert (m = 0%nat) as -> by lia.
    simpl in Hl. congruence.
Qed.

Lemma before_header_S a lines i :
  before_header (a :: lines) (S i)
  ↔ Re.matches next_label_re a = false ∧ before_header lines i.
Proof.
  unfold before_header. split.
  - intros H. split; [by apply (H 0%nat a); [lia|]|].
    intros m line Hm Hl. apply (H (S m) line); [lia|done].
  - intros [Ha H] [|m] line Hm Hl; simpl in Hl; [congruence|].
    apply (H m line); [lia|done].
Qed.

(** The [while] loop returns the pc of the last candidate write before the
    next label line, or the [last_pc] it started with when there is none. *)
Lemma scan_block_Some rd_num last lines pc :
  scan_block rd_num last lines = Some pc
  ↔ (∃ i line,
       lines !! i = Some line ∧ before_header lines i
       ∧ write_pc rd_num line = Some pc
       ∧ ∀ j line', (i < j)%nat → lines !! j = Some line' →
                    before_header lines j → write_pc rd_num line' = None)
    ∨ (last = Some pc
       ∧ ∀ j line', lines !! j = Some line' → before_header lines j →
                    write_pc rd_num line' = None).
Proof.
  revert last. induction lines as [|a lines IH]; intros last; simpl.
  - split.
    + intros ->. right. split; [done|]. intros j line' Hj. done.
    + intros [(i & line & Hi & _)|[-> _]]; done.
  - destruct (Re.matches next_label_re a) eqn:Hhdr.
    + split.
      * intros ->. right. split; [done|]. intros j line' _ Hb.
        specialize (Hb 0%nat a ltac:(lia) eq_refl). congruence.
      * intros [(i & line & _ & Hb & _)|[-> _]]; [|done].
        specialize (Hb 0%nat a ltac:(lia) eq_refl). congruence.
    + destruct (write_pc rd_num a) as [pc0|] eqn:Hw; rewrite IH; clear IH.
      * split.
        -- intros [(i & line & Hi & Hb & Hpc & Hlast)|[[= ->] Hnone]].
           ++ left. exists (S i), line. repeat split; auto.
              { by apply before_header_S. }
              intros [|j] line' Hlt Hj Hbj; [lia|].
              apply before_header_S in Hbj as [_ Hbj].
              apply (Hlast j line'); [lia|done..].
           ++ left. exists 0%nat, a. repeat split; auto.
              { by apply before_header_0. }
              intros [|j] line' Hlt Hj Hbj; [lia|].
              apply before_header_S in Hbj as [_ Hbj]. eauto.
        -- intros [(i & line & Hi & Hb & Hpc & Hlast)|[_ Hnone]].
           ++ destruct i as [|i].
              ** simpl in Hi. injection Hi as <-. right.
                 split; [congruence|]. intros j line' Hj Hbj.
                 apply (Hlast (S j) line'); [lia|done|].
                 by apply before_header_S.
              ** left. apply before_header_S in Hb as [_ Hb].
                 exists i, line. repeat split; auto.
                 intros j line' Hlt Hj Hbj.
                 apply (Hlast (S j) line'); [lia|done|].
                 by apply before_header_S.
           ++ specialize (Hnone 0%nat a eq_refl).
              rewrite before_header_0 in Hnone. specialize (Hnone Hhdr).
              congruence.
      * split.
        -- intros [(i & line & Hi & Hb & Hpc & Hlast)|[-> Hnone]].
           ++ left. exists (S i), line. repeat split; auto.
              { by apply before_header_S. }
              intros [|j] line' Hlt Hj Hbj; [lia|].
              apply before_header_S in Hbj as [_ Hbj].
              apply (Hlast j line'); [lia|done..].
           ++ right. split; [done|]. intros [|j] line' Hj Hbj.
              ** simpl in Hj. congruence.
              ** apply before_header_S in Hbj as [_ Hbj]. eauto.
        -- intros [(i & line & Hi & Hb & Hpc & Hlast)|[-> Hnone]].
           ++ destruct i as [|i].
              ** simpl in Hi. congruence.
              ** left. apply before_header_S in Hb as [_ Hb].
                 exists i, line. repeat split; auto.
                 intros j line' Hlt Hj Hbj.
                 apply (Hlast (S j) line'); [lia|done|].
                 by apply before_header_S.
           ++ right. split; [done|]. intros j line' Hj Hbj.
              apply (Hnone (S j) line'); [done|].
              by apply before_header_S.
Qed.

Lemma in_block_drop label lines s i :
  first_label label lines s →
  (in_block label lines i
   ↔ ∃ i', i = (S s + i')%nat ∧ before_header (drop (S s) lines) i').
Proof.
  intros Hs. unfold in_block, before_header. split.
  - intros (s' & Hs' & Hlt & Hb).
    rewrite <- (first_label_unique _ _ _ _ Hs Hs') in *.
    exists (i - S s)%nat. split; [lia|].
    intros m line Hm Hl. rewrite lookup_drop in Hl.
    apply (Hb (S s + m)%nat line); [lia|done].
  - intros (i' & -> & Hb). exists s. split; [done|]. split; [lia|].
    intros m line Hm Hl. apply (Hb (m - S s)%nat line); [lia|].
    rewrite lookup_drop. by replace (S s + (m - S s))%nat with m by lia.
Qed.

Lemma scan_block_None rd_num last lines :
  scan_block rd_num last lines = None
  ↔ last = None
    ∧ ∀ j line', lines !! j = Some line' → before_header lines j →
                 write_pc rd_num line' = None.
Proof.
  revert last. induction lines as [|a lines IH]; intros last; simpl.
  - split; [|by intros [-> _]]. intros ->. split; [done|]. by intros j.
  - destruct (Re.matches next_label_re a) eqn:Hhdr.
    + split; [|by intros [-> _]]. intros ->. split; [done|].
      intros j line' _ Hb.
      specialize (Hb 0%nat a ltac:(lia) eq_refl). congruence.
    + destruct (write_pc rd_num a) as [pc0|] eqn:Hw; rewrite IH; clear IH.
      * split; [by intros [? _]|]. intros [_ Hnone].
        specialize (Hnone 0%nat a eq_refl).
        rewrite before_header_0 in Hnone. specialize (Hnone Hhdr).
        congruence.
      * split; intros [-> Hnone]; (split; [done|]).
        -- intros [|j] line' Hj Hbj; simpl in Hj; [congruence|].
           apply before_header_S in Hbj as [_ Hbj]. eauto.
        -- intros j line' Hj Hbj. apply (Hnone (S j) line'); [done|].
           by apply before_header_S.
Qed.

Lemma parse_objdump_unfold lines label rd_num s :
  first_label label lines s →
  parse_objdump_for_final_reg_pc (Some lines) label rd_num
  = scan_block rd_num None (drop (S s) lines).
Proof.
  intros Hs. unfold parse_objdump_for_final_reg_pc.
  destruct (find_start label 0 lines) as [n|] eqn:Hn.
  - apply find_start_Some in Hn as (s' & -> & Hs').
    by rewrite (first_label_unique _ _ _ _ Hs Hs').
  - rewrite find_start_None in Hn. destruct Hs as [(line & Hl & Hm) _].
    rewrite Hn in Hm; [done|]. by eapply list_elem_of_lookup_2.
Qed.

Lemma parse_objdump_no_label lines label rd_num :
  (∀ s, ¬ first_label label lines s) →
  parse_objdump_for_final_reg_pc (Some lines) label rd_num = None.
Proof.
  intros Hno. unfold parse_objdump_for_final_reg_pc.
  destruct (find_start label 0 lines) as [n|] eqn:Hn; [|done].
  apply find_start_Some in Hn as (s & -> & Hs). by destruct (Hno s).
Qed.

Lemma parse_objdump_Some lines label rd_num pc :
  parse_objdump_for_final_reg_pc (Some lines) label rd_num = Some pc
  ↔ ∃ i line,
      in_block label lines i ∧ lines !! i = Some line
      ∧ write_pc rd_num line = Some pc
      ∧ ∀ j line', (i < j)%nat → in_block label lines j →
                   lines !! j = Some line' → write_pc rd_num line' = None.
Proof.
  destruct (find_start label 0 lines) as [n|] eqn:Hn.
  - apply find_start_Some in Hn as (s & -> & Hs).
    rewrite (parse_objdump_unfold _ _ _ _ Hs), scan_block_Some. split.
    + intros [(i & line & Hi & Hb & Hpc & Hlast)|[? _]]; [|done].
      rewrite lookup_drop in Hi. exists (S s + i)%nat, line.
      split; [apply (in_block_drop _ _ _ _ Hs); eauto|].
      repeat split; auto. intros j line' Hlt Hj Hl.
      apply (in_block_drop _ _ _ _ Hs) in Hj as (j' & -> & Hbj).
      apply (Hlast j' line'); [lia| |done]. by rewrite lookup_drop.
    + intros (i & line & Hin & Hi & Hpc & Hlast). left.
      apply (in_block_drop _ _ _ _ Hs) in Hin as (i' & -> & Hb).
      exists i', line. rewrite lookup_drop. repeat split; auto.
      intros j line' Hlt Hj Hbj. rewrite lookup_drop in Hj.
      apply (Hlast (S s + j)%nat line'); [lia| |done].
      apply (in_block_drop _ _ _ _ Hs). eauto.
  - assert (Hno : ∀ s, ¬ first_label label lines s).
    { intros s Hs. assert (find_start label 0 lines = Some (S s)); [|congruence].
      apply find_start_Some. eauto. }
    rewrite (parse_objdump_no_label _ _ _ Hno). split; [done|].
    intros (i & line & (s & Hs & _) & _). by destruct (Hno s).
Qed.

Lemma parse_objdump_None lines label rd_num :
  parse_objdump_for_final_reg_pc (Some lines) label rd_num = None
  ↔ ∀ i line, in_block label lines i → lines !! i = Some line →
              write_pc rd_num line = None.
Proof.
  destruct (find_start label 0 lines) as [n|] eqn:Hn.
  - apply find_start_Some in Hn as (s & -> & Hs).
    rewrite (parse_objdump_unfold _ _ _ _ Hs), scan_block_None. split.
    + intros [_ Hnone] i line Hin Hi.
      apply (in_block_drop _ _ _ _ Hs) in Hin as (i' & -> & Hb).
      apply (Hnone i' line); [|done]. by rewrite lookup_drop.
    + intros Hnone. split; [done|]. intros j line' Hj Hbj.
      rewrite lookup_drop in Hj. apply (Hnone (S s + j)%nat line'); [|done].
      apply (in_block_drop _ _ _ _ Hs). eauto.
  - assert (Hno : ∀ s, ¬ first_label label lines s).
    { intros s Hs. assert (find_start label 0 lines = Some (S s)); [|congruence].
      apply find_start_Some. eauto. }
    rewrite (parse_objdump_no_label _ _ _ Hno). split; [|done].
    intros _ i line (s & Hs & _). by destruct (Hno s).
Qed.

(** ** The disassembly scanner: the claims *)

Lemma mem_spec x xs : Py.mem x xs = true ↔ x ∈ xs.
Proof.
  unfold Py.mem. rewrite existsb_exists. split.
  - intros (y & Hy & Heq). apply String.eqb_eq in Heq as ->.
    by apply list_elem_of_In.
  - intros Hx. exists x. split; [by apply list_elem_of_In|].
    apply String.eqb_refl.
Qed.

(** What the guards of [last_pc = pc] accept. *)
Lemma candidate_write_spec rd_num i :
  candidate_write rd_num i = true
  ↔ ∃ op0 ops,
      i_ops i = op0 :: ops
      ∧ (op0 = ("x" ++ Py.str rd_num)%string ∨ abi_map rd_num = Some op0)
      ∧ (i_mnem i ∉ store_branch_mnems)
      ∧ (i_mnem i ∈ write_mnems
         ∨ Py.startswith (list_ascii_of_string "c.")
             (list_ascii_of_string (i_mnem i)) = true).
Proof.
  unfold candidate_write, ok_rd. destruct (i_ops i) as [|op0 ops].
  { split; [done|]. by intros (? & ? & ? & _). }
  assert (Hrd : String.eqb op0 ("x" ++ Py.str rd_num)
                || match abi_map rd_num with
                   | Some a => String.eqb a op0
                   | None => false
                   end = true
                ↔ op0 = ("x" ++ Py.str rd_num)%string
                  ∨ abi_map rd_num = Some op0).
  { rewrite orb_true_iff, String.eqb_eq.
    destruct (abi_map rd_num) as [a|]; [rewrite String.eqb_eq|].
    - split; (intros [?|?]; [by left|right; congruence]).
    - split; (intros [?|?]; [by left|done]). }
  assert (Hst : negb (Py.mem (i_mnem i) store_branch_mnems) = true
                ↔ i_mnem i ∉ store_branch_mnems).
  { rewrite negb_true_iff, <- mem_spec.
    by destruct (Py.mem (i_mnem i) store_branch_mnems). }
  split.
  - intros H. exists op0, ops. split; [done|].
    destruct (_ && _) eqn:Hguard in H; [|done].
    apply andb_true_iff in Hguard as [H1 H2].
    apply orb_true_iff in H. rewrite mem_spec in H.
    split; [by apply Hrd|]. split; [by apply Hst|done].
  - intros (op0' & ops' & [= <- <-] & H1 & H2 & H3).
    apply Hrd in H1. apply Hst in H2. rewrite H1, H2. cbn [andb].
    apply orb_true_iff. by rewrite mem_spec.
Qed.

(** C6, where the code departs from the claim: the compressed store
    [c.swsp t0,12(sp)] is read as an instruction whose first operand is [t0],
    its mnemonic is none of the nine excluded ones and starts with [c.], so
    it is a candidate write to register 5, and the scan of a block that ends
    with it returns the pc of the store. *)
Theorem compressed_store_is_candidate :
  parse_insn (Sample.ins "38" "c616" "c.swsp" "t0,12(sp)")
  = Some {| i_pc := 0x38; i_mnem := "c.swsp"; i_ops := ["t0"; "12(sp)"] |}
  ∧ candidate_write 5
      {| i_pc := 0x38; i_mnem := "c.swsp"; i_ops := ["t0"; "12(sp)"] |}
    = true
  ∧ parse_objdump_for_final_reg_pc (Some Sample.store_listing) "L_LI_T0" 5
    = Some 0x38.
Proof. repeat split; vm_compute; reflexivity. Qed.

(** ** The last write of a block, against the specification *)

Lemma denotes_ok_rd rd op0 :
  Spec.denotes rd op0
  ↔ op0 = ("x" ++ Py.str rd)%string ∨ abi_map rd = Some op0.
Proof.
  unfold Spec.denotes, Spec.alias_table, abi_map.
  rewrite !elem_of_cons, elem_of_nil. split.
  - intros [->|[H|[H|[H|[H|[]]]]]]; [by left|..]; injection H as -> ->;
      by right.
  - intros [->|H]; [by left|]. right.
    destruct (Z.eqb_spec rd 5) as [->|?]; [injection H as <-; auto|].
    destruct (Z.eqb_spec rd 6) as [->|?]; [injection H as <-; auto|].
    destruct (Z.eqb_spec rd 7) as [->|?]; [injection H as <-; auto|].
    destruct (Z.eqb_spec rd 28) as [->|?]; [injection H as <-; auto 10|].
    done.
Qed.

Lemma allow_list_write_mnems m : m ∈ Spec.allow_list ↔ m ∈ write_mnems.
Proof.
  rewrite <- !mem_spec. unfold Py.mem, Spec.allow_list, write_mnems.
  cbn [existsb]. rewrite !orb_true_iff. tauto.
Qed.

Lemma compressed_allowed_prefix m :
  Spec.compressed_allowed m →
  Py.startswith (list_ascii_of_string "c.") (list_ascii_of_string m) = true.
Proof. by intros (op & _ & ->). Qed.

(** What the specification calls a candidate, the code accepts. *)
Lemma spec_candidate_accepted rd i :
  Spec.candidate rd i → candidate_write rd i = true.
Proof.
  intros (op0 & ops & Hops & Hden & Hst & Hal).
  apply candidate_write_spec. exists op0, ops.
  split; [done|]. split; [by apply denotes_ok_rd|]. split; [exact Hst|].
  destruct Hal as [Hal|Hc]; [left; by apply allow_list_write_mnems|].
  right. by apply compressed_allowed_prefix.
Qed.

(** What the code accepts is a candidate of the specification, but for a
    mnemonic that only starts with [c.]. *)
Lemma accepted_spec_candidate rd i :
  (∀ op0 ops, i_ops i = op0 :: ops → Spec.denotes rd op0 →
     Py.startswith (list_ascii_of_string "c.")
       (list_ascii_of_string (i_mnem i)) = true →
     Spec.compressed_allowed (i_mnem i)) →
  candidate_write rd i = true → Spec.candidate rd i.
Proof.
  intros Hclean H. apply candidate_write_spec in H
    as (op0 & ops & Hops & Hden & Hst & Hal).
  apply denotes_ok_rd in Hden. exists op0, ops.
  split; [done|]. split; [done|]. split; [exact Hst|].
  destruct Hal as [Hal|Hc]; [left; by apply allow_list_write_mnems|].
  right. by apply (Hclean op0 ops).
Qed.

Lemma write_pc_candidate_line rd line pc :
  (∀ i op0 ops, parse_insn line = Some i → i_ops i = op0 :: ops →
     Spec.denotes rd op0 →
     Py.startswith (list_ascii_of_string "c.")
       (list_ascii_of_string (i_mnem i)) = true →
     Spec.compressed_allowed (i_mnem i)) →
  write_pc rd line = Some pc ↔ Spec.candidate_line rd line pc.
Proof.
  intros Hclean. unfold write_pc, Spec.candidate_line.
  destruct (parse_insn line) as [i|] eqn:Hi.
  - split.
    + destruct (candidate_write rd i) eqn:Hc; [|done]. intros [= <-].
      exists i. split; [done|]. split; [|done].
      apply accepted_spec_candidate; [|done]. intros op0 ops. by apply Hclean.
    + intros (i' & [= <-] & Hc & <-).
      by rewrite (spec_candidate_accepted _ _ Hc).
  - split; [done|]. by intros (i' & ? & _).
Qed.

Lemma write_pc_no_candidate rd line :
  (∀ i op0 ops, parse_insn line = Some i → i_ops i = op0 :: ops →
     Spec.denotes rd op0 →
     Py.startswith (list_ascii_of_string "c.")
       (list_ascii_of_string (i_mnem i)) = true →
     Spec.compressed_allowed (i_mnem i)) →
  write_pc rd line = None ↔ ∀ pc, ¬ Spec.candidate_line rd line pc.
Proof.
  intros Hclean. split.
  - intros Hnone pc Hc. apply (write_pc_candidate_line _ _ _ Hclean) in Hc.
    congruence.
  - intros Hno. destruct (write_pc rd line) as [pc|] eqn:Hpc; [|done].
    apply (write_pc_candidate_line _ _ _ Hclean) in Hpc. by destruct (Hno pc).
Qed.

Lemma store_listing_block n :
  in_block "L_LI_T0" Sample.store_listing n ↔ (1 ≤ n ≤ 3)%nat.
Proof.
  assert (H0 : first_label "L_LI_T0" Sample.store_listing 0).
  { split.
    - eexists. split; [reflexivity|]. vm_compute. reflexivity.
    - intros j line Hj. lia. }
  split.
  - intros (s & Hs & Hlt & Hb).
    rewrite <- (first_label_unique _ _ _ _ H0 Hs) in *.
    split; [lia|]. destruct (decide (n ≤ 3)%nat) as [|Hgt]; [done|].
    exfalso.
    assert (Hh : Re.matches next_label_re
                   (Sample.hdr "0000003a" "L_LI_T1") = false).
    { apply (Hb 4%nat); [lia|reflexivity]. }
    vm_compute in Hh. discriminate.
  - intros Hn. exists 0%nat. split; [exact H0|]. split; [lia|].
    intros m line Hm. destruct m as [|[|[|[|m]]]]; try lia;
      intros [= <-]; vm_compute; reflexivity.
Qed.

(** C5, where the code departs from the claim. The scanner returns nothing
    without a listing and when no line introduces the label. In a block
    whose mnemonics starting with [c.] are compressed variants of allowed
    operations, it returns the pc of the candidate write of the
    specification with the largest line position, and nothing exactly when
    the block holds no candidate. But in the block of [L_LI_T0] followed by
    the compressed store [c.swsp t0,12(sp)], where the two writes of [t0]
    are the [lui] at 0x30 and the [addi] at 0x34 and the [addi] is the last
    candidate, the scanner returns 0x38, the pc of the store. *)
Theorem last_candidate_in_block :
  (∀ label rd_num,
     parse_objdump_for_final_reg_pc None label rd_num = None
     ∧ ∀ lines,
         let result :=
           parse_objdump_for_final_reg_pc (Some lines) label rd_num in
         ((∀ line, line ∈ lines →
                   Re.matches (label_re label) line = false) →
          result = None)
         ∧ (Spec.compressed_are_allowed lines label rd_num →
            (∀ pc, result = Some pc ↔ Spec.last_write lines label rd_num pc)
            ∧ (result = None ↔ Spec.no_write lines label rd_num)))
  ∧ Spec.candidate_line 5 (Sample.ins "30" "123452b7" "lui" "t0,0x12345") 0x30
  ∧ Spec.last_write Sample.store_listing "L_LI_T0" 5 0x34
  ∧ parse_objdump_for_final_reg_pc (Some Sample.store_listing) "L_LI_T0" 5
    = Some 0x38.
Proof.
  split; [|split; [|split]].
  - intros label rd_num. split; [done|]. intros lines result. subst result.
    split.
    { intros Hno. apply parse_objdump_no_label.
      intros s [(line & Hl & Hm) _]. rewrite Hno in Hm; [done|].
      by eapply list_elem_of_lookup_2. }
    intros Hclean.
    assert (Hline : ∀ n line, in_block label lines n → lines !! n = Some line →
              ∀ i op0 ops, parse_insn line = Some i → i_ops i = op0 :: ops →
                Spec.denotes rd_num op0 →
                Py.startswith (list_ascii_of_string "c.")
                  (list_ascii_of_string (i_mnem i)) = true →
                Spec.compressed_allowed (i_mnem i)).
    { intros n line Hin Hn i op0 ops. by apply (Hclean n line). }
    split.
    + intros pc. rewrite parse_objdump_Some. split.
      * intros (n & line & Hin & Hn & Hpc & Hlast).
        exists n, line. split; [done|]. split; [done|]. split.
        -- by apply (write_pc_candidate_line _ _ _ (Hline n line Hin Hn)).
        -- intros m line' pc' Hm Hinm Hlm.
           by apply (write_pc_no_candidate _ _ (Hline m line' Hinm Hlm)),
                    (Hlast m line').
      * intros (n & line & Hin & Hn & Hpc & Hlast).
        exists n, line. split; [done|]. split; [done|]. split.
        -- by apply (write_pc_candidate_line _ _ _ (Hline n line Hin Hn)).
        -- intros m line' Hm Hinm Hlm.
           apply (write_pc_no_candidate _ _ (Hline m line' Hinm Hlm)).
           intros pc'. by apply (Hlast m line' pc').
    + rewrite parse_objdump_None. split.
      * intros Hnone n line pc Hin Hn.
        by apply (write_pc_no_candidate _ _ (Hline n line Hin Hn)),
                 (Hnone n line).
      * intros Hnone n line Hin Hn.
        apply (write_pc_no_candidate _ _ (Hline n line Hin Hn)).
        intros pc. by apply (Hnone n line pc).
  - eexists. split; [vm_compute; reflexivity|]. split; [|reflexivity].
    exists "t0"%string, ["0x12345"%string]. split; [reflexivity|].
    split; [right; unfold Spec.alias_table; rewrite !elem_of_cons; auto|].
    split; [rewrite <- mem_spec; vm_compute; congruence|].
    left. rewrite <- mem_spec. vm_compute. reflexivity.
  - exists 2%nat, (Sample.ins "34" "67828293" "addi" "t0,t0,1656").
    split; [apply store_listing_block; lia|]. split; [reflexivity|]. split.
    + eexists. split; [vm_compute; reflexivity|]. split; [|reflexivity].
      exists "t0"%string, ["t0"; "1656"]%string. split; [reflexivity|].
      split; [right; unfold Spec.alias_table; rewrite !elem_of_cons; auto|].
      split; [rewrite <- mem_spec; vm_compute; congruence|].
      left. rewrite <- mem_spec. vm_compute. reflexivity.
    + intros m line' pc' Hm Hin Hl. apply store_listing_block in Hin.
      assert (m = 3%nat) as -> by lia. injection Hl as <-.
      intros (i & Hi & (op0 & ops & _ & _ & _ & Hal) & _).
      vm_compute in Hi. injection Hi as <-. cbn [i_mnem] in Hal.
      destruct Hal as [Hal|(op & Hop & Heq)].
      * rewrite <- mem_spec in Hal. vm_compute in Hal. discriminate.
      * injection Heq as Heq. cbv [String.append] in Heq. subst op.
        rewrite <- mem_spec in Hop. vm_compute in Hop. discriminate.
  - vm_compute. reflexivity.
Qed.

Lemma last_candidate_in_block_witness :
  Spec.last_write Sample.listing "L_LI_T0" 5 0x34.
Proof.
  destruct last_candidate_in_block as [Hgen _].
  destruct (Hgen "L_LI_T0"%string 5) as [_ Hlines].
  destruct (Hlines Sample.listing) as [_ Hclean].
  apply Hclean; [|vm_compute; reflexivity].
  intros n line i op0 ops Hin Hn Hi Hops Hden Hc. exfalso.
  destruct n as [|[|[|[|[|[|[|[|[|[|[|[|[|n]]]]]]]]]]]]];
    try (injection Hn as <-; vm_compute in Hi; try discriminate;
         injection Hi as <-; vm_compute in Hc; discriminate).
  done.
Defined.

(** ** The pc of an instruction line is always a hexadecimal numeral

    [int(m.group(1), 16)] cannot raise: group 1 of [insn_re] is a non-empty
    run of hexadecimal digits. *)

Lemma backtrack_Some {R} lo n (k : nat → option R) r :
  (lo ≤ n)%nat → Re.backtrack lo n k = Some r →
  ∃ m, (lo ≤ m ≤ n)%nat ∧ k m = Some r.
Proof.
  induction n as [|n IH]; intros Hlo; simpl.
  - destruct (k 0%nat) eqn:Hk; [|done]. intros [= ->]. exists 0%nat.
    split; [lia|done].
  - destruct (k (S n)) eqn:Hk.
    + intros [= ->]. exists (S n). split; [lia|done].
    + destruct (Nat.ltb_spec n lo); [done|]. intros Hb.
      destruct (IH ltac:(lia) Hb) as (m & Hm & Hkm).
      exists m. split; [lia|done].
Qed.

Lemma greedy_Some {R} lo p s (k : nat → option R) r :
  Re.greedy lo p s k = Some r →
  ∃ m, (lo ≤ m ≤ Re.run_length p s)%nat ∧ k m = Some r.
Proof.
  unfold Re.greedy. destruct (Nat.ltb_spec (Re.run_length p s) lo); [done|].
  by apply backtrack_Some.
Qed.

Lemma run_length_take p s m :
  (m ≤ Re.run_length p s)%nat →
  forallb p (take m s) = true ∧ length (take m s) = m.
Proof.
  revert m. induction s as [|c s IH]; intros m; simpl.
  - intros Hm. assert (m = 0%nat) as -> by lia. done.
  - destruct m as [|m]; [done|]. destruct (p c) eqn:Hc; [|lia].
    intros Hm. destruct (IH m ltac:(lia)) as [Hall Hlen].
    simpl. rewrite Hc, Hall, Hlen. done.
Qed.

Lemma run_groups_prefix its pos rest opened groups gs :
  Re.run its pos rest opened groups = Some gs → groups `prefix_of` gs.
Proof.
  revert pos rest opened groups.
  induction its as [|it its IH]; intros pos rest opened groups; simpl.
  - by intros [= ->].
  - destruct it.
    + case_match; [apply IH|done].
    + repeat case_match; try done; apply IH.
    + intros H. apply greedy_Some in H as (m & _ & H). by eapply IH.
    + intros H. apply greedy_Some in H as (m & _ & H). by eapply IH.
    + case_match; [apply IH|done].
    + apply IH.
    + destruct opened as [|b opened]; [done|]. intros H. apply IH in H.
      etrans; [|exact H]. by apply prefix_app_r.
Qed.

Lemma run_first_group p q its s gs :
  Re.run (Re.Bol :: Re.Star p :: Re.Open :: Re.Plus q :: Re.Close :: its)
    0 s [] [] = Some gs →
  ∃ n m gs',
    (1 ≤ m ≤ Re.run_length q (drop n s))%nat ∧ gs = (n, (n + m)%nat) :: gs'.
Proof.
  cbn [Re.run Nat.eqb]. intros Hrun.
  apply greedy_Some in Hrun as (n & _ & Hrun).
  apply greedy_Some in Hrun as (m & Hm & Hrun).
  apply run_groups_prefix in Hrun as [gs' ->].
  exists n, m, gs'. done.
Qed.

Lemma parse_insn_pc line i :
  parse_insn line = Some i →
  ∃ digits,
    digits ≠ [] ∧ forallb Re.xdigit digits = true
    ∧ i_pc i = Py.int16 digits.
Proof.
  unfold parse_insn, Re.rmatch.
  destruct (Re.run insn_re 0 (list_ascii_of_string line) [] [])
    as [gs|] eqn:Hrun; [|done].
  apply run_first_group in Hrun as (n & m & gs' & Hm & ->).
  cbn [map]. replace (n + m - n)%nat with m by lia.
  destruct (run_length_take Re.xdigit
              (drop n (list_ascii_of_string line)) m ltac:(lia))
    as [Hall Hlen].
  destruct (map _ gs') as [|g2 [|g3 [|g4 gs'']]]; try done.
  intros [= <-]. simpl.
  exists (take m (drop n (list_ascii_of_string line))).
  split; [|done]. intros Hnil. rewrite Hnil in Hlen. simpl in Hlen. lia.
Qed.

(** ** Numerals: [int(s, 16)] and [hex(n)] *)

Lemma xdigit_not_int_space c :
  Re.xdigit c = true → PyText.int_space c = false.
Proof.
  destruct c as [[] [] [] [] [] [] [] []]; vm_compute; congruence.
Qed.

Lemma xdigit_not_space c : Re.xdigit c = true → Py.is_space c = false.
Proof.
  destruct c as [[] [] [] [] [] [] [] []]; vm_compute; congruence.
Qed.

Lemma xdigit_not_special c :
  Re.xdigit c = true →
  Ascii.eqb c "_" = false ∧ Ascii.eqb c "-" = false
  ∧ Ascii.eqb c "+" = false ∧ Ascii.eqb c "x" = false
  ∧ Ascii.eqb c "X" = false.
Proof.
  destruct c as [[] [] [] [] [] [] [] []]; vm_compute; intuition congruence.
Qed.

Lemma hex_digit_nonneg c d : Py.hex_digit c = Some d → 0 ≤ d < 16.
Proof.
  destruct c as [[] [] [] [] [] [] [] []]; vm_compute; intros [= <-];
    split; congruence.
Qed.

Lemma int16_from_nonneg s acc :
  0 ≤ acc → 0 ≤ fold_left (λ acc c, 16 * acc + default 0 (Py.hex_digit c)) s acc.
Proof.
  revert acc. induction s as [|c s IH]; intros acc Hacc; simpl; [done|].
  apply IH. destruct (Py.hex_digit c) as [d|] eqn:Hd; simpl; [|lia].
  apply hex_digit_nonneg in Hd. lia.
Qed.

Lemma int16_nonneg s : 0 ≤ Py.int16 s.
Proof. by apply int16_from_nonneg. Qed.

Lemma digits16_hex st acc s :
  forallb Re.xdigit s = true → s ≠ [] ∨ st = PyText.Digit →
  PyText.digits16 st acc s
  = Some (fold_left (λ acc c, 16 * acc + default 0 (Py.hex_digit c)) s acc).
Proof.
  revert st acc. induction s as [|c s IH]; intros st acc Hall Hne; simpl.
  - destruct Hne as [?| ->]; done.
  - simpl in Hall. apply andb_true_iff in Hall as [Hc Hall].
    destruct (xdigit_not_special c Hc) as (-> & _).
    unfold Re.xdigit in Hc. destruct (Py.hex_digit c) as [d|]; [|done].
    simpl. apply IH; auto.
Qed.

Lemma lstrip_int_id s :
  match s with c :: _ => PyText.int_space c = false | [] => True end →
  PyText.lstrip_int s = s.
Proof. destruct s as [|c s]; simpl; [done|]. by intros ->. Qed.

Lemma strip_int_id s :
  match s with c :: _ => PyText.int_space c = false | [] => True end →
  match rev s with c :: _ => PyText.int_space c = false | [] => True end →
  PyText.strip_int s = s.
Proof.
  intros Hfirst Hlast. unfold PyText.strip_int.
  rewrite (lstrip_int_id s Hfirst), (lstrip_int_id (rev s) Hlast).
  apply rev_involutive.
Qed.

Lemma forallb_head {A} (p : A → bool) (s : list A) :
  forallb p s = true →
  match s with c :: _ => p c = true | [] => True end.
Proof. destruct s; simpl; [done|]. by intros [? _]%andb_true_iff. Qed.

Lemma forallb_rev {A} (p : A → bool) (s : list A) :
  forallb p s = true → forallb p (rev s) = true.
Proof.
  rewrite !forallb_forall. intros H x Hx. apply H. by apply in_rev.
Qed.

(** On a non-empty string of hexadecimal digits [int(s, 16)] does not raise
    and returns the positional value the scanner and the log parsers use. *)
Lemma int16_full_hex s :
  s ≠ [] → forallb Re.xdigit s = true →
  PyText.int16_full s = Some (Py.int16 s).
Proof.
  intros Hne Hall. unfold PyText.int16_full.
  rewrite strip_int_id.
  - destruct s as [|c s]; [done|].
    simpl in Hall. apply andb_true_iff in Hall as [Hc Hall].
    destruct (xdigit_not_special c Hc) as (_ & -> & -> & _).
    assert (Hpre : match c :: s with
                   | z :: x :: r =>
                       if Ascii.eqb z "0"
                          && (Ascii.eqb x "x" || Ascii.eqb x "X")
                       then match r with
                            | u :: r' => if Ascii.eqb u "_" then r' else r
                            | [] => r
                            end
                       else c :: s
                   | _ => c :: s
                   end = c :: s).
    { destruct s as [|x r]; [done|]. simpl in Hall.
      apply andb_true_iff in Hall as [Hx _].
      destruct (xdigit_not_special x Hx) as (_ & _ & _ & -> & ->).
      by rewrite andb_false_r. }
    rewrite Hpre, digits16_hex; [done| |by left].
    simpl. by rewrite Hc, Hall.
  - pose proof (forallb_head _ _ Hall) as H. destruct s; [done|].
    by apply xdigit_not_int_space.
  - pose proof (forallb_head _ _ (forallb_rev _ _ Hall)) as H.
    destruct (rev s); [done|]. by apply xdigit_not_int_space.
Qed.

Lemma hex_chars_xdigit d :
  forallb Re.xdigit
    (list_ascii_of_string (HexadecimalString.NilEmpty.string_of_uint d))
  = true.
Proof. induction d; simpl; [done|..]; exact IHd. Qed.

Lemma hex_chars_acc d acc :
  fold_left (λ acc c, 16 * acc + default 0 (Py.hex_digit c))
    (list_ascii_of_string (HexadecimalString.NilEmpty.string_of_uint d))
    (Z.pos acc)
  = Z.pos (Pos.of_hex_uint_acc d acc).
Proof.
  revert acc. induction d; intros acc; [done|..];
    cbn [HexadecimalString.NilEmpty.string_of_uint list_ascii_of_string
         fold_left Pos.of_hex_uint_acc];
    rewrite <- IHd; f_equal; vm_compute; reflexivity.
Qed.

Lemma hex_chars_value d :
  fold_left (λ acc c, 16 * acc + default 0 (Py.hex_digit c))
    (list_ascii_of_string (HexadecimalString.NilEmpty.string_of_uint d)) 0
  = Z.of_N (Pos.of_hex_uint d).
Proof.
  induction d; [done|exact IHd|..];
    cbn [HexadecimalString.NilEmpty.string_of_uint list_ascii_of_string
         fold_left Pos.of_hex_uint];
    apply (hex_chars_acc d).
Qed.

(** The digits [format(n, "x")] prints for [n >= 0]: a non-empty string of
    hexadecimal digits whose value is [n]. *)
Lemma hex_digits n :
  0 ≤ n →
  list_ascii_of_string (Py.hex n) ≠ []
  ∧ forallb Re.xdigit (list_ascii_of_string (Py.hex n)) = true
  ∧ Py.int16 (list_ascii_of_string (Py.hex n)) = n.
Proof.
  intros Hn. unfold Py.hex, Py.int16. destruct n as [|p|p]; [done| |lia].
  cbn [Z.to_hex_int HexadecimalString.NilZero.string_of_int].
  unfold HexadecimalString.NilZero.string_of_uint.
  pose proof (HexadecimalPos.Unsigned.to_uint_nonnil p) as Hnil.
  pose proof (HexadecimalPos.Unsigned.of_to p) as Hval.
  destruct (Pos.to_hex_uint p) as [| | | | | | | | | | | | | | | | ] eqn:Hd;
    [done|..];
    (split; [done|]); (split; [apply (hex_chars_xdigit (_ u))|]);
    rewrite (hex_chars_value (_ u)), Hval; reflexivity.
Qed.

Lemma list_ascii_of_string_app a b :
  list_ascii_of_string (a ++ b)
  = list_ascii_of_string a ++ list_ascii_of_string b.
Proof. induction a as [|c a IH]; simpl; [done|]. by rewrite IH. Qed.

Lemma rev_app_head_ok {A} (P : A → Prop) (pre d : list A) :
  d ≠ [] → (∀ c, c ∈ d → P c) →
  match rev (pre ++ d) with c :: _ => P c | [] => True end.
Proof.
  intros Hne Hall. rewrite rev_app_distr.
  destruct (rev d) as [|c r] eqn:Hr.
  - apply (f_equal (@rev A)) in Hr. rewrite rev_involutive in Hr. done.
  - simpl. apply Hall. apply list_elem_of_In, in_rev. rewrite Hr. by left.
Qed.

Lemma forallb_elem_of {A} (p : A → bool) (s : list A) c :
  forallb p s = true → c ∈ s → p c = true.
Proof.
  rewrite forallb_forall. intros H Hc. apply H. by apply list_elem_of_In.
Qed.

(** X19. What [run_runner] passes as [--tohost] reads back as the address:
    [int(hex(n), 16) == n] for every integer, negative ones included. *)
Theorem int_of_hex_repr (n : Z) :
  PyText.int16_full (list_ascii_of_string (PyText.hex_repr n)) = Some n.
Proof.
  unfold PyText.hex_repr. rewrite list_ascii_of_string_app.
  destruct (hex_digits (Z.abs n) (Z.abs_nonneg n)) as (Hne & Hall & Hval).
  set (d := list_ascii_of_string (Py.hex (Z.abs n))) in *.
  assert (Hlast : ∀ pre, match rev (pre ++ d) with
                         | c :: _ => PyText.int_space c = false
                         | [] => True
                         end).
  { intros pre. apply rev_app_head_ok; [done|]. intros c Hc.
    apply xdigit_not_int_space. by eapply forallb_elem_of. }
  assert (Hbody : ∀ u r, d = u :: r →
            (if Ascii.eqb u "_" then r else d) = d).
  { intros u r Hd. assert (Hu : Re.xdigit u = true).
    { eapply forallb_elem_of; [exact Hall|]. rewrite Hd. by left. }
    by destruct (xdigit_not_special u Hu) as (-> & _). }
  unfold PyText.int16_full. destruct (Z.ltb_spec n 0).
  - simpl list_ascii_of_string. rewrite strip_int_id; [|done|apply Hlast].
    cbn [app Ascii.eqb Bool.eqb andb orb].
    destruct d as [|u r] eqn:Hd; [done|]. rewrite (Hbody u r eq_refl).
    rewrite digits16_hex; [|done|by left]. fold (Py.int16 (u :: r)).
    rewrite Hval. f_equal. lia.
  - simpl list_ascii_of_string. rewrite strip_int_id; [|done|apply Hlast].
    cbn [app Ascii.eqb Bool.eqb andb orb].
    destruct d as [|u r] eqn:Hd; [done|]. rewrite (Hbody u r eq_refl).
    rewrite digits16_hex; [|done|by left]. fold (Py.int16 (u :: r)).
    rewrite Hval. f_equal. lia.
Qed.

(** ** [str.split()] and [str.strip()] *)

Lemma split_ws_all_space ws :
  forallb Py.is_space ws = true → PyText.split_ws ws = [].
Proof.
  induction ws as [|c ws IH]; simpl; [done|].
  intros [-> Hws]%andb_true_iff. auto.
Qed.

Lemma split_ws_lead ws s :
  forallb Py.is_space ws = true →
  PyText.split_ws (ws ++ s) = PyText.split_ws s.
Proof.
  induction ws as [|c ws IH]; simpl; [done|].
  intros [-> Hws]%andb_true_iff. auto.
Qed.

Lemma split_ws_unfold s :
  PyText.split_ws s
  = match s with
    | [] => []
    | c :: r =>
        if Py.is_space c then PyText.split_ws r
        else match r with
             | [] => [[c]]
             | c' :: _ =>
                 if Py.is_space c' then [c] :: PyText.split_ws r
                 else match PyText.split_ws r with
                      | t :: ts => (c :: t) :: ts
                      | [] => [[c]]
                      end
             end
    end.
Proof. by destruct s. Qed.

Lemma split_ws_token t rest :
  t ≠ [] → forallb (λ c, negb (Py.is_space c)) t = true →
  match rest with c :: _ => Py.is_space c = true | [] => True end →
  PyText.split_ws (t ++ rest) = t :: PyText.split_ws rest.
Proof.
  intros Hne Hall Hrest. induction t as [|c t IH]; [done|].
  simpl in Hall. apply andb_true_iff in Hall as [Hc Hall].
  apply negb_true_iff in Hc. destruct t as [|c2 t].
  - simpl. rewrite Hc. destruct rest as [|sp rest]; [done|].
    by rewrite Hrest.
  - change ((c :: c2 :: t) ++ rest) with (c :: ((c2 :: t) ++ rest)).
    rewrite split_ws_unfold, Hc.
    pose proof Hall as Hall2. simpl in Hall2.
    apply andb_true_iff in Hall2 as [Hc2 _]. apply negb_true_iff in Hc2.
    change ((c2 :: t) ++ rest) with (c2 :: (t ++ rest)) at 1.
    cbv iota. rewrite Hc2. by rewrite IH.
Qed.

Lemma split_ws_app_space s ws :
  forallb Py.is_space ws = true →
  PyText.split_ws (s ++ ws) = PyText.split_ws s.
Proof.
  intros Hws. induction s as [|c s IH].
  - simpl. by apply split_ws_all_space.
  - change ((c :: s) ++ ws) with (c :: (s ++ ws)).
    rewrite (split_ws_unfold (c :: (s ++ ws))),
      (split_ws_unfold (c :: s)).
    destruct (Py.is_space c); [done|]. destruct s as [|c' s].
    + simpl. destruct ws as [|sp ws]; [done|]. simpl in Hws.
      apply andb_true_iff in Hws as [-> Hws].
      change ([] ++ sp :: ws) with (sp :: ws) in IH. by rewrite IH.
    + change ((c' :: s) ++ ws) with (c' :: (s ++ ws)) in *.
      cbv iota. by rewrite IH.
Qed.

Lemma lstrip_decomp s :
  ∃ ws, forallb Py.is_space ws = true ∧ s = ws ++ Py.lstrip s.
Proof.
  induction s as [|c s (ws & Hws & Hs)]; simpl.
  - by exists [].
  - destruct (Py.is_space c) eqn:Hc.
    + exists (c :: ws). simpl. rewrite Hc, Hws. split; [done|]. by f_equal.
    + by exists [].
Qed.

(** The [strip()] before [split()] in [parse_nm] changes nothing. *)
Lemma split_ws_strip s :
  PyText.split_ws (Py.strip s) = PyText.split_ws s.
Proof.
  unfold Py.strip.
  destruct (lstrip_decomp s) as (ws1 & Hws1 & Hs).
  destruct (lstrip_decomp (rev (Py.lstrip s))) as (ws2 & Hws2 & Hr).
  apply (f_equal (@rev ascii)) in Hr.
  rewrite rev_involutive, rev_app_distr in Hr.
  rewrite Hs at 2. rewrite split_ws_lead by done.
  rewrite Hr at 2. rewrite split_ws_app_space; [done|].
  by apply forallb_rev.
Qed.

(** ** The symbol table: [parse_nm] *)

Lemma nm_entry_tokens line :
  nm_entry line
  = match PyText.split_ws (list_ascii_of_string line) with
    | addr_hex :: typ :: name :: _ =>
        match PyText.int16_full addr_hex with
        | Some addr => Some (string_of_list_ascii name, addr)
        | None => None
        end
    | _ => None
    end.
Proof. unfold nm_entry. by rewrite split_ws_strip. Qed.

Lemma parse_nm_loop_lookup lines syms name :
  parse_nm_loop lines syms !! name
  = match parse_nm_loop lines ∅ !! name with
    | Some a => Some a
    | None => syms !! name
    end.
Proof.
  revert syms. induction lines as [|line lines IH]; intros syms; simpl.
  - by rewrite lookup_empty.
  - rewrite IH. rewrite (IH (match nm_entry line with
                             | Some (n, a) => <[n:=a]> ∅
                             | None => ∅
                             end)).
    destruct (parse_nm_loop lines ∅ !! name); [done|].
    destruct (nm_entry line) as [[n a]|]; [|by rewrite lookup_empty].
    destruct (decide (n = name)) as [->|Hne].
    + by rewrite !lookup_insert_eq.
    + by rewrite !lookup_insert_ne, lookup_empty.
Qed.

Lemma parse_nm_cons line lines name :
  parse_nm (line :: lines) !! name
  = match parse_nm lines !! name with
    | Some a => Some a
    | None =>
        match nm_entry line with
        | Some (n, a) => if decide (n = name) then Some a else None
        | None => None
        end
    end.
Proof.
  unfold parse_nm. simpl. rewrite parse_nm_loop_lookup.
  destruct (parse_nm_loop lines ∅ !! name); [done|].
  destruct (nm_entry line) as [[n a]|]; [|by rewrite lookup_empty].
  case_decide; subst.
  - by rewrite lookup_insert_eq.
  - by rewrite lookup_insert_ne, lookup_empty.
Qed.


Lemma parse_nm_None lines name :
  parse_nm lines !! name = None
  ↔ ∀ line a, line ∈ lines → nm_entry line ≠ Some (name, a).
Proof.
  induction lines as [|l lines IH].
  - split; [|done]. intros _ line a Hin. by apply elem_of_nil in Hin.
  - rewrite parse_nm_cons. split.
    + intros H line a Hin. destruct (parse_nm lines !! name) eqn:Hrest;
        [done|]. apply elem_of_cons in Hin as [->|Hin].
      * destruct (nm_entry l) as [[n a0]|]; [|done].
        case_decide; [done|]. congruence.
      * by apply IH.
    + intros H. assert (parse_nm lines !! name = None) as ->.
      { apply IH. intros line a Hin. apply H. by right. }
      destruct (nm_entry l) as [[n a0]|] eqn:He; [|done].
      case_decide; [|done]. subst. by destruct (H l a0 ltac:(by left)).
Qed.

Lemma parse_nm_app_lookup l1 l2 name :
  parse_nm (l1 ++ l2) !! name
  = match parse_nm l2 !! name with
    | Some a => Some a
    | None => parse_nm l1 !! name
    end.
Proof.
  induction l1 as [|l l1 IH].
  - simpl. unfold parse_nm at 3. simpl. rewrite lookup_empty.
    by destruct (parse_nm l2 !! name).
  - change ((l :: l1) ++ l2) with (l :: (l1 ++ l2)).
    rewrite !parse_nm_cons, IH.
    by destruct (parse_nm l2 !! name).
Qed.

(** X1. The table maps a name to the address of the last line of the file
    that defines it: duplicates are allowed and the last one wins; a name
    no line defines is absent. *)
Theorem parse_nm_last_wins (lines : list string) (name : string) :
  (∀ a, parse_nm lines !! name = Some a
        ↔ ∃ l1 line l2,
            lines = l1 ++ line :: l2 ∧ nm_entry line = Some (name, a)
            ∧ ∀ line' a', line' ∈ l2 → nm_entry line' ≠ Some (name, a'))
  ∧ (parse_nm lines !! name = None
     ↔ ∀ line a, line ∈ lines → nm_entry line ≠ Some (name, a)).
Proof.
  split; [|apply parse_nm_None]. intros a. split.
  - induction lines as [|l lines IH].
    + unfold parse_nm. simpl. by rewrite lookup_empty.
    + rewrite parse_nm_cons.
      destruct (parse_nm lines !! name) as [a0|] eqn:Hrest.
      * intros [= ->]. destruct (IH eq_refl) as (l1 & line & l2 & -> & He & Hl2).
        by exists (l :: l1), line, l2.
      * intros Hl. destruct (nm_entry l) as [[n a0]|] eqn:He; [|done].
        case_decide; [|done]. subst n. injection Hl as ->.
        exists [], l, lines. split; [done|]. split; [done|].
        by apply parse_nm_None.
  - intros (l1 & line & l2 & -> & He & Hl2).
    rewrite parse_nm_app_lookup, parse_nm_cons.
    apply parse_nm_None in Hl2. rewrite Hl2, He.
    by rewrite decide_True.
Qed.

(** X2. Reading two symbol files one after the other gives the union of
    the two tables, the second file taking precedence. *)
Theorem parse_nm_app (l1 l2 : list string) :
  parse_nm (l1 ++ l2) = parse_nm l2 ∪ parse_nm l1.
Proof.
  apply map_eq. intros name.
  rewrite parse_nm_app_lookup, lookup_union.
  by destruct (parse_nm l2 !! name), (parse_nm l1 !! name).
Qed.

(** X3. A line with fewer than three fields, or whose first field is not
    a numeral [int(., 16)] accepts, is skipped: the table is the same with
    and without it. *)
Theorem parse_nm_skips_noise (l1 l2 : list string) (line : string) :
  (length (PyText.split_ws (list_ascii_of_string line)) < 3)%nat
  ∨ (∃ h rest, PyText.split_ws (list_ascii_of_string line) = h :: rest
               ∧ PyText.int16_full h = None) →
  parse_nm (l1 ++ line :: l2) = parse_nm (l1 ++ l2).
Proof.
  intros Hbad. assert (He : nm_entry line = None).
  { rewrite nm_entry_tokens. destruct Hbad as [Hlen|(h & rest & -> & ->)].
    - destruct (PyText.split_ws _) as [|h [|t [|n r]]]; try done.
      simpl in Hlen. lia.
    - by destruct rest as [|t [|n r]]. }
  apply map_eq. intros name.
  rewrite !parse_nm_app_lookup, parse_nm_cons, He.
  by destruct (parse_nm l2 !! name).
Qed.

Lemma parse_nm_skips_noise_witness :
  parse_nm ["00001000 B tohost"; "         U printf"; "00002000 D g_data0"]%string
  = parse_nm ["00001000 B tohost"; "00002000 D g_data0"]%string.
Proof.
  apply (parse_nm_skips_noise ["00001000 B tohost"%string]
           ["00002000 D g_data0"%string] "         U printf").
  left. vm_compute. lia.
Defined.

(** X4. A line made of an address in hexadecimal digits, a type and a
    name, separated by white space, defines the name at the value of the
    digits. *)
Theorem nm_entry_well_formed (lead h ws1 t ws2 n trail : list ascii) :
  forallb Py.is_space lead = true → forallb Py.is_space trail = true →
  ws1 ≠ [] → forallb Py.is_space ws1 = true →
  ws2 ≠ [] → forallb Py.is_space ws2 = true →
  h ≠ [] → forallb Re.xdigit h = true →
  t ≠ [] → forallb (λ c, negb (Py.is_space c)) t = true →
  n ≠ [] → forallb (λ c, negb (Py.is_space c)) n = true →
  nm_entry (string_of_list_ascii
              (lead ++ h ++ ws1 ++ t ++ ws2 ++ n ++ trail))
  = Some (string_of_list_ascii n, Py.int16 h).
Proof.
  intros Hlead Htrail Hne1 Hws1 Hne2 Hws2 Hh Hhex Ht Htns Hn Hnns.
  rewrite nm_entry_tokens, list_ascii_of_string_of_list_ascii.
  assert (Hstart : ∀ ws rest, ws ≠ [] → forallb Py.is_space ws = true →
            match ws ++ rest with
            | c :: _ => Py.is_space c = true
            | [] => True
            end).
  { intros [|c ws] rest Hne Hall; [done|]. simpl in *.
    by apply andb_true_iff in Hall as [-> _]. }
  rewrite split_ws_lead by done.
  rewrite split_ws_token; [|done| |by apply Hstart].
  2: { apply forallb_forall. intros c Hc. apply negb_true_iff.
       apply xdigit_not_space. rewrite forallb_forall in Hhex. auto. }
  rewrite split_ws_lead by done.
  rewrite split_ws_token; [|done|done|by apply Hstart].
  rewrite split_ws_lead by done.
  rewrite split_ws_token; [|done|done|].
  2: { destruct trail as [|c trail]; [done|]. simpl in Htrail.
       by apply andb_true_iff in Htrail as [-> _]. }
  by rewrite int16_full_hex.
Qed.

Lemma nm_entry_well_formed_witness :
  nm_entry "00001000 B tohost" = Some ("tohost"%string, 0x1000).
Proof.
  apply (nm_entry_well_formed []
           (list_ascii_of_string "00001000") [" "%char]
           (list_ascii_of_string "B") [" "%char]
           (list_ascii_of_string "tohost") []);
    by vm_compute.
Defined.

(** ** Matching a text of known shape *)

Lemma backtrack_top {R} lo n (k : nat → option R) r :
  k n = Some r → Re.backtrack lo n k = Some r.
Proof. intros H. destruct n; simpl; by rewrite H. Qed.

Lemma run_length_app p l rest :
  forallb p l = true →
  match rest with c :: _ => p c = false | [] => True end →
  Re.run_length p (l ++ rest) = length l.
Proof.
  intros Hall Hrest. induction l as [|c l IH]; simpl.
  - destruct rest as [|c rest]; [done|]. simpl. by rewrite Hrest.
  - simpl in Hall. apply andb_true_iff in Hall as [-> Hall]. by rewrite IH.
Qed.

Lemma startswith_app s rest : Py.startswith s (s ++ rest) = true.
Proof.
  induction s as [|c s IH]; simpl; [done|]. by rewrite Ascii.eqb_refl.
Qed.

Lemma run_Lit_fwd s its pos rest opened groups r :
  Re.run its (pos + length s)%nat rest opened groups = Some r →
  Re.run (Re.Lit s :: its) pos (s ++ rest) opened groups = Some r.
Proof.
  intros H. cbn [Re.run]. by rewrite startswith_app, drop_app_length.
Qed.

Lemma run_Plus_fwd p l its pos rest opened groups r :
  l ≠ [] → forallb p l = true →
  match rest with c :: _ => p c = false | [] => True end →
  Re.run its (pos + length l)%nat rest opened groups = Some r →
  Re.run (Re.Plus p :: its) pos (l ++ rest) opened groups = Some r.
Proof.
  intros Hne Hall Hrest H. cbn [Re.run]. unfold Re.greedy.
  rewrite run_length_app by done.
  destruct (Nat.ltb_spec (length l) 1).
  - destruct l; [done|]. simpl in *. lia.
  - apply backtrack_top. by rewrite drop_app_length.
Qed.

Lemma run_group_fwd p l its pos rest opened groups r :
  l ≠ [] → forallb p l = true →
  match rest with c :: _ => p c = false | [] => True end →
  Re.run its (pos + length l)%nat rest opened
    (groups ++ [(pos, (pos + length l)%nat)]) = Some r →
  Re.run (Re.Open :: Re.Plus p :: Re.Close :: its) pos (l ++ rest)
    opened groups = Some r.
Proof.
  intros Hne Hall Hrest H.
  change (Re.run (Re.Plus p :: Re.Close :: its) pos (l ++ rest)
            (pos :: opened) groups = Some r).
  by apply run_Plus_fwd.
Qed.

Lemma take_drop_middle {A} (pre mid post : list A) b e :
  b = length pre → e = (b + length mid)%nat →
  take (e - b) (drop b (pre ++ mid ++ post)) = mid.
Proof.
  intros -> ->. rewrite drop_app_length.
  replace (length pre + length mid - length pre)%nat with (length mid)
    by lia.
  by rewrite take_app_length.
Qed.

Lemma lstrip_app_space ws s :
  forallb Py.is_space ws = true → Py.lstrip (ws ++ s) = Py.lstrip s.
Proof.
  induction ws as [|c ws IH]; simpl; [done|].
  intros [-> Hws]%andb_true_iff. auto.
Qed.

Lemma lstrip_id s :
  match s with c :: _ => Py.is_space c = false | [] => True end →
  Py.lstrip s = s.
Proof. destruct s as [|c s]; simpl; [done|]. by intros ->. Qed.

(** [strip()] removes the white space around a text that neither starts
    nor ends with white space, and nothing else. *)
Lemma strip_core lead core trail :
  forallb Py.is_space lead = true → forallb Py.is_space trail = true →
  core ≠ [] →
  match core with c :: _ => Py.is_space c = false | [] => True end →
  match rev core with c :: _ => Py.is_space c = false | [] => True end →
  Py.strip (lead ++ core ++ trail) = core.
Proof.
  intros Hlead Htrail Hne Hfirst Hlast. unfold Py.strip.
  rewrite lstrip_app_space by done. destruct core as [|c core]; [done|].
  rewrite (lstrip_id ((c :: core) ++ trail)) by exact Hfirst.
  rewrite rev_app_distr.
  rewrite lstrip_app_space by (by apply forallb_rev).
  rewrite lstrip_id by exact Hlast. apply rev_involutive.
Qed.

(** ** The log: [parse_memw] and [parse_reg] on well-formed lines *)

Lemma space_not_xdigit c : Py.is_space c = true → Re.xdigit c = false.
Proof.
  intros Hs. destruct (Re.xdigit c) eqn:Hx; [|done].
  apply xdigit_not_space in Hx. congruence.
Qed.

Lemma space_not_digit c : Py.is_space c = true → PyText.digit c = false.
Proof. destruct c as [[] [] [] [] [] [] [] []]; vm_compute; congruence. Qed.

Lemma digit_not_space c : PyText.digit c = true → Py.is_space c = false.
Proof. destruct c as [[] [] [] [] [] [] [] []]; vm_compute; congruence. Qed.

Lemma blank_head (p : ascii → bool) ws rest :
  blank ws → (∀ c, Py.is_space c = true → p c = false) →
  match ws ++ rest with c :: _ => p c = false | [] => True end.
Proof.
  intros [Hne Hall] Hp. destruct ws as [|c ws]; [done|]. simpl in *.
  apply andb_true_iff in Hall as [Hc _]. auto.
Qed.

Lemma run_Bol_fwd its rest opened groups r :
  Re.run its 0 rest opened groups = Some r →
  Re.run (Re.Bol :: its) 0 rest opened groups = Some r.
Proof. done. Qed.

Lemma run_group_end p l its pos opened groups r :
  l ≠ [] → forallb p l = true →
  Re.run its (pos + length l)%nat [] opened
    (groups ++ [(pos, (pos + length l)%nat)]) = Some r →
  Re.run (Re.Open :: Re.Plus p :: Re.Close :: its) pos l opened groups
  = Some r.
Proof.
  intros Hne Hall H.
  pose proof (run_group_fwd p l its pos [] opened groups r Hne Hall I H)
    as Hrun.
  by rewrite app_nil_r in Hrun.
Qed.

Lemma take_drop_in {A} (full pre mid post : list A) b e :
  full = pre ++ mid ++ post → b = length pre → e = (b + length mid)%nat →
  take (e - b) (drop b full) = mid.
Proof. intros ->. apply take_drop_middle. Qed.

Ltac shape_side :=
  match goal with
  | H : blank ?w |- ?w ≠ [] => exact (proj1 H)
  | H : blank ?w |- forallb _ ?w = true => exact (proj2 H)
  | H : numeral16 ?w |- ?w ≠ [] => exact (proj1 H)
  | H : numeral16 ?w |- forallb _ ?w = true => exact (proj2 H)
  | H : numeral10 ?w |- ?w ≠ [] => exact (proj1 H)
  | H : numeral10 ?w |- forallb _ ?w = true => exact (proj2 H)
  | H : blank ?w |- match ?w ++ _ with _ => _ end =>
      apply blank_head;
        [exact H|first [exact space_not_xdigit|exact space_not_digit]]
  | |- _ => reflexivity
  end.

Ltac match_step :=
  first
    [ apply run_Bol_fwd
    | apply run_Lit_fwd
    | apply run_group_fwd; [shape_side|shape_side|shape_side|]
    | apply run_group_end; [shape_side|shape_side|]
    | apply run_Plus_fwd; [shape_side|shape_side|shape_side|] ].

Lemma memw_groups ws1 hpc ws2 haddr ws3 hdata ws4 hmask :
  blank ws1 → blank ws2 → blank ws3 → blank ws4 →
  numeral16 hpc → numeral16 haddr → numeral16 hdata → numeral16 hmask →
  Re.rmatch memw_re
    (string_of_list_ascii
       (memw_text ws1 hpc ws2 haddr ws3 hdata ws4 hmask))
  = Some [hpc; haddr; hdata; hmask].
Proof.
  intros B1 B2 B3 B4 N1 N2 N3 N4. unfold Re.rmatch.
  rewrite list_ascii_of_string_of_list_ascii.
  set (text := memw_text ws1 hpc ws2 haddr ws3 hdata ws4 hmask).
  assert (Hrun : ∃ gs,
    Re.run memw_re 0 text [] [] = Some gs
    ∧ map (λ '(b, e), take (e - b) (drop b text)) gs
      = [hpc; haddr; hdata; hmask]).
  { eexists. split.
    - unfold memw_re, text, memw_text. do 14 match_step. reflexivity.
    - cbn [app map]. unfold text, memw_text.
      set (A := list_ascii_of_string "[MEMW]").
      set (P := list_ascii_of_string "pc=0x").
      set (Q := list_ascii_of_string "addr=0x").
      set (D := list_ascii_of_string "data=0x").
      set (M := list_ascii_of_string "mask=0x").
      f_equal; [|f_equal; [|f_equal; [|f_equal]]].
      + apply (take_drop_in _ (A ++ ws1 ++ P) hpc
                 (ws2 ++ Q ++ haddr ++ ws3 ++ D ++ hdata ++ ws4 ++ M
                  ++ hmask));
          [by rewrite <- ?app_assoc|rewrite ?length_app; lia..].
      + apply (take_drop_in _ (A ++ ws1 ++ P ++ hpc ++ ws2 ++ Q) haddr
                 (ws3 ++ D ++ hdata ++ ws4 ++ M ++ hmask));
          [by rewrite <- ?app_assoc|rewrite ?length_app; lia..].
      + apply (take_drop_in _
                 (A ++ ws1 ++ P ++ hpc ++ ws2 ++ Q ++ haddr ++ ws3 ++ D)
                 hdata (ws4 ++ M ++ hmask));
          [by rewrite <- ?app_assoc|rewrite ?length_app; lia..].
      + apply (take_drop_in _
                 (A ++ ws1 ++ P ++ hpc ++ ws2 ++ Q ++ haddr ++ ws3 ++ D
                  ++ hdata ++ ws4 ++ M) hmask []);
          [by rewrite <- ?app_assoc, ?app_nil_r
          |rewrite ?length_app; lia..]. }
  destruct Hrun as (gs & -> & ->). done.
Qed.

Lemma reg_groups ws1 hpc ws2 drd ws3 ws4 hval :
  blank ws1 → blank ws2 → blank ws3 → blank ws4 →
  numeral16 hpc → numeral10 drd → numeral16 hval →
  Re.rmatch reg_re
    (string_of_list_ascii (reg_text ws1 hpc ws2 drd ws3 ws4 hval))
  = Some [hpc; drd; hval].
Proof.
  intros B1 B2 B3 B4 N1 N2 N3. unfold Re.rmatch.
  rewrite list_ascii_of_string_of_list_ascii.
  set (text := reg_text ws1 hpc ws2 drd ws3 ws4 hval).
  assert (Hrun : ∃ gs,
    Re.run reg_re 0 text [] [] = Some gs
    ∧ map (λ '(b, e), take (e - b) (drop b text)) gs = [hpc; drd; hval]).
  { eexists. split.
    - unfold reg_re, text, reg_text. do 13 match_step. reflexivity.
    - cbn [app map]. unfold text, reg_text.
      set (A := list_ascii_of_string "[REG]").
      set (P := list_ascii_of_string "pc=0x").
      set (X := list_ascii_of_string "x").
      set (L := list_ascii_of_string "<=").
      set (V := list_ascii_of_string "0x").
      f_equal; [|f_equal; [|f_equal]].
      + apply (take_drop_in _ (A ++ ws1 ++ P) hpc
                 (ws2 ++ X ++ drd ++ ws3 ++ L ++ ws4 ++ V ++ hval));
          [by rewrite <- ?app_assoc|rewrite ?length_app; lia..].
      + apply (take_drop_in _ (A ++ ws1 ++ P ++ hpc ++ ws2 ++ X) drd
                 (ws3 ++ L ++ ws4 ++ V ++ hval));
          [by rewrite <- ?app_assoc|rewrite ?length_app; lia..].
      + apply (take_drop_in _
                 (A ++ ws1 ++ P ++ hpc ++ ws2 ++ X ++ drd ++ ws3 ++ L
                  ++ ws4 ++ V) hval []);
          [by rewrite <- ?app_assoc, ?app_nil_r
          |rewrite ?length_app; lia..]. }
  destruct Hrun as (gs & -> & ->). done.
Qed.

Lemma stripped_core pat lead core trail :
  forallb Py.is_space lead = true → forallb Py.is_space trail = true →
  core ≠ [] →
  match core with c :: _ => Py.is_space c = false | [] => True end →
  match rev core with c :: _ => Py.is_space c = false | [] => True end →
  match_stripped pat (string_of_list_ascii (lead ++ core ++ trail))
  = Re.rmatch pat (string_of_list_ascii core).
Proof.
  intros. unfold match_stripped.
  by rewrite list_ascii_of_string_of_list_ascii, strip_core.
Qed.

(** X5. A line of the log of the shape the comment of [parse_memw] shows,
    with any hexadecimal numerals, any white space between the fields and
    around the line, yields the event with the values of the numerals. *)
Theorem memw_line_parses
    (lead ws1 hpc ws2 haddr ws3 hdata ws4 hmask trail : list ascii) :
  forallb Py.is_space lead = true → forallb Py.is_space trail = true →
  blank ws1 → blank ws2 → blank ws3 → blank ws4 →
  numeral16 hpc → numeral16 haddr → numeral16 hdata → numeral16 hmask →
  memw_of_line
    (string_of_list_ascii
       (lead ++ memw_text ws1 hpc ws2 haddr ws3 hdata ws4 hmask ++ trail))
  = Some {| w_pc := Py.int16 hpc; w_addr := Py.int16 haddr;
            w_data := Py.int16 hdata; w_mask := Py.int16 hmask |}.
Proof.
  intros Hlead Htrail B1 B2 B3 B4 N1 N2 N3 N4. unfold memw_of_line.
  rewrite stripped_core; try done.
  - by rewrite memw_groups.
  - unfold memw_text. rewrite !app_assoc.
    apply (rev_app_head_ok (λ c, Py.is_space c = false)); [apply N4|].
    intros c Hc. apply xdigit_not_space.
    eapply forallb_elem_of; [apply N4|done].
Qed.

Lemma memw_line_parses_witness :
  memw_of_line
    (String "[" "MEMW] pc=0x44 addr=0xd4 data=0x12345678 mask=0xf"
     ++ String "010" "")
  = Some {| w_pc := 0x44; w_addr := 0xd4; w_data := 0x12345678;
            w_mask := 0xf |}.
Proof.
  apply (memw_line_parses []
           [" "%char] (list_ascii_of_string "44")
           [" "%char] (list_ascii_of_string "d4")
           [" "%char] (list_ascii_of_string "12345678")
           [" "%char] (list_ascii_of_string "f") ["010"%char]);
    by vm_compute.
Defined.

(** X6. A line of the log of the shape the comment of [parse_reg] shows
    yields the register write with the values of its three numerals, the
    register index being read in base 10. *)
Theorem reg_line_parses
    (lead ws1 hpc ws2 drd ws3 ws4 hval trail : list ascii) :
  forallb Py.is_space lead = true → forallb Py.is_space trail = true →
  blank ws1 → blank ws2 → blank ws3 → blank ws4 →
  numeral16 hpc → numeral10 drd → numeral16 hval →
  reg_of_line
    (string_of_list_ascii
       (lead ++ reg_text ws1 hpc ws2 drd ws3 ws4 hval ++ trail))
  = Some {| r_pc := Py.int16 hpc; r_rd := PyText.int10 drd;
            r_val := Py.int16 hval |}.
Proof.
  intros Hlead Htrail B1 B2 B3 B4 N1 N2 N3. unfold reg_of_line.
  rewrite stripped_core; try done.
  - by rewrite reg_groups.
  - unfold reg_text. rewrite !app_assoc.
    apply (rev_app_head_ok (λ c, Py.is_space c = false)); [apply N3|].
    intros c Hc. apply xdigit_not_space.
    eapply forallb_elem_of; [apply N3|done].
Qed.

Lemma reg_line_parses_witness :
  reg_of_line
    (String "[" "REG] pc=0x30 x5 <= 0x12345678" ++ String "010" "")
  = Some {| r_pc := 0x30; r_rd := 5; r_val := 0x12345678 |}.
Proof.
  apply (reg_line_parses []
           [" "%char] (list_ascii_of_string "30")
           [" "%char] (list_ascii_of_string "5")
           [" "%char] [" "%char] (list_ascii_of_string "12345678")
           ["010"%char]);
    by vm_compute.
Defined.

(** ** What a match tells about the text *)

Lemma run_Lit_inv s its pos full opened groups r :
  Re.run (Re.Lit s :: its) pos (drop pos full) opened groups = Some r →
  Py.startswith s (drop pos full) = true
  ∧ Re.run its (pos + length s)%nat (drop (pos + length s) full)
      opened groups = Some r.
Proof.
  cbn [Re.run]. destruct (Py.startswith s (drop pos full)); [|done].
  by rewrite drop_drop.
Qed.

Lemma run_Plus_inv p its pos full opened groups r :
  Re.run (Re.Plus p :: its) pos (drop pos full) opened groups = Some r →
  ∃ n, (1 ≤ n ≤ Re.run_length p (drop pos full))%nat
       ∧ Re.run its (pos + n)%nat (drop (pos + n) full) opened groups
         = Some r.
Proof.
  cbn [Re.run]. intros H. apply greedy_Some in H as (n & Hn & H).
  exists n. split; [done|]. by rewrite drop_drop in H.
Qed.

Lemma run_group_inv p its pos full opened groups r :
  Re.run (Re.Open :: Re.Plus p :: Re.Close :: its) pos (drop pos full)
    opened groups = Some r →
  ∃ n, (1 ≤ n ≤ Re.run_length p (drop pos full))%nat
       ∧ Re.run its (pos + n)%nat (drop (pos + n) full) opened
           (groups ++ [(pos, (pos + n)%nat)]) = Some r.
Proof.
  intros H.
  change (Re.run (Re.Plus p :: Re.Close :: its) pos (drop pos full)
            (pos :: opened) groups = Some r) in H.
  by apply run_Plus_inv in H.
Qed.

Lemma group_text p full pos n :
  (1 ≤ n ≤ Re.run_length p (drop pos full))%nat →
  take (pos + n - pos) (drop pos full) ≠ []
  ∧ forallb p (take (pos + n - pos) (drop pos full)) = true.
Proof.
  intros Hn. replace (pos + n - pos)%nat with n by lia.
  destruct (run_length_take p (drop pos full) n ltac:(lia)) as [Hall Hlen].
  split; [|done]. intros Hnil. rewrite Hnil in Hlen. simpl in Hlen. lia.
Qed.

Lemma memw_match_inv text gs :
  Re.run memw_re 0 text [] [] = Some gs →
  Py.startswith (list_ascii_of_string "[MEMW]") text = true
  ∧ ∃ hpc haddr hdata hmask,
      map (λ '(b, e), take (e - b) (drop b text)) gs
      = [hpc; haddr; hdata; hmask]
      ∧ numeral16 hpc ∧ numeral16 haddr ∧ numeral16 hdata
      ∧ numeral16 hmask.
Proof.
  unfold memw_re. intros H.
  change (Re.run
            (Re.Lit (list_ascii_of_string "[MEMW]")
             :: Re.Plus Re.space :: Re.Lit (list_ascii_of_string "pc=0x")
             :: Re.Open :: Re.Plus Re.xdigit :: Re.Close
             :: Re.Plus Re.space :: Re.Lit (list_ascii_of_string "addr=0x")
             :: Re.Open :: Re.Plus Re.xdigit :: Re.Close
             :: Re.Plus Re.space :: Re.Lit (list_ascii_of_string "data=0x")
             :: Re.Open :: Re.Plus Re.xdigit :: Re.Close
             :: Re.Plus Re.space :: Re.Lit (list_ascii_of_string "mask=0x")
             :: [Re.Open; Re.Plus Re.xdigit; Re.Close])
            0 (drop 0 text) [] [] = Some gs) in H.
  apply run_Lit_inv in H as [Htag H]. split; [exact Htag|].
  apply run_Plus_inv in H as (n1 & _ & H).
  apply run_Lit_inv in H as [_ H].
  apply run_group_inv in H as (m1 & Hm1 & H).
  apply run_Plus_inv in H as (n2 & _ & H).
  apply run_Lit_inv in H as [_ H].
  apply run_group_inv in H as (m2 & Hm2 & H).
  apply run_Plus_inv in H as (n3 & _ & H).
  apply run_Lit_inv in H as [_ H].
  apply run_group_inv in H as (m3 & Hm3 & H).
  apply run_Plus_inv in H as (n4 & _ & H).
  apply run_Lit_inv in H as [_ H].
  apply run_group_inv in H as (m4 & Hm4 & H).
  pose proof (group_text _ _ _ _ Hm1) as G1.
  pose proof (group_text _ _ _ _ Hm2) as G2.
  pose proof (group_text _ _ _ _ Hm3) as G3.
  pose proof (group_text _ _ _ _ Hm4) as G4.
  injection H as <-.
  eexists _, _, _, _. split; [reflexivity|].
  exact (conj G1 (conj G2 (conj G3 G4))).
Qed.

Lemma reg_match_inv text gs :
  Re.run reg_re 0 text [] [] = Some gs →
  Py.startswith (list_ascii_of_string "[REG]") text = true
  ∧ ∃ hpc drd hval,
      map (λ '(b, e), take (e - b) (drop b text)) gs = [hpc; drd; hval]
      ∧ numeral16 hpc ∧ numeral10 drd ∧ numeral16 hval.
Proof.
  unfold reg_re. intros H.
  change (Re.run
            (Re.Lit (list_ascii_of_string "[REG]")
             :: Re.Plus Re.space :: Re.Lit (list_ascii_of_string "pc=0x")
             :: Re.Open :: Re.Plus Re.xdigit :: Re.Close
             :: Re.Plus Re.space :: Re.Lit (list_ascii_of_string "x")
             :: Re.Open :: Re.Plus PyText.digit :: Re.Close
             :: Re.Plus Re.space :: Re.Lit (list_ascii_of_string "<=")
             :: Re.Plus Re.space :: Re.Lit (list_ascii_of_string "0x")
             :: [Re.Open; Re.Plus Re.xdigit; Re.Close])
            0 (drop 0 text) [] [] = Some gs) in H.
  apply run_Lit_inv in H as [Htag H]. split; [exact Htag|].
  apply run_Plus_inv in H as (n1 & _ & H).
  apply run_Lit_inv in H as [_ H].
  apply run_group_inv in H as (m1 & Hm1 & H).
  apply run_Plus_inv in H as (n2 & _ & H).
  apply run_Lit_inv in H as [_ H].
  apply run_group_inv in H as (m2 & Hm2 & H).
  apply run_Plus_inv in H as (n3 & _ & H).
  apply run_Lit_inv in H as [_ H].
  apply run_Plus_inv in H as (n4 & _ & H).
  apply run_Lit_inv in H as [_ H].
  apply run_group_inv in H as (m3 & Hm3 & H).
  pose proof (group_text _ _ _ _ Hm1) as G1.
  pose proof (group_text _ _ _ _ Hm2) as G2.
  pose proof (group_text _ _ _ _ Hm3) as G3.
  injection H as <-.
  eexists _, _, _. split; [reflexivity|].
  exact (conj G1 (conj G2 G3)).
Qed.

Lemma parse_memw_loop_eq lines memw :
  parse_memw_loop lines memw = memw ++ omap memw_of_line lines.
Proof.
  revert memw. induction lines as [|l lines IH]; intros memw; simpl.
  - by rewrite app_nil_r.
  - rewrite IH. destruct (memw_of_line l); [|done].
    by rewrite <- app_assoc.
Qed.

Lemma parse_reg_loop_eq lines regs :
  parse_reg_loop lines regs = regs ++ omap reg_of_line lines.
Proof.
  revert regs. induction lines as [|l lines IH]; intros regs; simpl.
  - by rewrite app_nil_r.
  - rewrite IH. destruct (reg_of_line l); [|done].
    by rewrite <- app_assoc.
Qed.

Lemma parse_memw_omap lines : parse_memw lines = omap memw_of_line lines.
Proof. apply parse_memw_loop_eq. Qed.

Lemma parse_reg_omap lines : parse_reg lines = omap reg_of_line lines.
Proof. apply parse_reg_loop_eq. Qed.

Lemma memw_of_line_tag line w :
  memw_of_line line = Some w →
  Py.startswith (list_ascii_of_string "[MEMW]")
    (Py.strip (list_ascii_of_string line)) = true.
Proof.
  unfold memw_of_line, match_stripped, Re.rmatch.
  rewrite list_ascii_of_string_of_list_ascii.
  destruct (Re.run memw_re 0 _ [] []) as [gs|] eqn:Hrun; [|done].
  intros _. by apply memw_match_inv in Hrun as [Htag _].
Qed.

Lemma reg_of_line_tag line r :
  reg_of_line line = Some r →
  Py.startswith (list_ascii_of_string "[REG]")
    (Py.strip (list_ascii_of_string line)) = true.
Proof.
  unfold reg_of_line, match_stripped, Re.rmatch.
  rewrite list_ascii_of_string_of_list_ascii.
  destruct (Re.run reg_re 0 _ [] []) as [gs|] eqn:Hrun; [|done].
  intros _. by apply reg_match_inv in Hrun as [Htag _].
Qed.

Lemma tags_differ text :
  Py.startswith (list_ascii_of_string "[MEMW]") text = true →
  Py.startswith (list_ascii_of_string "[REG]") text = false.
Proof.
  destruct text as [|a [|b text]]; cbn [list_ascii_of_string Py.startswith];
    try done.
  - by rewrite andb_false_r.
  - destruct (Ascii.eqb_spec "[" a) as [<-|]; [|done].
    destruct (Ascii.eqb_spec "M" b) as [<-|]; [|done].
    by intros _.
Qed.

Lemma line_one_stream line :
  memw_of_line line = None ∨ reg_of_line line = None.
Proof.
  destruct (memw_of_line line) as [w|] eqn:Hm; [|by left]. right.
  destruct (reg_of_line line) as [r|] eqn:Hr; [|done].
  apply memw_of_line_tag, tags_differ in Hm.
  apply reg_of_line_tag in Hr. congruence.
Qed.

(** X7. The two streams are read off the log independently and in file
    order, and no line feeds both: the streams of two logs put end to end
    are the streams of each put end to end, and together the two streams
    have at most as many events as the log has lines. *)
Theorem log_streams (l1 l2 : list string) :
  parse_memw (l1 ++ l2) = parse_memw l1 ++ parse_memw l2
  ∧ parse_reg (l1 ++ l2) = parse_reg l1 ++ parse_reg l2
  ∧ (∀ line, memw_of_line line = None ∨ reg_of_line line = None)
  ∧ (length (parse_memw l1) + length (parse_reg l1) ≤ length l1)%nat.
Proof.
  rewrite !parse_memw_omap, !parse_reg_omap, !omap_app.
  split; [done|]. split; [done|]. split; [apply line_one_stream|].
  induction l1 as [|l l1 IH]; [simpl; lia|].
  cbn [omap list_omap length].
  destruct (line_one_stream l) as [-> | ->];
    [destruct (reg_of_line l)|destruct (memw_of_line l)];
    cbn [length]; lia.
Qed.

Lemma int10_from_nonneg s acc :
  forallb PyText.digit s = true → 0 ≤ acc →
  0 ≤ fold_left (λ acc c, 10 * acc + (Z.of_N (N_of_ascii c) - 48)) s acc.
Proof.
  revert acc. induction s as [|c s IH]; intros acc Hall Hacc; [done|].
  cbn [forallb] in Hall. apply andb_true_iff in Hall as [Hc Hall].
  cbn [fold_left]. apply IH; [done|].
  unfold PyText.digit in Hc. cbv zeta in Hc. lia.
Qed.

Lemma int10_nonneg s : forallb PyText.digit s = true → 0 ≤ PyText.int10 s.
Proof. intros. by apply int10_from_nonneg. Qed.

Lemma memw_of_line_inv line w :
  memw_of_line line = Some w →
  ∃ hpc haddr hdata hmask,
    match_stripped memw_re line = Some [hpc; haddr; hdata; hmask]
    ∧ numeral16 hpc ∧ numeral16 haddr ∧ numeral16 hdata ∧ numeral16 hmask
    ∧ w = {| w_pc := Py.int16 hpc; w_addr := Py.int16 haddr;
             w_data := Py.int16 hdata; w_mask := Py.int16 hmask |}.
Proof.
  unfold memw_of_line, match_stripped, Re.rmatch.
  rewrite list_ascii_of_string_of_list_ascii.
  destruct (Re.run memw_re 0 _ [] []) as [gs|] eqn:Hrun; [|done].
  apply memw_match_inv in Hrun
    as (_ & hpc & haddr & hdata & hmask & -> & N1 & N2 & N3 & N4).
  intros [= <-]. by exists hpc, haddr, hdata, hmask.
Qed.

Lemma reg_of_line_inv line r :
  reg_of_line line = Some r →
  ∃ hpc drd hval,
    match_stripped reg_re line = Some [hpc; drd; hval]
    ∧ numeral16 hpc ∧ numeral10 drd ∧ numeral16 hval
    ∧ r = {| r_pc := Py.int16 hpc; r_rd := PyText.int10 drd;
             r_val := Py.int16 hval |}.
Proof.
  unfold reg_of_line, match_stripped, Re.rmatch.
  rewrite list_ascii_of_string_of_list_ascii.
  destruct (Re.run reg_re 0 _ [] []) as [gs|] eqn:Hrun; [|done].
  apply reg_match_inv in Hrun as (_ & hpc & drd & hval & -> & N1 & N2 & N3).
  intros [= <-]. by exists hpc, drd, hval.
Qed.

Lemma digit_not_special c :
  PyText.digit c = true
  → Ascii.eqb c "_" = false ∧ Ascii.eqb c "-" = false
    ∧ Ascii.eqb c "+" = false ∧ PyText.int_space c = false.
Proof.
  destruct c as [[] [] [] [] [] [] [] []]; vm_compute; intros;
    repeat split; congruence.
Qed.

Lemma digits10_digits st acc s :
  forallb PyText.digit s = true → s ≠ [] ∨ st = PyText.Digit →
  PyText.digits10 st acc s
  = Some (fold_left (λ acc c, 10 * acc + (Z.of_N (N_of_ascii c) - 48)) s acc).
Proof.
  revert st acc. induction s as [|c s IH]; intros st acc Hall Hne.
  - destruct Hne as [?| ->]; done.
  - cbn [forallb] in Hall. apply andb_true_iff in Hall as [Hc Hall].
    destruct (digit_not_special c Hc) as (Hu & _).
    cbn [PyText.digits10 fold_left]. rewrite Hu, Hc. apply IH; auto.
Qed.

Lemma filter_all_digits s :
  forallb PyText.digit s = true → List.filter PyText.digit s = s.
Proof.
  induction s as [|c s IH]; [done|]. cbn [forallb List.filter].
  intros H. apply andb_true_iff in H as [-> H]. by rewrite IH.
Qed.

Lemma int10_full_numeral d :
  numeral10 d →
  PyText.int10_full d
  = if (4300 <? length d)%nat then None else Some (PyText.int10 d).
Proof.
  intros [Hne Hall]. unfold PyText.int10_full.
  rewrite strip_int_id.
  - destruct d as [|c d]; [done|].
    pose proof Hall as Hall'. cbn [forallb] in Hall'.
    apply andb_true_iff in Hall' as [Hc _].
    destruct (digit_not_special c Hc) as (_ & -> & -> & _).
    rewrite digits10_digits by auto. rewrite filter_all_digits by done.
    done.
  - destruct d as [|c d]; [done|]. cbn [forallb] in Hall.
    apply andb_true_iff in Hall as [Hc _].
    by destruct (digit_not_special c Hc) as (_ & _ & _ & ?).
  - pose proof (forallb_head _ _ (forallb_rev _ _ Hall)) as H.
    destruct (rev d); [done|].
    by destruct (digit_not_special _ H) as (_ & _ & _ & ?).
Qed.

Lemma memw_of_line_checked_eq line :
  memw_of_line_checked line = Some (memw_of_line line).
Proof.
  unfold memw_of_line_checked.
  destruct (memw_of_line line) as [w|] eqn:Hw.
  - apply memw_of_line_inv in Hw
      as (hpc & haddr & hdata & hmask & -> & [] & [] & [] & [] & ->).
    by rewrite !int16_full_hex.
  - unfold memw_of_line in Hw.
    destruct (match_stripped memw_re line) as [[|g1 [|g2 [|g3 [|g4 [|g5 gs]]]]]|];
      done.
Qed.

Lemma parse_memw_checked_loop_eq lines memw :
  parse_memw_checked_loop lines memw = Some (parse_memw_loop lines memw).
Proof.
  revert memw. induction lines as [|l lines IH]; intros memw; [done|].
  cbn [parse_memw_checked_loop parse_memw_loop].
  rewrite memw_of_line_checked_eq. destruct (memw_of_line l); apply IH.
Qed.

(** A line of the log at which [int(m.group(2), 10)] exceeds the limit on
    the digits of a decimal numeral. *)
Lemma reg_of_line_checked_cases line :
  match reg_of_line line with
  | Some r =>
      ∃ hpc drd hval,
        match_stripped reg_re line = Some [hpc; drd; hval]
        ∧ reg_of_line_checked line
          = if (4300 <? length drd)%nat then None else Some (Some r)
  | None => reg_of_line_checked line = Some None
  end.
Proof.
  unfold reg_of_line_checked.
  destruct (reg_of_line line) as [r|] eqn:Hr.
  - apply reg_of_line_inv in Hr as (hpc & drd & hval & -> & [] & N & [] & ->).
    exists hpc, drd, hval. split; [done|].
    rewrite !int16_full_hex by done. rewrite (int10_full_numeral _ N).
    by destruct (4300 <? length drd)%nat.
  - unfold reg_of_line in Hr.
    destruct (match_stripped reg_re line) as [[|g1 [|g2 [|g3 [|g4 gs]]]]|];
      done.
Qed.

Lemma parse_reg_checked_loop_Some lines regs out :
  parse_reg_checked_loop lines regs = Some out →
  out = parse_reg_loop lines regs.
Proof.
  revert regs. induction lines as [|l lines IH]; intros regs.
  - by intros [= <-].
  - cbn [parse_reg_checked_loop parse_reg_loop].
    pose proof (reg_of_line_checked_cases l) as Hl.
    destruct (reg_of_line l) as [r|].
    + destruct Hl as (hpc & drd & hval & _ & ->).
      destruct (4300 <? length drd)%nat; [done|]. apply IH.
    + rewrite Hl. apply IH.
Qed.

Lemma parse_reg_checked_loop_None lines regs :
  parse_reg_checked_loop lines regs = None
  ↔ ∃ line hpc drd hval,
      line ∈ lines ∧ match_stripped reg_re line = Some [hpc; drd; hval]
      ∧ (4300 < length drd)%nat.
Proof.
  revert regs. induction lines as [|l lines IH]; intros regs.
  - split; [done|]. intros (line & ? & ? & ? & Hin & _).
    by apply elem_of_nil in Hin.
  - cbn [parse_reg_checked_loop].
    pose proof (reg_of_line_checked_cases l) as Hl.
    destruct (reg_of_line l) as [r|] eqn:Hr.
    + destruct Hl as (hpc & drd & hval & Hm & ->).
      destruct (Nat.ltb_spec 4300 (length drd)) as [Hlong|Hshort].
      * split; [|done]. intros _. exists l, hpc, drd, hval.
        split; [apply list_elem_of_here|done].
      * rewrite IH. split.
        -- intros (line & a & b & c & Hin & H).
           exists line, a, b, c. split; [by apply list_elem_of_further|done].
        -- intros (line & a & b & c & Hin & Hm' & Hlen).
           apply elem_of_cons in Hin as [->|Hin];
             [|by exists line, a, b, c].
           rewrite Hm in Hm'. injection Hm' as <- <- <-. lia.
    + rewrite Hl, IH. split.
      * intros (line & a & b & c & Hin & H).
        exists line, a, b, c. split; [by apply list_elem_of_further|done].
      * intros (line & a & b & c & Hin & Hm' & Hlen).
        apply elem_of_cons in Hin as [->|Hin]; [|by exists line, a, b, c].
        unfold reg_of_line in Hr. by rewrite Hm' in Hr.
Qed.

(** X8. When the log parsers raise. [parse_memw_checked] and
    [parse_reg_checked] are the two parsers with the [ValueError] of [int].
    The first never raises and returns the events of [parse_memw]. The
    second raises exactly when a line of the log matches its pattern with a
    register index of more than 4300 digits, the limit of [int] on a
    decimal numeral, and returns the events of [parse_reg] otherwise. No
    field of an event is negative. *)
Theorem log_events_sound (lines : list string) :
  parse_memw_checked lines = Some (parse_memw lines)
  ∧ (parse_reg_checked lines = None
     ↔ ∃ line hpc drd hval,
         line ∈ lines ∧ match_stripped reg_re line = Some [hpc; drd; hval]
         ∧ (4300 < length drd)%nat)
  ∧ (∀ regs, parse_reg_checked lines = Some regs → regs = parse_reg lines)
  ∧ (∀ w, w ∈ parse_memw lines →
          0 ≤ w_pc w ∧ 0 ≤ w_addr w ∧ 0 ≤ w_data w ∧ 0 ≤ w_mask w)
  ∧ (∀ r, r ∈ parse_reg lines → 0 ≤ r_pc r ∧ 0 ≤ r_rd r ∧ 0 ≤ r_val r).
Proof.
  split; [apply parse_memw_checked_loop_eq|].
  split; [apply parse_reg_checked_loop_None|].
  split; [intros regs; apply parse_reg_checked_loop_Some|]. split.
  - intros w. rewrite parse_memw_omap, list_elem_of_omap.
    intros (line & _ & Hw).
    apply memw_of_line_inv in Hw as (? & ? & ? & ? & _ & _ & _ & _ & _ & ->).
    repeat split; apply int16_nonneg.
  - intros r. rewrite parse_reg_omap, list_elem_of_omap.
    intros (line & _ & Hr).
    apply reg_of_line_inv in Hr as (? & drd & ? & _ & _ & N & _ & ->).
    repeat split; try apply int16_nonneg. apply int10_nonneg, N.
Qed.

Lemma log_events_sound_witness :
  Sample.good_got_reg = parse_reg Sample.log.
Proof.
  apply (proj1 (proj2 (proj2 (log_events_sound Sample.log)))).
  vm_compute. reflexivity.
Defined.

Lemma memw_of_line_no_tag line :
  Py.startswith (list_ascii_of_string "[MEMW]")
    (Py.strip (list_ascii_of_string line)) = false →
  memw_of_line line = None.
Proof.
  intros Htag. destruct (memw_of_line line) as [w|] eqn:Hw; [|done].
  apply memw_of_line_tag in Hw. congruence.
Qed.

Lemma reg_of_line_no_tag line :
  Py.startswith (list_ascii_of_string "[REG]")
    (Py.strip (list_ascii_of_string line)) = false →
  reg_of_line line = None.
Proof.
  intros Htag. destruct (reg_of_line line) as [w|] eqn:Hw; [|done].
  apply reg_of_line_tag in Hw. congruence.
Qed.

(** X9. A line of the log that starts, once stripped, with neither tag is
    ignored: the result of the run is the same with and without it,
    wherever it stands in the log. *)
Theorem log_noise_ignored (runner_exists : bool) (nm_lines : list string)
    (rc : Z) (l1 l2 : list string) (noise : string)
    (objdump : option (list string)) :
  Py.startswith (list_ascii_of_string "[MEMW]")
    (Py.strip (list_ascii_of_string noise)) = false →
  Py.startswith (list_ascii_of_string "[REG]")
    (Py.strip (list_ascii_of_string noise)) = false →
  main_text runner_exists nm_lines rc (l1 ++ noise :: l2) objdump
  = main_text runner_exists nm_lines rc (l1 ++ l2) objdump.
Proof.
  intros Hm Hr. unfold main_text.
  rewrite !parse_memw_omap, !parse_reg_omap, !omap_app.
  cbn [omap list_omap].
  by rewrite (memw_of_line_no_tag _ Hm), (reg_of_line_no_tag _ Hr).
Qed.

Lemma log_noise_ignored_witness :
  main_text true Sample.nm_lines 0 Sample.log (Some Sample.listing)
  = main_text true Sample.nm_lines 0
      (take 12 Sample.log ++ drop 13 Sample.log) (Some Sample.listing).
Proof.
  apply (log_noise_ignored true Sample.nm_lines 0 (take 12 Sample.log)
           (drop 13 Sample.log) "[TRAP] pc=0x64 cause=0x6 tval=0x2002");
    vm_compute; reflexivity.
Defined.

Lemma sym_Some syms name a : syms !! name = Some a → sym syms name = Ok a.
Proof. unfold sym. by intros ->. Qed.

Lemma sym_None syms name :
  syms !! name = None → sym syms name = Raise (KeyError name).
Proof. unfold sym. by intros ->. Qed.


Lemma parse_nm_defined lines name :
  is_Some (parse_nm lines !! name)
  ↔ ∃ line a, line ∈ lines ∧ nm_entry line = Some (name, a).
Proof.
  split.
  - intros [a Ha]. induction lines as [|l lines IH].
    + unfold parse_nm in Ha. simpl in Ha. by rewrite lookup_empty in Ha.
    + rewrite parse_nm_cons in Ha.
      destruct (parse_nm lines !! name) as [a0|] eqn:Hrest.
      * destruct (IH Ha) as (line & a' & Hin & He).
        exists line, a'. split; [by apply list_elem_of_further|done].
      * destruct (nm_entry l) as [[n a0]|] eqn:He; [|done].
        case_decide; [|done]. subst n.
        exists l, a0. split; [apply list_elem_of_here|done].
  - intros (line & a & Hin & He).
    destruct (parse_nm lines !! name) as [a0|] eqn:Hl; [by eexists|].
    exfalso. eapply parse_nm_None; eauto.
Qed.

(** [main] once the four data symbols are resolved. *)
Lemma main_resolved syms rc got got_reg objdump tohost g_data0 g_data1 g_buf :
  syms !! "tohost"%string = Some tohost →
  syms !! "g_data0"%string = Some g_data0 →
  syms !! "g_data1"%string = Some g_data1 →
  syms !! "g_buf"%string = Some g_buf →
  main true syms rc got got_reg objdump
  = if rc =? 0 then main true syms 0 got got_reg objdump else Ok (rc, []).
Proof.
  intros Ht H0 H1 Hb. destruct (Z.eqb_spec rc 0) as [->|Hrc]; [done|].
  unfold main, sym. rewrite Ht, H0, H1, Hb.
  apply Z.eqb_neq in Hrc. cbn -[check_memw check_reg EXP_of].
  by rewrite Hrc.
Qed.

Lemma main_returns syms rc got got_reg objdump tohost g_data0 g_data1 g_buf :
  syms !! "tohost"%string = Some tohost →
  syms !! "g_data0"%string = Some g_data0 →
  syms !! "g_data1"%string = Some g_data1 →
  syms !! "g_buf"%string = Some g_buf →
  ∃ code errors,
    main true syms rc got got_reg objdump = Ok (code, errors)
    ∧ ((rc ≠ 0 ∧ code = rc ∧ errors = [])
       ∨ (rc = 0 ∧ code = 0 ∧ errors = [])
       ∨ (rc = 0 ∧ code = 1 ∧ errors ≠ [])).
Proof.
  intros Ht H0 H1 Hb.
  rewrite (main_resolved _ _ _ _ _ _ _ _ _ Ht H0 H1 Hb).
  destruct (Z.eqb_spec rc 0) as [->|Hrc]; [|by eexists _, _; eauto].
  rewrite (main_eq _ _ _ _ _ _ _ _ Ht H0 H1 Hb).
  destruct (stage1_5_errors _ _ _ _ _ _);
    [destruct (check_reg _ _ _ _)|]; eexists _, _; eauto 10.
Qed.

Lemma main_raises_iff b syms rc got got_reg objdump x :
  main b syms rc got got_reg objdump = Raise x
  ↔ b = true
    ∧ ∃ pre key post,
        data_symbols = pre ++ key :: post ∧ x = KeyError key
        ∧ syms !! key = None ∧ ∀ k, k ∈ pre → is_Some (syms !! k).
Proof.
  destruct b; [|split; [done|by intros [? _]]].
  destruct (syms !! "tohost"%string) as [t|] eqn:Ht.
  2: { assert (Hm : main true syms rc got got_reg objdump
                    = Raise (KeyError "tohost")).
       { unfold main, sym. by rewrite Ht. }
       rewrite Hm. split.
       - intros [= <-]. split; [done|].
         exists [], "tohost"%string, ["g_data0"; "g_data1"; "g_buf"]%string.
         repeat split; try done. intros k Hk. by apply elem_of_nil in Hk.
       - intros (_ & pre & key & post & Hd & -> & Hkey & Hpre).
         destruct pre as [|k0 pre]; [by injection Hd as <- _|].
         injection Hd as <- _.
         destruct (Hpre "tohost"%string) as [? ?];
           [apply list_elem_of_here|congruence]. }
  destruct (syms !! "g_data0"%string) as [g0|] eqn:H0.
  2: { assert (Hm : main true syms rc got got_reg objdump
                    = Raise (KeyError "g_data0")).
       { unfold main, sym. by rewrite Ht, H0. }
       rewrite Hm. split.
       - intros [= <-]. split; [done|].
         exists ["tohost"%string], "g_data0"%string,
           ["g_data1"; "g_buf"]%string.
         repeat split; try done. intros k Hk.
         apply list_elem_of_singleton in Hk as ->. by rewrite Ht.
       - intros (_ & pre & key & post & Hd & -> & Hkey & Hpre).
         destruct pre as [|k0 [|k1 pre]].
         + injection Hd as <- _. congruence.
         + by injection Hd as _ <- _.
         + injection Hd as <- <- _.
           destruct (Hpre "g_data0"%string) as [? ?];
             [rewrite !elem_of_cons; auto|congruence]. }
  destruct (syms !! "g_data1"%string) as [g1|] eqn:H1.
  2: { assert (Hm : main true syms rc got got_reg objdump
                    = Raise (KeyError "g_data1")).
       { unfold main, sym. by rewrite Ht, H0, H1. }
       rewrite Hm. split.
       - intros [= <-]. split; [done|].
         exists ["tohost"; "g_data0"]%string, "g_data1"%string,
           ["g_buf"%string].
         repeat split; try done. intros k Hk.
         rewrite !elem_of_cons, elem_of_nil in Hk.
         destruct Hk as [->|[->|[]]]; by eexists.
       - intros (_ & pre & key & post & Hd & -> & Hkey & Hpre).
         destruct pre as [|k0 [|k1 [|k2 pre]]].
         + injection Hd as <- _. congruence.
         + injection Hd as _ <- _. congruence.
         + by injection Hd as _ _ <- _.
         + injection Hd as <- <- <- _.
           destruct (Hpre "g_data1"%string) as [? ?];
             [rewrite !elem_of_cons; auto|congruence]. }
  destruct (syms !! "g_buf"%string) as [gb|] eqn:Hb.
  2: { assert (Hm : main true syms rc got got_reg objdump
                    = Raise (KeyError "g_buf")).
       { unfold main, sym. by rewrite Ht, H0, H1, Hb. }
       rewrite Hm. split.
       - intros [= <-]. split; [done|].
         exists ["tohost"; "g_data0"; "g_data1"]%string, "g_buf"%string, [].
         repeat split; try done. intros k Hk.
         rewrite !elem_of_cons, elem_of_nil in Hk.
         destruct Hk as [->|[->|[->|[]]]]; by eexists.
       - intros (_ & pre & key & post & Hd & -> & Hkey & Hpre).
         destruct pre as [|k0 [|k1 [|k2 [|k3 pre]]]].
         + injection Hd as <- _. congruence.
         + injection Hd as _ <- _. congruence.
         + injection Hd as _ _ <- _. congruence.
         + by injection Hd as _ _ _ <- _.
         + injection Hd as _ _ _ _ Hd. by destruct pre. }
  destruct (main_returns syms rc got got_reg objdump _ _ _ _ Ht H0 H1 Hb)
    as (code & errors & -> & _).
  split; [done|]. intros (_ & pre & key & post & Hd & -> & Hkey & Hpre).
  destruct pre as [|k0 [|k1 [|k2 [|k3 pre]]]].
  - injection Hd as <- _. congruence.
  - injection Hd as _ <- _. congruence.
  - injection Hd as _ _ <- _. congruence.
  - injection Hd as _ _ _ <- _. congruence.
  - injection Hd as _ _ _ _ Hd. by destruct pre.
Qed.

(** X10. The [KeyError] of [main]. Of the lookups of [main] only those of
    the data symbols raise it: [main] raises [KeyError] of a key exactly
    when the runner exists and the key is the first of [tohost],
    [g_data0], [g_data1], [g_buf] that no line of the symbol file defines,
    whatever the exit code of the runner, the log and the listing are; and
    [positions[i]] of the order check never raises it. *)
Theorem main_text_key_error (runner_exists : bool) (nm_lines : list string)
    (rc : Z) (log_lines : list string) (objdump : option (list string)) :
  (∀ key,
     main_text runner_exists nm_lines rc log_lines objdump
     = Raise (KeyError key)
     ↔ runner_exists = true
       ∧ ∃ pre post,
           data_symbols = pre ++ key :: post
           ∧ (∀ line a, line ∈ nm_lines → nm_entry line ≠ Some (key, a))
           ∧ ∀ k, k ∈ pre →
                  ∃ line a, line ∈ nm_lines ∧ nm_entry line = Some (k, a))
  ∧ ∀ i, main_text runner_exists nm_lines rc log_lines objdump
         ≠ Raise (KeyErrorInt i).
Proof.
  unfold main_text. split.
  - intros key. rewrite main_raises_iff. split.
    + intros (Hb & pre & key' & post & Hd & [= <-] & Hkey & Hpre).
      split; [done|]. exists pre, post. split; [done|]. split.
      * by apply parse_nm_None.
      * intros k Hk. by apply parse_nm_defined, Hpre.
    + intros (Hb & pre & post & Hd & Hkey & Hpre).
      split; [done|]. exists pre, key, post.
      split; [done|]. split; [done|]. split.
      * by apply parse_nm_None.
      * intros k Hk. by apply parse_nm_defined, Hpre.
  - intros i Hi. apply main_raises_iff in Hi
      as (_ & pre & key & post & _ & Hx & _). discriminate.
Qed.

Lemma main_text_key_error_witness :
  true = true
  ∧ ∃ pre post,
      data_symbols = pre ++ "g_data1"%string :: post
      ∧ (∀ line a, line ∈ take 15 Sample.nm_lines →
                   nm_entry line ≠ Some ("g_data1"%string, a))
      ∧ ∀ k, k ∈ pre →
             ∃ line a, line ∈ take 15 Sample.nm_lines
                       ∧ nm_entry line = Some (k, a).
Proof.
  apply (proj1 (proj1 (main_text_key_error true (take 15 Sample.nm_lines) 3
                         Sample.log None) "g_data1"%string)).
  vm_compute. reflexivity.
Defined.

(** X11. What a returned exit code means: without the runner it is 2;
    when the runner fails it is the exit code of the runner, and nothing is
    reported, whatever the log holds; otherwise it is 0 with an empty report
    or 1 with a report that is not empty. *)
Theorem exit_code_meaning (runner_exists : bool) (syms : gmap string Z)
    (rc : Z) (got : list MemW) (got_reg : list RegW)
    (objdump : option (list string)) (code : Z) (errors : list error) :
  main runner_exists syms rc got got_reg objdump = Ok (code, errors) →
  (runner_exists = false → code = 2 ∧ errors = [])
  ∧ (runner_exists = true → rc ≠ 0 → code = rc ∧ errors = [])
  ∧ (runner_exists = true → rc = 0 →
     (code = 0 ∧ errors = []) ∨ (code = 1 ∧ errors ≠ [])).
Proof.
  intros Hm. destruct runner_exists.
  2: { injection Hm as <- <-. by repeat split. }
  destruct (syms !! "tohost"%string) as [t|] eqn:Ht;
    [|by unfold main, sym in Hm; rewrite Ht in Hm].
  destruct (syms !! "g_data0"%string) as [g0|] eqn:H0;
    [|by unfold main, sym in Hm; rewrite Ht, H0 in Hm].
  destruct (syms !! "g_data1"%string) as [g1|] eqn:H1;
    [|by unfold main, sym in Hm; rewrite Ht, H0, H1 in Hm].
  destruct (syms !! "g_buf"%string) as [gb|] eqn:Hb;
    [|by unfold main, sym in Hm; rewrite Ht, H0, H1, Hb in Hm].
  destruct (main_returns syms rc got got_reg objdump _ _ _ _ Ht H0 H1 Hb)
    as (code' & errors' & Hm' & Hcases).
  rewrite Hm' in Hm. injection Hm as -> ->.
  split; [done|]. split; intros _ Hrc; destruct Hcases as [?|[?|?]];
    destruct_and?; try done; auto.
Qed.

Lemma exit_code_meaning_witness :
  (true = false → 1 = 2 ∧ [SpuriousWrite 2; UnexpectedTrapWrite] = [])
  ∧ (true = true → 0 ≠ 0 → 1 = 0 ∧ [SpuriousWrite 2; UnexpectedTrapWrite] = [])
  ∧ (true = true → 0 = 0 →
     (1 = 0 ∧ [SpuriousWrite 2; UnexpectedTrapWrite] = []) ∨ (1 = 1 ∧ [SpuriousWrite 2; UnexpectedTrapWrite] ≠ [])).
Proof.
  apply (exit_code_meaning true Sample.syms 0 Sample.twice_g0_got
           Sample.good_got_reg (Some Sample.listing)).
  vm_compute. reflexivity.
Defined.

Lemma matched_Some_pc got e k :
  matched got e = Some k → ∃ p, e_pc e = Some p ∧ selects got p e k.
Proof.
  intros Hk. destruct (e_pc e) as [p|] eqn:Hp.
  - exists p. split; [done|]. by apply matched_selects.
  - unfold matched in Hk. by rewrite Hp in Hk.
Qed.

Lemma match_errors_none got EXP :
  match_errors got EXP = []
  ↔ ∀ e, e ∈ EXP → ∃ p k, e_pc e = Some p ∧ selects got p e k.
Proof.
  unfold match_errors. rewrite bind_nil. split; intros H e He.
  - apply H, match_error_nil in He as [k Hk].
    apply matched_Some_pc in Hk as (p & Hp & Hsel). by exists p, k.
  - apply match_error_nil. destruct (H e He) as (p & k & Hp & Hsel).
    exists k. by apply (matched_selects got e p k).
Qed.

Lemma order_errors_none got EXP :
  match_errors got EXP = [] →
  order_errors got EXP = []
  ↔ ∀ i a b, EXP !! i ≫= matched got = Some a →
             EXP !! S i ≫= matched got = Some b → (a < b)%nat.
Proof.
  intros Hm. split.
  - intros Hnil i a b Ha Hb.
    destruct (decide (a < b)%nat) as [|Hge]; [done|]. exfalso.
    assert (Hin : OrderMismatch i (S i) ∈ order_errors got EXP).
    { apply elem_of_order_errors; [done|]. split; [done|]. split.
      - destruct (EXP !! S i) as [e|] eqn:He; [|done].
        by apply lookup_lt_Some in He.
      - exists a, b. repeat split; [done..|lia]. }
    rewrite Hnil in Hin. by apply elem_of_nil in Hin.
  - intros Hlt. destruct (order_errors got EXP) as [|err errs] eqn:Ho; [done|].
    assert (Hin : err ∈ order_errors got EXP)
      by (rewrite Ho; apply list_elem_of_here).
    destruct (order_errors_kind _ _ _ Hin) as [i ->].
    apply elem_of_order_errors in Hin as (_ & _ & a & b & Ha & Hb & Hle);
      [|done].
    specialize (Hlt i a b Ha Hb). lia.
Qed.

Lemma adjacent_global (f : nat → option nat) (n : nat) :
  (∀ i, (i < n)%nat → is_Some (f i)) →
  (∀ i a b, f i = Some a → f (S i) = Some b → (a < b)%nat) →
  ∀ i j a b, (i < j)%nat → (j < n)%nat → f i = Some a → f j = Some b →
             (a < b)%nat.
Proof.
  intros Hall Hadj i j. induction j as [|j IH]; intros a b Hij Hj Ha Hb; [lia|].
  destruct (decide (i = j)) as [->|Hne]; [by eapply Hadj|].
  destruct (Hall j) as [c Hc]; [lia|].
  assert (a < c)%nat by (apply IH; [lia|lia|done|done]).
  assert (c < b)%nat by (by eapply Hadj). lia.
Qed.

Lemma order_errors_increasing got EXP :
  match_errors got EXP = [] →
  order_errors got EXP = []
  ↔ ∀ i j ei ej pi pj ki kj,
      (i < j)%nat → EXP !! i = Some ei → EXP !! j = Some ej →
      e_pc ei = Some pi → e_pc ej = Some pj →
      selects got pi ei ki → selects got pj ej kj → (ki < kj)%nat.
Proof.
  intros Hm. rewrite (order_errors_none _ _ Hm). split.
  - intros Hadj i j ei ej pi pj ki kj Hij Hi Hj Hpi Hpj Hsi Hsj.
    apply (adjacent_global (λ i, EXP !! i ≫= matched got) (length EXP))
      with (i := i) (j := j); try done.
    + by apply match_errors_nil.
    + by apply lookup_lt_Some in Hj.
    + rewrite Hi. simpl. by apply (matched_selects got ei pi ki).
    + rewrite Hj. simpl. by apply (matched_selects got ej pj kj).
  - intros Hglob i a b Ha Hb.
    destruct (EXP !! i) as [ei|] eqn:Hi; [|done].
    destruct (EXP !! S i) as [ej|] eqn:Hj; [|done].
    simpl in Ha, Hb.
    apply matched_Some_pc in Ha as (pi & Hpi & Hsi).
    apply matched_Some_pc in Hb as (pj & Hpj & Hsj).
    apply (Hglob i (S i) ei ej pi pj a b); try done. lia.
Qed.

Lemma g0_errors_none g_data0 got :
  g0_errors g_data0 got = [] ↔ written_once g_data0 got.
Proof.
  destruct (g0_errors_cases g_data0 got) as [[Hw ->]|[Hw ->]]; by split.
Qed.

Lemma misaligned_errors_none mis got :
  misaligned_errors mis got = []
  ↔ ∀ a w, mis = Some a → w ∈ got → w_pc w ≠ a.
Proof.
  destruct mis as [a|].
  - split.
    + intros Hnil a' w [= <-] Hw Hpc.
      assert (Hin : UnexpectedTrapWrite ∈ misaligned_errors (Some a) got)
        by (apply misaligned_errors_Some; eauto).
      rewrite Hnil in Hin. by apply elem_of_nil in Hin.
    + intros Hno.
      destruct (misaligned_errors (Some a) got) as [|err errs] eqn:He; [done|].
      assert (Hin : err ∈ misaligned_errors (Some a) got)
        by (rewrite He; apply list_elem_of_here).
      pose proof (misaligned_errors_kind _ _ _ Hin) as ->.
      apply misaligned_errors_Some in Hin as (w & Hw & Hpc).
      by destruct (Hno a w eq_refl Hw).
  - split; [done|]. by intros _.
Qed.

Lemma check_reg_none objdump REG got_reg :
  NoDup (x_label <$> REG) →
  check_reg objdump REG got_reg [] = []
  ↔ ∀ c, c ∈ REG →
         ∃ pc w,
           parse_objdump_for_final_reg_pc objdump (x_label c) (x_rd c)
           = Some pc
           ∧ w ∈ got_reg ∧ r_pc w = pc ∧ r_rd w = x_rd c
           ∧ r_val w = x_val c.
Proof.
  intros Hnd. rewrite check_reg_eq. cbn [app].
  set (m := (resolve_loop objdump REG [] ∅).2).
  assert (Hm : ∀ c, c ∈ REG →
            m !! x_label c
            = parse_objdump_for_final_reg_pc objdump (x_label c) (x_rd c)).
  { intros c Hc. by apply resolve_loop_map. }
  split.
  - intros Hnil c Hc. apply app_eq_nil in Hnil as [Hres Hreg].
    pose proof (proj1 (bind_nil _ _) Hres c Hc) as Hr.
    pose proof (proj1 (bind_nil _ _) Hreg c Hc) as Hg.
    unfold resolve_error in Hr. unfold reg_error in Hg. rewrite (Hm c Hc) in Hg.
    destruct (parse_objdump_for_final_reg_pc _ _ _) as [pc|]; [|done].
    destruct (existsb _ got_reg) eqn:Hex; [|done].
    apply existsb_reg in Hex as (w & Hw & H1 & H2 & H3). by exists pc, w.
  - intros Hall. apply app_nil. split; apply bind_nil; intros c Hc;
      destruct (Hall c Hc) as (pc & w & Hpc & Hw & H1 & H2 & H3).
    + unfold resolve_error. by rewrite Hpc.
    + unfold reg_error. rewrite (Hm c Hc), Hpc.
      assert (Hex : existsb (λ w, (r_pc w =? pc) && (r_rd w =? x_rd c)
                                  && (r_val w =? x_val c)) got_reg = true)
        by (apply existsb_reg; eauto). by rewrite Hex.
Qed.

Lemma REG_EXP_labels : NoDup (x_label <$> REG_EXP).
Proof.
  unfold REG_EXP. rewrite !fmap_cons, fmap_nil. cbn [x_label].
  repeat (apply NoDup_cons; split;
          [rewrite ?elem_of_cons, elem_of_nil; intros H;
           repeat destruct H as [H|H]; done|]).
  apply NoDup_nil_2.
Qed.


Lemma main_pass_inv b syms rc got got_reg objdump :
  main b syms rc got got_reg objdump = Ok (0, []) →
  b = true ∧ rc = 0
  ∧ ∃ tohost g_data0 g_data1 g_buf,
      syms !! "tohost"%string = Some tohost
      ∧ syms !! "g_data0"%string = Some g_data0
      ∧ syms !! "g_data1"%string = Some g_data1
      ∧ syms !! "g_buf"%string = Some g_buf
      ∧ match_errors got (EXP_of syms tohost g_data0 g_data1 g_buf) = []
      ∧ order_errors got (EXP_of syms tohost g_data0 g_data1 g_buf) = []
      ∧ g0_errors g_data0 got = []
      ∧ misaligned_errors (pcs syms "L_MISALIGNED_SW") got = []
      ∧ check_reg objdump REG_EXP got_reg [] = [].
Proof.
  intros Hm. destruct b; [|done]. split; [done|].
  destruct (syms !! "tohost"%string) as [t|] eqn:Ht;
    [|by unfold main, sym in Hm; rewrite Ht in Hm].
  destruct (syms !! "g_data0"%string) as [g0|] eqn:H0;
    [|by unfold main, sym in Hm; rewrite Ht, H0 in Hm].
  destruct (syms !! "g_data1"%string) as [g1|] eqn:H1;
    [|by unfold main, sym in Hm; rewrite Ht, H0, H1 in Hm].
  destruct (syms !! "g_buf"%string) as [gb|] eqn:Hb;
    [|by unfold main, sym in Hm; rewrite Ht, H0, H1, Hb in Hm].
  rewrite (main_resolved _ _ _ _ _ _ _ _ _ Ht H0 H1 Hb) in Hm.
  destruct (Z.eqb_spec rc 0) as [->|Hrc]; [|congruence]. split; [done|].
  exists t, g0, g1, gb. do 4 (split; [done|]).
  rewrite (main_eq _ _ _ _ _ _ _ _ Ht H0 H1 Hb) in Hm.
  destruct (stage1_5_errors syms t g0 g1 gb got) eqn:H15; [|done].
  destruct (check_reg objdump REG_EXP got_reg []) eqn:H6; [|done].
  unfold stage1_5_errors in H15. cbv zeta in H15.
  apply app_eq_nil in H15 as [Hmatch H15].
  apply app_eq_nil in H15 as [Horder H15].
  by apply app_eq_nil in H15 as [Hg0 Hmis].
Qed.

(** X12. When a run passes. [main] returns 0 exactly when the runner
    exists and exits with 0, the four data symbols resolve, every expected
    event has its label resolved and selects a write of the trace, the
    selected writes stand in the trace in the order of the expected events,
    [g_data0] is written exactly once and with the expected value, no write
    is logged at the pc of the misaligned store, and for every register
    check the listing gives a pc at which the trace holds a write of the
    expected register and value. *)
Theorem pass_iff (runner_exists : bool) (syms : gmap string Z) (rc : Z)
    (got : list MemW) (got_reg : list RegW)
    (objdump : option (list string)) :
  main runner_exists syms rc got got_reg objdump = Ok (0, [])
  ↔ runner_exists = true ∧ rc = 0
    ∧ ∃ tohost g_data0 g_data1 g_buf,
        syms !! "tohost"%string = Some tohost
        ∧ syms !! "g_data0"%string = Some g_data0
        ∧ syms !! "g_data1"%string = Some g_data1
        ∧ syms !! "g_buf"%string = Some g_buf
        ∧ let EXP := EXP_of syms tohost g_data0 g_data1 g_buf in
          (∀ e, e ∈ EXP → ∃ p k, e_pc e = Some p ∧ selects got p e k)
          ∧ (∀ i j ei ej pi pj ki kj,
               (i < j)%nat → EXP !! i = Some ei → EXP !! j = Some ej →
               e_pc ei = Some pi → e_pc ej = Some pj →
               selects got pi ei ki → selects got pj ej kj → (ki < kj)%nat)
          ∧ written_once g_data0 got
          ∧ (∀ a w, syms !! "L_MISALIGNED_SW"%string = Some a → w ∈ got →
                    w_pc w ≠ a)
          ∧ ∀ c, c ∈ REG_EXP →
                 ∃ pc w,
                   parse_objdump_for_final_reg_pc objdump (x_label c) (x_rd c)
                   = Some pc
                   ∧ w ∈ got_reg ∧ r_pc w = pc ∧ r_rd w = x_rd c
                   ∧ r_val w = x_val c.
Proof.
  split.
  - intros Hm. apply main_pass_inv in Hm
      as (-> & -> & t & g0 & g1 & gb & Ht & H0 & H1 & Hb
          & Hmatch & Horder & Hg0 & Hmis & Hreg).
    do 2 (split; [done|]). exists t, g0, g1, gb. do 4 (split; [done|]).
    cbv zeta. split; [by apply match_errors_none|].
    split; [by apply order_errors_increasing|].
    split; [by apply g0_errors_none|].
    split; [|by apply check_reg_none; [apply REG_EXP_labels|]].
    intros a w Ha. eapply misaligned_errors_none; [done|]. exact Ha.
  - intros (-> & -> & t & g0 & g1 & gb & Ht & H0 & H1 & Hb & H).
    cbv zeta in H. destruct H as (Hmatch & Horder & Hg0 & Hmis & Hreg).
    rewrite (main_eq _ _ _ _ _ _ _ _ Ht H0 H1 Hb).
    apply match_errors_none in Hmatch.
    apply (order_errors_increasing _ _ Hmatch) in Horder.
    apply g0_errors_none in Hg0.
    assert (Hmis' : misaligned_errors (pcs syms "L_MISALIGNED_SW") got = []).
    { apply misaligned_errors_none. intros a w Ha. by apply Hmis. }
    apply (check_reg_none _ _ _ REG_EXP_labels) in Hreg.
    unfold stage1_5_errors. cbv zeta.
    by rewrite Hmatch, Horder, Hg0, Hmis', Hreg.
Qed.

Lemma pass_iff_witness :
  true = true ∧ 0 = 0
  ∧ ∃ tohost g_data0 g_data1 g_buf,
      Sample.syms !! "tohost"%string = Some tohost
      ∧ Sample.syms !! "g_data0"%string = Some g_data0
      ∧ Sample.syms !! "g_data1"%string = Some g_data1
      ∧ Sample.syms !! "g_buf"%string = Some g_buf
      ∧ let EXP := EXP_of Sample.syms tohost g_data0 g_data1 g_buf in
        (∀ e, e ∈ EXP →
              ∃ p k, e_pc e = Some p ∧ selects Sample.good_got p e k)
        ∧ (∀ i j ei ej pi pj ki kj,
             (i < j)%nat → EXP !! i = Some ei → EXP !! j = Some ej →
             e_pc ei = Some pi → e_pc ej = Some pj →
             selects Sample.good_got pi ei ki →
             selects Sample.good_got pj ej kj → (ki < kj)%nat)
        ∧ written_once g_data0 Sample.good_got
        ∧ (∀ a w, Sample.syms !! "L_MISALIGNED_SW"%string = Some a →
                  w ∈ Sample.good_got → w_pc w ≠ a)
        ∧ ∀ c, c ∈ REG_EXP →
               ∃ pc w,
                 parse_objdump_for_final_reg_pc (Some Sample.listing)
                   (x_label c) (x_rd c) = Some pc
                 ∧ w ∈ Sample.good_got_reg ∧ r_pc w = pc ∧ r_rd w = x_rd c
                 ∧ r_val w = x_val c.
Proof.
  apply (proj1 (pass_iff true Sample.syms 0 Sample.good_got
                  Sample.good_got_reg (Some Sample.listing))).
  vm_compute. reflexivity.
Defined.

Lemma increasing_lower (f : nat → option nat) (n : nat) :
  (∀ i, (i < n)%nat → is_Some (f i)) →
  (∀ i a b, f i = Some a → f (S i) = Some b → (a < b)%nat) →
  ∀ i a, (i < n)%nat → f i = Some a → (i ≤ a)%nat.
Proof.
  intros Hall Hadj i. induction i as [|i IH]; intros a Hi Ha; [lia|].
  destruct (Hall i) as [c Hc]; [lia|].
  assert (i ≤ c)%nat by (apply IH; [lia|done]).
  assert (c < a)%nat by (by eapply Hadj). lia.
Qed.

Lemma matched_lt got e k : matched got e = Some k → (k < length got)%nat.
Proof.
  intros Hk. apply matched_Some_pc in Hk
    as (p & _ & off & w & _ & Hw & _). by apply lookup_lt_Some in Hw.
Qed.

Lemma increasing_length got EXP :
  match_errors got EXP = [] → order_errors got EXP = [] →
  (length EXP ≤ length got)%nat.
Proof.
  intros Hm Ho. destruct (decide (length EXP = 0)%nat) as [|Hpos]; [lia|].
  pose proof (proj1 (match_errors_nil got EXP) Hm) as Hall.
  destruct (Hall (length EXP - 1)%nat) as [k Hk]; [lia|].
  assert (length EXP - 1 ≤ k)%nat.
  { apply (increasing_lower (λ i, EXP !! i ≫= matched got) (length EXP));
      [done| |lia|done].
    by apply order_errors_none. }
  assert (k < length got)%nat; [|lia].
  destruct (EXP !! (length EXP - 1)%nat) as [e|]; [|done].
  by apply matched_lt in Hk.
Qed.

Lemma parse_objdump_missing label rd_num :
  parse_objdump_for_final_reg_pc None label rd_num = None.
Proof. reflexivity. Qed.

Lemma reg_checks_length got_reg objdump :
  check_reg objdump REG_EXP got_reg [] = [] →
  (length REG_EXP ≤ length got_reg)%nat ∧ is_Some objdump.
Proof.
  intros Hreg.
  pose proof (proj1 (check_reg_none _ _ _ REG_EXP_labels) Hreg) as Hall.
  split.
  - set (key := λ c : RegCheck, (x_rd c, x_val c)).
    set (wkey := λ w : RegW, (r_rd w, r_val w)).
    rewrite <- (length_fmap key REG_EXP), <- (length_fmap wkey got_reg).
    apply submseteq_length, NoDup_submseteq.
    + unfold REG_EXP, key. rewrite !fmap_cons, fmap_nil.
      cbn [x_rd x_val].
      repeat (apply NoDup_cons; split;
              [rewrite ?elem_of_cons, elem_of_nil; intros H;
               repeat destruct H as [H|H]; done|]).
      apply NoDup_nil_2.
    + intros p Hp. apply list_elem_of_fmap in Hp as (c & -> & Hc).
      destruct (Hall c Hc) as (pc & w & _ & Hw & _ & Hrd & Hval).
      apply list_elem_of_fmap. exists w. split; [|done].
      unfold key, wkey. by rewrite Hrd, Hval.
  - destruct objdump; [by eexists|].
    destruct (Hall {| x_label := "L_LI_T0"; x_rd := 5; x_val := 0x12345678 |})
      as (pc & w & Hpc & _); [apply list_elem_of_here|done].
Qed.

Lemma written_once_selected got g_data0 e p k :
  written_once g_data0 got → selects got p e k → e_addr e = g_data0 →
  e_data e = 0x12345678 ∧ e_mask e = 0xF.
Proof.
  intros (i & w0 & Hi & _ & Hdata & Hmask & Huniq)
         (off & w & _ & Hk & (_ & Haddr & Hd & Hm) & _) He.
  assert (k = i) as -> by (apply (Huniq k w); congruence).
  assert (w = w0) as -> by congruence. split; congruence.
Qed.

(** X13. What a passing run needs: a trace of at least six memory writes
    and five register writes (so an empty log never passes), a listing, and
    a [g_data0] whose address is not that of [g_data1], [g_buf] or
    [tohost]. *)
Theorem pass_needs (runner_exists : bool) (syms : gmap string Z) (rc : Z)
    (got : list MemW) (got_reg : list RegW)
    (objdump : option (list string)) :
  main runner_exists syms rc got got_reg objdump = Ok (0, []) →
  (6 ≤ length got)%nat ∧ (5 ≤ length got_reg)%nat ∧ is_Some objdump
  ∧ ∀ name, name ∈ ["g_data1"; "g_buf"; "tohost"]%string →
            syms !! name ≠ syms !! "g_data0"%string.
Proof.
  intros Hm. apply main_pass_inv in Hm
    as (-> & -> & t & g0 & g1 & gb & Ht & H0 & H1 & Hb
        & Hmatch & Horder & Hg0 & Hmis & Hreg).
  split; [exact (increasing_length _ _ Hmatch Horder)|].
  destruct (reg_checks_length _ _ Hreg) as [Hlen Hobj].
  split; [exact Hlen|]. split; [exact Hobj|].
  apply g0_errors_none in Hg0.
  pose proof (proj1 (match_errors_none _ _) Hmatch) as Hsel.
  assert (Hno : ∀ e, e ∈ EXP_of syms t g0 g1 gb → e_addr e = g0 →
                     e_data e = 0x12345678).
  { intros e He Haddr. destruct (Hsel e He) as (p & k & _ & Hk).
    by destruct (written_once_selected _ _ _ _ _ Hg0 Hk Haddr). }
  intros name Hname. rewrite H0.
  rewrite !elem_of_cons, elem_of_nil in Hname.
  destruct Hname as [->|[->|[->|[]]]].
  - rewrite H1. intros [= ->].
    specialize (Hno {| e_pc := pcs syms "L_SW_GDATA1"; e_addr := g0;
                       e_data := 0xABCDEF01; e_mask := 0xF |}).
    cbn in Hno. unfold EXP_of in Hno.
    rewrite !elem_of_cons in Hno. by specialize (Hno ltac:(auto) eq_refl).
  - rewrite Hb. intros [= ->].
    specialize (Hno {| e_pc := pcs syms "L_SW_GBUF"; e_addr := g0 + 0;
                       e_data := 0x11223344; e_mask := 0xF |}).
    cbn in Hno. unfold EXP_of in Hno.
    rewrite !elem_of_cons in Hno.
    by specialize (Hno ltac:(auto) (Z.add_0_r g0)).
  - rewrite Ht. intros [= ->].
    specialize (Hno {| e_pc := pcs syms "L_SW_TOHOST"; e_addr := g0;
                       e_data := 0x1; e_mask := 0xF |}).
    cbn in Hno. unfold EXP_of in Hno.
    rewrite !elem_of_cons in Hno. by specialize (Hno ltac:(auto 10) eq_refl).
Qed.

Lemma pass_needs_witness :
  (6 ≤ length Sample.good_got)%nat ∧ (5 ≤ length Sample.good_got_reg)%nat
  ∧ is_Some (Some Sample.listing)
  ∧ ∀ name, name ∈ ["g_data1"; "g_buf"; "tohost"]%string →
            Sample.syms !! name ≠ Sample.syms !! "g_data0"%string.
Proof.
  apply (pass_needs true Sample.syms 0 Sample.good_got Sample.good_got_reg
           (Some Sample.listing)).
  vm_compute. reflexivity.
Defined.

Lemma resolve_loop_missing REG errors m :
  resolve_loop None REG errors m
  = (errors ++ ((λ c, LabelNotFound (x_label c)) <$> REG), m).
Proof.
  revert errors. induction REG as [|c REG IH]; intros errors.
  - simpl. by rewrite app_nil_r.
  - cbn [resolve_loop parse_objdump_for_final_reg_pc]. rewrite IH.
    by rewrite fmap_cons, <- app_assoc.
Qed.

Lemma regcheck_loop_empty got_reg REG errors :
  regcheck_loop got_reg ∅ REG errors = errors.
Proof.
  revert errors. induction REG as [|c REG IH]; intros errors; [done|].
  cbn [regcheck_loop]. by rewrite lookup_empty.
Qed.

Lemma check_reg_missing REG got_reg errors :
  check_reg None REG got_reg errors
  = errors ++ ((λ c, LabelNotFound (x_label c)) <$> REG).
Proof.
  unfold check_reg. rewrite resolve_loop_missing.
  apply regcheck_loop_empty.
Qed.

(** X14. Without the listing a run that would pass fails with one
    [Objdump PC not found] error for each of the five register checks, in
    the order of [REG_EXP], and with no other error, whatever register
    writes the log holds. *)
Theorem missing_listing (syms : gmap string Z) (got : list MemW)
    (got_reg got_reg' : list RegW) (objdump : option (list string)) :
  main true syms 0 got got_reg objdump = Ok (0, []) →
  main true syms 0 got got_reg' None
  = Ok (1, LabelNotFound <$>
             ["L_LI_T0"; "L_LI_T1"; "L_LI_T2"; "L_LI_T3"; "L_LI_T0_1"]%string).
Proof.
  intros Hm. apply main_pass_inv in Hm
    as (_ & _ & t & g0 & g1 & gb & Ht & H0 & H1 & Hb
        & Hmatch & Horder & Hg0 & Hmis & _).
  rewrite (main_eq _ _ _ _ _ _ _ _ Ht H0 H1 Hb).
  unfold stage1_5_errors. cbv zeta. rewrite Hmatch, Horder, Hg0, Hmis.
  cbn [app]. by rewrite check_reg_missing.
Qed.

Lemma missing_listing_witness :
  main true Sample.syms 0 Sample.good_got [] None
  = Ok (1, LabelNotFound <$>
             ["L_LI_T0"; "L_LI_T1"; "L_LI_T2"; "L_LI_T3"; "L_LI_T0_1"]%string).
Proof.
  apply (missing_listing Sample.syms Sample.good_got Sample.good_got_reg []
           (Some Sample.listing)).
  vm_compute. reflexivity.
Defined.

Lemma match_loop_accounting got EXP idx errors positions :
  (∀ i, is_Some (positions !! i) → (i < idx)%nat) →
  (length (match_loop got idx EXP errors positions).1
   + size (match_loop got idx EXP errors positions).2
   = length errors + size positions + length EXP)%nat
  ∧ ∀ i, is_Some ((match_loop got idx EXP errors positions).2 !! i) →
         is_Some (positions !! i) ∨ (idx ≤ i < idx + length EXP)%nat.
Proof.
  revert idx errors positions.
  induction EXP as [|e EXP IH]; intros idx errors positions Hdom.
  - cbn [match_loop fst snd length]. split; [lia|auto].
  - cbn [match_loop length].
    destruct (e_pc e) as [p|].
    + destruct (try_offsets got p e offsets) as [cand|].
      * destruct (IH (S idx) errors (<[idx := cand]> positions)) as [Hn Hd].
        { intros i. rewrite lookup_insert_is_Some'. intros [->|Hi]; [lia|].
          apply Hdom in Hi. lia. }
        split.
        -- rewrite Hn, map_size_insert_None; [lia|].
           destruct (positions !! idx) eqn:Hi; [|done].
           assert (idx < idx)%nat by (apply Hdom; eauto). lia.
        -- intros i Hi. apply Hd in Hi as [Hi|Hi]; [|right; lia].
           apply lookup_insert_is_Some' in Hi as [->|Hi]; [right; lia|by left].
      * destruct (IH (S idx) (errors ++ [MissingWrite p (e_addr e) (e_data e)
                                           (e_mask e)]) positions)
          as [Hn Hd].
        { intros i Hi. apply Hdom in Hi. lia. }
        split.
        -- rewrite Hn, length_app. simpl. lia.
        -- intros i Hi. apply Hd in Hi as [Hi|Hi]; [by left|right; lia].
    + destruct (IH (S idx) (errors ++ [SymbolNotFound e]) positions)
        as [Hn Hd].
      { intros i Hi. apply Hdom in Hi. lia. }
      split.
      * rewrite Hn, length_app. simpl. lia.
      * intros i Hi. apply Hd in Hi as [Hi|Hi]; [by left|right; lia].
Qed.

(** X15. Stage 2 accounts for every expected event exactly once: it
    leaves either an error or a position for it, so the errors and the
    positions together are as many as the expected events; a recorded
    position belongs to the index of an expected event and is an index of
    the trace; and when no error was appended every index has its position,
    which is what the order check reads. *)
Theorem stage2_accounting (got : list MemW) (EXP : list ExpEvent) :
  let errors := (match_loop got 0 EXP [] ∅).1 in
  let positions := (match_loop got 0 EXP [] ∅).2 in
  (length errors + size positions = length EXP)%nat
  ∧ (∀ i k, positions !! i = Some k →
            (i < length EXP)%nat ∧ (k < length got)%nat)
  ∧ (errors = [] → ∀ i, (i < length EXP)%nat → is_Some (positions !! i)).
Proof.
  intros errors positions.
  destruct (match_loop_accounting got EXP 0 [] ∅) as [Hn Hd].
  { intros i. rewrite lookup_empty. by intros [? ?]. }
  fold errors positions in Hn, Hd. split; [|split].
  - rewrite Hn, map_size_empty. simpl. lia.
  - intros i k Hi. split.
    + destruct (Hd i) as [Hi'|Hi']; [by eexists| |lia].
      rewrite lookup_empty in Hi'. by destruct Hi'.
    + unfold positions in Hi. rewrite match_loop_positions_0 in Hi.
      destruct (EXP !! i) as [e|]; [|done]. by apply matched_lt in Hi.
  - intros Hnil i Hi. unfold positions. rewrite match_loop_positions_0.
    apply match_errors_nil; [|done].
    unfold errors in Hnil. by rewrite match_loop_errors in Hnil.
Qed.

Lemma startswith_split s rest :
  Py.startswith s rest = true → rest = s ++ drop (length s) rest.
Proof.
  revert rest. induction s as [|c s IH]; intros rest; [done|].
  destruct rest as [|c' rest]; [done|]. cbn [Py.startswith].
  intros H. apply andb_true_iff in H as [Hc H].
  apply Ascii.eqb_eq in Hc as ->. cbn [length drop app]. f_equal. by apply IH.
Qed.

Lemma run_Lit_split s its pos rest opened groups r :
  Re.run (Re.Lit s :: its) pos rest opened groups = Some r →
  ∃ rest', rest = s ++ rest'
           ∧ Re.run its (pos + length s)%nat rest' opened groups = Some r.
Proof.
  cbn [Re.run]. destruct (Py.startswith s rest) eqn:Hs; [|done].
  intros H. exists (drop (length s) rest). split; [|done].
  by apply startswith_split.
Qed.

Lemma greedy_split {R} lo p s (k : nat → option R) r :
  Re.greedy lo p s k = Some r →
  ∃ l rest, s = l ++ rest ∧ (lo ≤ length l)%nat ∧ forallb p l = true
            ∧ k (length l) = Some r ∧ rest = drop (length l) s.
Proof.
  intros H. apply greedy_Some in H as (m & Hm & H).
  destruct (run_length_take p s m ltac:(lia)) as [Hall Hlen].
  exists (take m s), (drop m s). rewrite take_drop, Hlen.
  repeat split; try done. lia.
Qed.

Lemma run_Plus_split p its pos rest opened groups r :
  Re.run (Re.Plus p :: its) pos rest opened groups = Some r →
  ∃ l rest', rest = l ++ rest' ∧ l ≠ [] ∧ forallb p l = true
             ∧ Re.run its (pos + length l)%nat rest' opened groups = Some r.
Proof.
  cbn [Re.run]. intros H.
  apply greedy_split in H as (l & rest' & -> & Hlen & Hall & H & ->).
  exists l, (drop (length l) (l ++ rest')). rewrite drop_app_length in *.
  repeat split; try done. intros ->. simpl in Hlen. lia.
Qed.

Lemma run_Star_split p its pos rest opened groups r :
  Re.run (Re.Star p :: its) pos rest opened groups = Some r →
  ∃ l rest', rest = l ++ rest' ∧ forallb p l = true
             ∧ Re.run its (pos + length l)%nat rest' opened groups = Some r.
Proof.
  cbn [Re.run]. intros H.
  apply greedy_split in H as (l & rest' & -> & Hlen & Hall & H & ->).
  exists l, (drop (length l) (l ++ rest')). rewrite drop_app_length in *.
  by repeat split.
Qed.

Lemma run_Bol_inv its rest opened groups r :
  Re.run (Re.Bol :: its) 0 rest opened groups = Some r →
  Re.run its 0 rest opened groups = Some r.
Proof. by intros H. Qed.

Lemma run_Open_inv its pos rest opened groups r :
  Re.run (Re.Open :: its) pos rest opened groups = Some r →
  Re.run its pos rest (pos :: opened) groups = Some r.
Proof. by intros H. Qed.

Lemma run_Close_inv its pos rest b opened groups r :
  Re.run (Re.Close :: its) pos rest (b :: opened) groups = Some r →
  Re.run its pos rest opened (groups ++ [(b, pos)]) = Some r.
Proof. by intros H. Qed.

Lemma run_Star_fwd p l its pos rest opened groups r :
  forallb p l = true →
  match rest with c :: _ => p c = false | [] => True end →
  Re.run its (pos + length l)%nat rest opened groups = Some r →
  Re.run (Re.Star p :: its) pos (l ++ rest) opened groups = Some r.
Proof.
  intros Hall Hrest H. cbn [Re.run]. unfold Re.greedy.
  rewrite run_length_app by done. cbn [Nat.ltb Nat.leb].
  apply backtrack_top. by rewrite drop_app_length.
Qed.

Lemma class_prefix_unique p (l1 l2 r1 r2 : list ascii) :
  forallb p l1 = true → forallb p l2 = true →
  match r1 with c :: _ => p c = false | [] => True end →
  match r2 with c :: _ => p c = false | [] => True end →
  l1 ++ r1 = l2 ++ r2 → l1 = l2 ∧ r1 = r2.
Proof.
  intros H1 H2 Hr1 Hr2 Heq. apply app_inj_1; [|done].
  rewrite <- (run_length_app p l1 r1), <- (run_length_app p l2 r2) by done.
  by rewrite Heq.
Qed.

Lemma numeral_head (p : ascii → bool) h rest :
  numeral16 h → (∀ c, Re.xdigit c = true → p c = false) →
  match h ++ rest with c :: _ => p c = false | [] => True end.
Proof.
  intros [Hne Hall] Hp. destruct h as [|c h]; [done|]. simpl in *.
  apply andb_true_iff in Hall as [Hc _]. auto.
Qed.

Lemma matches_run pat line :
  Re.matches pat line = true
  ↔ is_Some (Re.run pat 0 (list_ascii_of_string line) [] []).
Proof.
  unfold Re.matches, Re.rmatch.
  destruct (Re.run pat 0 _ [] []); split; try done; by intros [? ?].
Qed.

Lemma label_re_fwd label ws h ws' rest :
  forallb Py.is_space ws = true → numeral16 h → blank ws' →
  is_Some (Re.run (label_re label) 0
             (header_text ws h ws' (list_ascii_of_string label) rest) [] []).
Proof.
  intros Hws Hh Hws'. unfold label_re, header_text.
  eexists. apply run_Bol_fwd.
  apply run_Star_fwd; [done|by apply numeral_head, xdigit_not_space|].
  apply run_group_fwd; [apply Hh|apply Hh| |].
  { by apply blank_head, space_not_xdigit. }
  apply run_Plus_fwd; [apply Hws'|apply Hws'|done|].
  do 3 apply run_Lit_fwd. reflexivity.
Qed.

Lemma label_re_inv label s gs :
  Re.run (label_re label) 0 s [] [] = Some gs →
  ∃ ws h ws' rest,
    s = header_text ws h ws' (list_ascii_of_string label) rest
    ∧ forallb Py.is_space ws = true ∧ numeral16 h ∧ blank ws'.
Proof.
  unfold label_re. intros H. apply run_Bol_inv in H.
  apply run_Star_split in H as (ws & r0 & -> & Hws & H).
  apply run_Open_inv in H.
  apply run_Plus_split in H as (h & r1 & -> & Hne & Hh & H).
  apply run_Close_inv in H.
  apply run_Plus_split in H as (ws' & r2 & -> & Hne' & Hws' & H).
  apply run_Lit_split in H as (r3 & -> & H).
  apply run_Lit_split in H as (r4 & -> & H).
  apply run_Lit_split in H as (r5 & -> & H).
  by exists ws, h, ws', r5.
Qed.

(** X16. The lines the first loop of the scanner takes for the header of
    [label] are exactly those made of optional white space, an address in
    hexadecimal digits, white space, and the label between [<] and [>:],
    whatever follows. *)
Theorem label_header_shape (label line : string) :
  Re.matches (label_re label) line = true
  ↔ ∃ ws h ws' rest,
      list_ascii_of_string line
      = header_text ws h ws' (list_ascii_of_string label) rest
      ∧ forallb Py.is_space ws = true ∧ numeral16 h ∧ blank ws'.
Proof.
  rewrite matches_run. split.
  - intros [gs H]. by apply label_re_inv in H.
  - intros (ws & h & ws' & rest & -> & Hws & Hh & Hws').
    by apply label_re_fwd.
Qed.

Lemma next_label_re_fwd ws h ws' l rest :
  forallb Py.is_space ws = true → numeral16 h → blank ws' →
  l ≠ [] → forallb Re.not_gt l = true →
  is_Some (Re.run next_label_re 0 (header_text ws h ws' l rest) [] []).
Proof.
  intros Hws Hh Hws' Hne Hl. unfold next_label_re, header_text.
  eexists. apply run_Bol_fwd.
  apply run_Star_fwd; [done|by apply numeral_head, xdigit_not_space|].
  apply run_Plus_fwd; [apply Hh|apply Hh| |].
  { by apply blank_head, space_not_xdigit. }
  apply run_Plus_fwd; [apply Hws'|apply Hws'|done|].
  apply run_Lit_fwd. apply run_Plus_fwd; [done|done|done|].
  apply run_Lit_fwd. reflexivity.
Qed.

Lemma header_text_label ws1 h1 ws1' l1 r1 ws2 h2 ws2' l2 r2 :
  forallb Py.is_space ws1 = true → numeral16 h1 → blank ws1' →
  forallb Re.not_gt l1 = true →
  forallb Py.is_space ws2 = true → numeral16 h2 → blank ws2' →
  forallb Re.not_gt l2 = true →
  header_text ws1 h1 ws1' l1 r1 = header_text ws2 h2 ws2' l2 r2 → l1 = l2.
Proof.
  intros Hws1 Hh1 Hb1 Hl1 Hws2 Hh2 Hb2 Hl2. unfold header_text. intros Heq.
  apply (class_prefix_unique Py.is_space) in Heq as [_ Heq]; try done;
    try by apply numeral_head, xdigit_not_space.
  apply (class_prefix_unique Re.xdigit) in Heq as [_ Heq];
    try apply Hh1; try apply Hh2;
    try by apply blank_head, space_not_xdigit.
  apply (class_prefix_unique Py.is_space) in Heq as [_ Heq];
    try apply Hb1; try apply Hb2; try done.
  injection Heq as Heq.
  by apply (class_prefix_unique Re.not_gt) in Heq as [? _].
Qed.

Lemma label_header_shape_witness :
  ∃ ws h ws' rest,
    list_ascii_of_string (Sample.hdr "0000004c" "L_LI_T0_1")
    = header_text ws h ws' (list_ascii_of_string "L_LI_T0_1") rest
    ∧ forallb Py.is_space ws = true ∧ numeral16 h ∧ blank ws'.
Proof.
  apply (proj1 (label_header_shape "L_LI_T0_1"
                  (Sample.hdr "0000004c" "L_LI_T0_1"))).
  vm_compute. reflexivity.
Defined.

(** X17. A header line names one label only, and ends the block before it.
    A line taken for the header of a label (not empty, without [>]) also
    matches the pattern that ends a block, and is the header of no other
    such label: a label that is a prefix of another one, as [L_LI_T0] is of
    [L_LI_T0_1], is not mistaken for it. *)
Theorem header_lines (label line : string) :
  label ≠ ""%string →
  forallb Re.not_gt (list_ascii_of_string label) = true →
  Re.matches (label_re label) line = true →
  Re.matches next_label_re line = true
  ∧ ∀ label',
      forallb Re.not_gt (list_ascii_of_string label') = true →
      Re.matches (label_re label') line = true → label' = label.
Proof.
  intros Hne Hgt. rewrite !matches_run. intros [gs H].
  apply label_re_inv in H as (ws & h & ws' & rest & Hs & Hws & Hh & Hws').
  split.
  - rewrite Hs. apply next_label_re_fwd; try done.
    destruct label; [done|]. done.
  - intros label' Hgt'. rewrite matches_run. intros [gs' H'].
    apply label_re_inv in H'
      as (ws2 & h2 & ws2' & rest2 & Hs2 & Hws2 & Hh2 & Hws2').
    rewrite Hs in Hs2.
    apply header_text_label in Hs2; try done.
    rewrite <- (string_of_list_ascii_of_string label'),
            <- (string_of_list_ascii_of_string label). by rewrite Hs2.
Qed.

Lemma header_lines_witness :
  Re.matches next_label_re (Sample.hdr "00000030" "L_LI_T0") = true
  ∧ ∀ label',
      forallb Re.not_gt (list_ascii_of_string label') = true →
      Re.matches (label_re label') (Sample.hdr "00000030" "L_LI_T0") = true →
      label' = "L_LI_T0"%string.
Proof.
  apply (header_lines "L_LI_T0" (Sample.hdr "00000030" "L_LI_T0"));
    [done|vm_compute; reflexivity|vm_compute; reflexivity].
Defined.

Lemma mnem_char_plain c :
  Re.mnem_char c = true →
  Py.is_space c = false ∧ Ascii.eqb "009" c = false.
Proof. destruct c as [[] [] [] [] [] [] [] []]; vm_compute; auto; congruence. Qed.

Lemma space_not_mnem c : Py.is_space c = true → Re.mnem_char c = false.
Proof. destruct c as [[] [] [] [] [] [] [] []]; vm_compute; congruence. Qed.

Lemma xdigit_not_blank c : Re.xdigit c = true → Re.xdigit_or_blank c = true.
Proof. unfold Re.xdigit_or_blank. by intros ->. Qed.

Lemma lit_tab_fails its pos rest opened groups :
  match rest with
  | c :: _ => Ascii.eqb "009" c = false
  | [] => True
  end →
  Re.run (Re.Lit tab :: its) pos rest opened groups = None.
Proof.
  intros H. cbn [Re.run]. destruct rest as [|c rest]; [done|].
  unfold tab. cbn [Py.startswith]. by rewrite H.
Qed.

Lemma run_Plus_eq p its pos rest opened groups :
  Re.run (Re.Plus p :: its) pos rest opened groups
  = Re.greedy 1 p rest
      (λ n, Re.run its (pos + n)%nat (drop n rest) opened groups).
Proof. reflexivity. Qed.

(** The encoding, its padding and the tab: the class of the encoding takes
    the padding too, the white space after it then finds the tab but no
    second one, and the match goes on once the last space of the padding is
    given back. *)
Lemma run_raw_fwd body its pos rest opened groups r :
  body ≠ [] → forallb Re.xdigit_or_blank body = true →
  match rest with
  | c :: _ => Py.is_space c = false ∧ Ascii.eqb "009" c = false
  | [] => True
  end →
  Re.run its (pos + length body + 2)%nat rest opened groups = Some r →
  Re.run (Re.Plus Re.xdigit_or_blank :: Re.Plus Re.space :: Re.Lit tab :: its)
    pos (body ++ " "%char :: "009"%char :: rest) opened groups = Some r.
Proof.
  intros Hne Hall Hrest H.
  assert (Hsp : match rest with
                | c :: _ => Re.space c = false | [] => True end).
  { destruct rest; [done|]. apply Hrest. }
  assert (Htb : match rest with
                | c :: _ => Ascii.eqb "009" c = false | [] => True end).
  { destruct rest; [done|]. apply Hrest. }
  assert (H1 : Re.run_length Re.space ("009"%char :: rest) = 1%nat).
  { by apply (run_length_app Re.space ["009"%char] rest). }
  assert (H2 : Re.run_length Re.space (" "%char :: "009"%char :: rest)
               = 2%nat).
  { by apply (run_length_app Re.space [" "%char; "009"%char] rest). }
  set (k := λ n, Re.run (Re.Plus Re.space :: Re.Lit tab :: its) (pos + n)%nat
                   (drop n (body ++ " "%char :: "009"%char :: rest))
                   opened groups).
  change (Re.greedy 1 Re.xdigit_or_blank
            (body ++ " "%char :: "009"%char :: rest) k = Some r).
  unfold Re.greedy.
  assert (Hlen : Re.run_length Re.xdigit_or_blank
                   (body ++ " "%char :: "009"%char :: rest)
                 = S (length body)).
  { change (body ++ " "%char :: "009"%char :: rest)
      with (body ++ [" "%char] ++ "009"%char :: rest).
    rewrite app_assoc, run_length_app; [| |done].
    - rewrite length_app. simpl. lia.
    - rewrite forallb_app, Hall. done. }
  rewrite Hlen. cbn [Nat.ltb Nat.leb].
  assert (Htop : k (S (length body)) = None).
  { unfold k.
    change (body ++ " "%char :: "009"%char :: rest)
      with (body ++ [" "%char] ++ "009"%char :: rest).
    rewrite app_assoc.
    replace (S (length body)) with (length (body ++ [" "%char]))
      by (rewrite length_app; simpl; lia).
    rewrite drop_app_length, run_Plus_eq. unfold Re.greedy.
    rewrite H1.
    cbn [length Nat.ltb Nat.leb Re.backtrack drop].
    by rewrite lit_tab_fails. }
  cbn [Re.backtrack]. rewrite Htop.
  destruct (Nat.ltb_spec (length body) 1) as [Hlt|_].
  { destruct body; [done|]. simpl in Hlt. lia. }
  apply backtrack_top. unfold k. rewrite drop_app_length, run_Plus_eq.
  unfold Re.greedy. rewrite H2.
  cbn [length Nat.ltb Nat.leb Re.backtrack drop].
  rewrite lit_tab_fails by done.
  cbn [Re.run]. unfold tab. cbn [Py.startswith length drop].
  rewrite Ascii.eqb_refl. cbn [andb].
  replace (pos + length body + 1 + 1)%nat with (pos + length body + 2)%nat
    by lia.
  rewrite drop_0. by rewrite H.
Qed.

Lemma run_Eol_fwd nl pos opened groups :
  nl = [] ∨ nl = ["010"%char] →
  Re.run [Re.Eol] pos nl opened groups = Some groups.
Proof. by intros [-> | ->]. Qed.

Lemma run_group_star_fwd p l its pos rest opened groups r :
  forallb p l = true →
  match rest with c :: _ => p c = false | [] => True end →
  Re.run its (pos + length l)%nat rest opened
    (groups ++ [(pos, (pos + length l)%nat)]) = Some r →
  Re.run (Re.Open :: Re.Star p :: Re.Close :: its) pos (l ++ rest)
    opened groups = Some r.
Proof.
  intros Hall Hrest H.
  change (Re.run (Re.Star p :: Re.Close :: its) pos (l ++ rest)
            (pos :: opened) groups = Some r).
  by apply run_Star_fwd.
Qed.

Lemma insn_groups ws0 h ws1 raw mnem ws2 ops nl :
  forallb Py.is_space ws0 = true → numeral16 h → blank ws1 →
  raw ≠ [] → forallb Re.xdigit_or_blank raw = true →
  match raw with c :: _ => Py.is_space c = false | [] => True end →
  mnem ≠ [] → forallb Re.mnem_char mnem = true → blank ws2 →
  ops ≠ [] → forallb Re.dot ops = true →
  match ops with c :: _ => Py.is_space c = false | [] => True end →
  nl = [] ∨ nl = ["010"%char] →
  Re.rmatch insn_re
    (string_of_list_ascii (insn_text ws0 h ws1 raw mnem ws2 ops nl))
  = Some [h; mnem; ops].
Proof.
  intros Hws0 Hh Hws1 Hraw Hrawc Hraw0 Hm Hmc Hws2 Hops Hopsc Hops0 Hnl.
  unfold Re.rmatch. rewrite list_ascii_of_string_of_list_ascii.
  set (text := insn_text ws0 h ws1 raw mnem ws2 ops nl).
  assert (Hrun : ∃ gs,
    Re.run insn_re 0 text [] [] = Some gs
    ∧ map (λ '(b, e), take (e - b) (drop b text)) gs = [h; mnem; ops]).
  { eexists. split.
    - unfold insn_re, text, insn_text.
      apply run_Bol_fwd.
      apply run_Star_fwd; [done|by apply numeral_head, xdigit_not_space|].
      apply run_group_fwd; [apply Hh|apply Hh|done|].
      apply run_Lit_fwd.
      apply run_Plus_fwd; [apply Hws1|apply Hws1| |].
      { destruct raw; [done|]. exact Hraw0. }
      change (list_ascii_of_string " " ++ tab ++ mnem ++ ws2 ++ ops ++ nl)
        with (" "%char :: "009"%char :: mnem ++ ws2 ++ ops ++ nl).
      apply run_raw_fwd; [done|done| |].
      { destruct mnem as [|m mnem]; [done|]. simpl in Hmc.
        apply andb_true_iff in Hmc as [Hmc _]. by apply mnem_char_plain. }
      apply run_group_fwd; [done|done| |].
      { by apply blank_head, space_not_mnem. }
      apply run_Plus_fwd; [apply Hws2|apply Hws2| |].
      { destruct ops; [done|]. exact Hops0. }
      apply run_group_star_fwd; [done| |].
      { by destruct Hnl as [-> | ->]. }
      by apply run_Eol_fwd.
    - cbn [app map]. unfold text, insn_text.
      set (C := list_ascii_of_string ":").
      set (S1 := list_ascii_of_string " ").
      f_equal; [|f_equal; [|f_equal]].
      + apply (take_drop_in _ ws0 h
                 (C ++ ws1 ++ raw ++ S1 ++ tab ++ mnem ++ ws2 ++ ops ++ nl));
          [by rewrite <- ?app_assoc|rewrite ?length_app; simpl; lia..].
      + apply (take_drop_in _ (ws0 ++ h ++ C ++ ws1 ++ raw ++ S1 ++ tab)
                 mnem (ws2 ++ ops ++ nl));
          [by rewrite <- ?app_assoc|rewrite ?length_app; simpl; lia..].
      + apply (take_drop_in _
                 (ws0 ++ h ++ C ++ ws1 ++ raw ++ S1 ++ tab ++ mnem ++ ws2)
                 ops nl);
          [by rewrite <- ?app_assoc|rewrite ?length_app; simpl; lia..]. }
  destruct Hrun as (gs & -> & ->). done.
Qed.

(** X18. An instruction line as objdump prints it is read by the scanner
    as its address, its mnemonic and its operands: optional white space,
    the address in hexadecimal digits, a colon, white space, the encoding
    with its padding, a space and a tab, the mnemonic, white space, and the
    operand text up to the end of the line. *)
Theorem insn_line_parses (ws0 h ws1 raw mnem ws2 ops nl : list ascii) :
  forallb Py.is_space ws0 = true → numeral16 h → blank ws1 →
  raw ≠ [] → forallb Re.xdigit_or_blank raw = true →
  match raw with c :: _ => Py.is_space c = false | [] => True end →
  mnem ≠ [] → forallb Re.mnem_char mnem = true → blank ws2 →
  ops ≠ [] → forallb Re.dot ops = true →
  match ops with c :: _ => Py.is_space c = false | [] => True end →
  nl = [] ∨ nl = ["010"%char] →
  parse_insn
    (string_of_list_ascii (insn_text ws0 h ws1 raw mnem ws2 ops nl))
  = Some {| i_pc := Py.int16 h; i_mnem := string_of_list_ascii mnem;
            i_ops := operands ops |}.
Proof.
  intros. unfold parse_insn. by rewrite insn_groups.
Qed.

Lemma insn_line_parses_witness :
  parse_insn (Sample.ins "34" "67828293" "addi" "t0,t0,1656")
  = Some {| i_pc := 0x34; i_mnem := "addi";
            i_ops := ["t0"; "t0"; "1656"]%string |}.
Proof.
  apply (insn_line_parses
           (list_ascii_of_string "  ") (list_ascii_of_string "34")
           ["009"%char] (list_ascii_of_string "67828293         ")
           (list_ascii_of_string "addi") ["009"%char]
           (list_ascii_of_string "t0,t0,1656") ["010"%char]);
    try (vm_compute; reflexivity); try done; by right.
Defined.

Lemma run_group_split p its pos rest opened groups r :
  Re.run (Re.Open :: Re.Plus p :: Re.Close :: its) pos rest opened groups
  = Some r →
  ∃ l rest', rest = l ++ rest' ∧ l ≠ [] ∧ forallb p l = true
             ∧ Re.run its (pos + length l)%nat rest' opened
                 (groups ++ [(pos, (pos + length l)%nat)]) = Some r.
Proof.
  intros H. apply run_Open_inv in H.
  apply run_Plus_split in H as (l & rest' & -> & Hne & Hall & H).
  apply run_Close_inv in H. by exists l, rest'.
Qed.

Lemma memw_re_shape text gs :
  Re.run memw_re 0 text [] [] = Some gs →
  ∃ ws1 hpc ws2 haddr ws3 hdata ws4 hmask rest,
    text = memw_text ws1 hpc ws2 haddr ws3 hdata ws4 hmask ++ rest
    ∧ blank ws1 ∧ blank ws2 ∧ blank ws3 ∧ blank ws4
    ∧ numeral16 hpc ∧ numeral16 haddr ∧ numeral16 hdata ∧ numeral16 hmask
    ∧ map (λ '(b, e), take (e - b) (drop b text)) gs
      = [hpc; haddr; hdata; hmask].
Proof.
  unfold memw_re. intros H. apply run_Bol_inv in H.
  apply run_Lit_split in H as (r0 & -> & H).
  apply run_Plus_split in H as (ws1 & r1 & -> & B1 & B1' & H).
  apply run_Lit_split in H as (r2 & -> & H).
  apply run_group_split in H as (hpc & r3 & -> & N1 & N1' & H).
  apply run_Plus_split in H as (ws2 & r4 & -> & B2 & B2' & H).
  apply run_Lit_split in H as (r5 & -> & H).
  apply run_group_split in H as (haddr & r6 & -> & N2 & N2' & H).
  apply run_Plus_split in H as (ws3 & r7 & -> & B3 & B3' & H).
  apply run_Lit_split in H as (r8 & -> & H).
  apply run_group_split in H as (hdata & r9 & -> & N3 & N3' & H).
  apply run_Plus_split in H as (ws4 & r10 & -> & B4 & B4' & H).
  apply run_Lit_split in H as (r11 & -> & H).
  apply run_group_split in H as (hmask & rest & -> & N4 & N4' & H).
  injection H as <-.
  exists ws1, hpc, ws2, haddr, ws3, hdata, ws4, hmask, rest.
  unfold memw_text.
  set (A := list_ascii_of_string "[MEMW]") in *.
  set (P := list_ascii_of_string "pc=0x") in *.
  set (Q := list_ascii_of_string "addr=0x") in *.
  set (D := list_ascii_of_string "data=0x") in *.
  set (M := list_ascii_of_string "mask=0x") in *.
  split; [by rewrite <- !app_assoc|].
  do 8 (split; [done|]). cbn [app map].
  f_equal; [|f_equal; [|f_equal; [|f_equal]]].
  - apply (take_drop_in _ (A ++ ws1 ++ P) hpc
             (ws2 ++ Q ++ haddr ++ ws3 ++ D ++ hdata ++ ws4 ++ M
              ++ hmask ++ rest));
      [by rewrite <- ?app_assoc
      |rewrite ?length_app; unfold A, P, Q, D, M; simpl; lia..].
  - apply (take_drop_in _ (A ++ ws1 ++ P ++ hpc ++ ws2 ++ Q) haddr
             (ws3 ++ D ++ hdata ++ ws4 ++ M ++ hmask ++ rest));
      [by rewrite <- ?app_assoc
      |rewrite ?length_app; unfold A, P, Q, D, M; simpl; lia..].
  - apply (take_drop_in _
             (A ++ ws1 ++ P ++ hpc ++ ws2 ++ Q ++ haddr ++ ws3 ++ D)
             hdata (ws4 ++ M ++ hmask ++ rest));
      [by rewrite <- ?app_assoc
      |rewrite ?length_app; unfold A, P, Q, D, M; simpl; lia..].
  - apply (take_drop_in _
             (A ++ ws1 ++ P ++ hpc ++ ws2 ++ Q ++ haddr ++ ws3 ++ D
              ++ hdata ++ ws4 ++ M) hmask rest);
      [by rewrite <- ?app_assoc
      |rewrite ?length_app; unfold A, P, Q, D, M; simpl; lia..].
Qed.

Lemma reg_re_shape text gs :
  Re.run reg_re 0 text [] [] = Some gs →
  ∃ ws1 hpc ws2 drd ws3 ws4 hval rest,
    text = reg_text ws1 hpc ws2 drd ws3 ws4 hval ++ rest
    ∧ blank ws1 ∧ blank ws2 ∧ blank ws3 ∧ blank ws4
    ∧ numeral16 hpc ∧ numeral10 drd ∧ numeral16 hval
    ∧ map (λ '(b, e), take (e - b) (drop b text)) gs = [hpc; drd; hval].
Proof.
  unfold reg_re. intros H. apply run_Bol_inv in H.
  apply run_Lit_split in H as (r0 & -> & H).
  apply run_Plus_split in H as (ws1 & r1 & -> & B1 & B1' & H).
  apply run_Lit_split in H as (r2 & -> & H).
  apply run_group_split in H as (hpc & r3 & -> & N1 & N1' & H).
  apply run_Plus_split in H as (ws2 & r4 & -> & B2 & B2' & H).
  apply run_Lit_split in H as (r5 & -> & H).
  apply run_group_split in H as (drd & r6 & -> & N2 & N2' & H).
  apply run_Plus_split in H as (ws3 & r7 & -> & B3 & B3' & H).
  apply run_Lit_split in H as (r8 & -> & H).
  apply run_Plus_split in H as (ws4 & r10 & -> & B4 & B4' & H).
  apply run_Lit_split in H as (r11 & -> & H).
  apply run_group_split in H as (hval & rest & -> & N4 & N4' & H).
  injection H as <-.
  exists ws1, hpc, ws2, drd, ws3, ws4, hval, rest.
  unfold reg_text.
  set (A := list_ascii_of_string "[REG]") in *.
  set (P := list_ascii_of_string "pc=0x") in *.
  set (Q := list_ascii_of_string "x") in *.
  set (D := list_ascii_of_string "<=") in *.
  set (M := list_ascii_of_string "0x") in *.
  split; [by rewrite <- !app_assoc|].
  do 7 (split; [done|]). cbn [app map].
  f_equal; [|f_equal; [|f_equal]].
  - apply (take_drop_in _ (A ++ ws1 ++ P) hpc
             (ws2 ++ Q ++ drd ++ ws3 ++ D ++ ws4 ++ M ++ hval ++ rest));
      [by rewrite <- ?app_assoc
      |rewrite ?length_app; unfold A, P, Q, D, M; simpl; lia..].
  - apply (take_drop_in _ (A ++ ws1 ++ P ++ hpc ++ ws2 ++ Q) drd
             (ws3 ++ D ++ ws4 ++ M ++ hval ++ rest));
      [by rewrite <- ?app_assoc
      |rewrite ?length_app; unfold A, P, Q, D, M; simpl; lia..].
  - apply (take_drop_in _
             (A ++ ws1 ++ P ++ hpc ++ ws2 ++ Q ++ drd ++ ws3 ++ D ++ ws4
              ++ M) hval rest);
      [by rewrite <- ?app_assoc
      |rewrite ?length_app; unfold A, P, Q, D, M; simpl; lia..].
Qed.

(** X20. Only lines of the two shapes yield events: a line that gives a
    memory write reads, once stripped, as the tag [MEMW] in brackets and
    the four fields [pc=0x], [addr=0x], [data=0x], [mask=0x] with their
    hexadecimal numerals, separated by white space, and a line that gives
    a register write as the tag [REG], [pc=0x], [x] with a decimal
    numeral, [<=] and [0x] with its numeral; whatever follows the last
    numeral is ignored. *)
Theorem log_line_shapes (line : string) :
  (∀ w, memw_of_line line = Some w →
     ∃ ws1 hpc ws2 haddr ws3 hdata ws4 hmask rest,
       Py.strip (list_ascii_of_string line)
       = memw_text ws1 hpc ws2 haddr ws3 hdata ws4 hmask ++ rest
       ∧ blank ws1 ∧ blank ws2 ∧ blank ws3 ∧ blank ws4
       ∧ numeral16 hpc ∧ numeral16 haddr ∧ numeral16 hdata
       ∧ numeral16 hmask
       ∧ w = {| w_pc := Py.int16 hpc; w_addr := Py.int16 haddr;
                w_data := Py.int16 hdata; w_mask := Py.int16 hmask |})
  ∧ (∀ r, reg_of_line line = Some r →
       ∃ ws1 hpc ws2 drd ws3 ws4 hval rest,
         Py.strip (list_ascii_of_string line)
         = reg_text ws1 hpc ws2 drd ws3 ws4 hval ++ rest
         ∧ blank ws1 ∧ blank ws2 ∧ blank ws3 ∧ blank ws4
         ∧ numeral16 hpc ∧ numeral10 drd ∧ numeral16 hval
         ∧ r = {| r_pc := Py.int16 hpc; r_rd := PyText.int10 drd;
                  r_val := Py.int16 hval |}).
Proof.
  split.
  - intros w. unfold memw_of_line, match_stripped, Re.rmatch.
    rewrite list_ascii_of_string_of_list_ascii.
    destruct (Re.run memw_re 0 _ [] []) as [gs|] eqn:Hrun; [|done].
    apply memw_re_shape in Hrun
      as (ws1 & hpc & ws2 & haddr & ws3 & hdata & ws4 & hmask & rest
          & Ht & B1 & B2 & B3 & B4 & N1 & N2 & N3 & N4 & ->).
    intros [= <-].
    by exists ws1, hpc, ws2, haddr, ws3, hdata, ws4, hmask, rest.
  - intros r. unfold reg_of_line, match_stripped, Re.rmatch.
    rewrite list_ascii_of_string_of_list_ascii.
    destruct (Re.run reg_re 0 _ [] []) as [gs|] eqn:Hrun; [|done].
    apply reg_re_shape in Hrun
      as (ws1 & hpc & ws2 & drd & ws3 & ws4 & hval & rest
          & Ht & B1 & B2 & B3 & B4 & N1 & N2 & N3 & ->).
    intros [= <-].
    by exists ws1, hpc, ws2, drd, ws3, ws4, hval, rest.
Qed.

Lemma log_line_shapes_witness :
  ∃ ws1 hpc ws2 drd ws3 ws4 hval rest,
    Py.strip (list_ascii_of_string "[REG] pc=0x48 x28 <= 0x0 (t3)")
    = reg_text ws1 hpc ws2 drd ws3 ws4 hval ++ rest
    ∧ blank ws1 ∧ blank ws2 ∧ blank ws3 ∧ blank ws4
    ∧ numeral16 hpc ∧ numeral10 drd ∧ numeral16 hval
    ∧ {| r_pc := 0x48; r_rd := 28; r_val := 0 |}
      = {| r_pc := Py.int16 hpc; r_rd := PyText.int10 drd;
           r_val := Py.int16 hval |}.
Proof.
  apply (proj2 (log_line_shapes "[REG] pc=0x48 x28 <= 0x0 (t3)")).
  vm_compute. reflexivity.
Defined.

Lemma parse_nm_last_wins_witness :
  ∃ l1 line l2,
    Sample.nm_lines ++ ["00003000 D tohost"%string] = l1 ++ line :: l2
    ∧ nm_entry line = Some ("tohost"%string, 0x3000)
    ∧ ∀ line' a', line' ∈ l2 → nm_entry line' ≠ Some ("tohost"%string, a').
Proof.
  apply (proj1 (proj1 (parse_nm_last_wins
                         (Sample.nm_lines ++ ["00003000 D tohost"%string])
                         "tohost") 0x3000)).
  vm_compute. reflexivity.
Defined.

Lemma stage2_accounting_witness :
  let EXP := EXP_of Sample.partial_syms 0x1000 0x2000 0x2004 0x2008 in
  let errors := (match_loop Sample.trap_got 0 EXP [] ∅).1 in
  let positions := (match_loop Sample.trap_got 0 EXP [] ∅).2 in
  (length errors + size positions = length EXP)%nat
  ∧ (∀ i k, positions !! i = Some k →
            (i < length EXP)%nat ∧ (k < length Sample.trap_got)%nat)
  ∧ (errors = [] → ∀ i, (i < length EXP)%nat → is_Some (positions !! i)).
Proof.
  exact (stage2_accounting Sample.trap_got
           (EXP_of Sample.partial_syms 0x1000 0x2000 0x2004 0x2008)).
Defined.
